(** * rport: the client service of the tunnel server

    A shallow embedding of [ClientService] (package [chserver]) and a
    verification of its registration, tunnel-allocation and removal logic.

    The service works on three pieces of mutable state: the Go heap holding
    the [*clients.Client] objects, the client repository and the port
    distributor.  [StartClient], [StartClientTunnels], [Terminate] and
    [ForceDelete] hold the service mutex for their whole body; every
    operation is modelled as one state transformer, run on its own. *)

From Stdlib Require Import ZArith Lia Ascii String.
From stdpp Require Import base option list gmap strings pretty sorting.

Local Open Scope string_scope.
Local Open Scope Z_scope.

(** ** Errors *)

(** Go [error] values.  Formatted messages are kept as the format string
    together with its operands. *)
#[local] Unset Elimination Schemes.
Inductive error : Type :=
| ErrorString (msg : string)                              (* errors.New *)
| Errorf (format : string) (args : list fmtArg)           (* fmt.Errorf *)
| NumError (Func Num : string) (Err : error)              (* *strconv.NumError *)
| APIError (HTTPStatus : Z) (Message : option text) (Err : option error)
                                                          (* errors.APIError *)
with fmtArg : Type :=
| ArgString (s : string)
| ArgInt (n : Z)
| ArgError (e : error)
with text : Type :=
| Sprintf (format : string) (args : list fmtArg).         (* fmt.Sprintf *)
#[local] Set Elimination Schemes.

Definition StatusBadRequest : Z := 400.
Definition StatusConflict : Z := 409.

Definition ErrSyntax : error := ErrorString "invalid syntax".
Definition ErrRange : error := ErrorString "value out of range".

(** The result of a Go call returning [(T, error)]. *)
Inductive result (A : Type) : Type :=
| Ok (a : A)
| Err (e : error).
Arguments Ok {A} a.
Arguments Err {A} e.

(** ** strconv *)

Definition digit_of (c : ascii) : option Z :=
  let n := Z.of_N (N_of_ascii c) in
  if (48 <=? n) && (n <=? 57) then Some (n - 48) else None.

(** The outcome of scanning an unsigned decimal numeral. *)
Inductive scan : Type :=
| ScanSyntax
| ScanRange
| ScanValue (n : Z).

Definition maxUint64 : Z := 2 ^ 64 - 1.

(** The loop of [strconv.ParseUint] for base 10 and 64 bits: a character that
    is no digit is a syntax error; a value that leaves the 64 bits is a range
    error, reported as soon as it is met. *)
Fixpoint scanDigits (s : string) (n : Z) : scan :=
  match s with
  | EmptyString => ScanValue n
  | String c s' =>
      match digit_of c with
      | None => ScanSyntax
      | Some d =>
          if maxUint64 / 10 + 1 <=? n then ScanRange
          else
            let n1 := 10 * n + d in
            if maxUint64 <? n1 then ScanRange else scanDigits s' n1
      end
  end.

Definition ParseUint (s : string) : scan :=
  match s with
  | EmptyString => ScanSyntax
  | _ => scanDigits s 0
  end.

(** [strconv.Atoi] on a 64-bit platform: an optional sign, then at least one
    decimal digit and nothing else; the value has to fit an [int].  Its fast
    path for short texts gives what [ParseInt] gives. *)
Definition Atoi (s : string) : result Z :=
  let signed (neg : bool) (body : string) :=
    match ParseUint body with
    | ScanSyntax => Err (NumError "Atoi" s ErrSyntax)
    | ScanRange => Err (NumError "Atoi" s ErrRange)
    | ScanValue un =>
        if negb neg && (2 ^ 63 <=? un) then Err (NumError "Atoi" s ErrRange)
        else if neg && (2 ^ 63 <? un) then Err (NumError "Atoi" s ErrRange)
        else Ok (if neg then - un else un)
    end in
  match s with
  | EmptyString => Err (NumError "Atoi" s ErrSyntax)
  | String "+" body => signed false body
  | String "-" body => signed true body
  | _ => signed false s
  end.

(** [strconv.Itoa]. *)
Definition Itoa (n : Z) : string := pretty n.

(** ** Package [chshare]: what an agent sends *)

Module chshare.

(** One requested port-forward.  [ACL] is Go's [*string]. *)
Record Remote : Type := {
  LocalHost : string;
  LocalPort : string;
  RemoteHost : string;
  RemotePort : string;
  LocalPortRandom : bool;
  ACL : option string
}.

(** Modelled from the spec: [Remote.IsLocalSpecified], whose source is
    missing; the service asks for a random port exactly when "no explicit
    local port was specified". *)
Definition IsLocalSpecified (r : Remote) : bool :=
  negb (String.eqb (LocalPort r) EmptyString).

(** The assignment block of [startClientTunnels] for a random port. *)
Definition withRandomPort (port : Z) (r : Remote) : Remote :=
  {| LocalHost := "0.0.0.0";
     LocalPort := Itoa port;
     RemoteHost := RemoteHost r;
     RemotePort := RemotePort r;
     LocalPortRandom := true;
     ACL := ACL r |}.

(** The agent-side target of a remote. *)
Definition target (r : Remote) : string * string := (RemoteHost r, RemotePort r).

Record ConnectionRequest : Type := {
  Version : string;
  Name : string;
  OS : string;
  OSArch : string;
  OSFamily : string;
  OSKernel : string;
  OSFullName : string;
  OSVersion : string;
  OSVirtualizationSystem : string;
  OSVirtualizationRole : string;
  Hostname : string;
  CPUFamily : string;
  CPUModel : string;
  CPUModelName : string;
  CPUVendor : string;
  NumCPUs : Z;
  MemoryTotal : Z;
  Timezone : string;
  IPv4 : list string;
  IPv6 : list string;
  Tags : list string;
  Remotes : list Remote
}.

End chshare.

(** ** Package [clients]: the registry's entities *)

Module clients.

(** A parsed allow/deny rule set; the service only carries it around. *)
Record TunnelACL : Type := { Rules : list string }.

Record Tunnel : Type := {
  Remote : chshare.Remote;
  ACL : option TunnelACL
}.

(** The live-connection handle ([ssh.Conn]) as far as the service uses it:
    its remote address, whether it has been closed, and the error its
    [Close] reports, if any. *)
Record Conn : Type := {
  RemoteAddr : string;
  Closed : bool;
  CloseErr : option error
}.

Definition closeConn (c : Conn) : Conn :=
  {| RemoteAddr := RemoteAddr c; Closed := true; CloseErr := CloseErr c |}.

Record Client : Type := {
  ID : string;
  Name : string;
  OS : string;
  OSArch : string;
  OSFamily : string;
  OSKernel : string;
  OSFullName : string;
  OSVersion : string;
  OSVirtualizationSystem : string;
  OSVirtualizationRole : string;
  Hostname : string;
  CPUFamily : string;
  CPUModel : string;
  CPUModelName : string;
  CPUVendor : string;
  NumCPUs : Z;
  MemoryTotal : Z;
  Timezone : string;
  IPv4 : list string;
  IPv6 : list string;
  Tags : list string;
  Version : string;
  Address : string;
  Tunnels : list Tunnel;
  DisconnectedAt : option Z;            (* *time.Time *)
  ClientAuthID : string;
  AllowedUserGroups : list string;
  UpdatesStatus : option string;        (* *models.UpdatesStatus *)
  Connection : Conn;
  Context : nat;                        (* context.Context, opaque *)
  Logger : nat                          (* *chshare.Logger, opaque *)
}.

(** Field assignments through a [*Client]. *)
Definition setDisconnectedAt (v : option Z) (c : Client) : Client :=
  {| ID := ID c; Name := Name c; OS := OS c; OSArch := OSArch c;
     OSFamily := OSFamily c; OSKernel := OSKernel c; OSFullName := OSFullName c;
     OSVersion := OSVersion c;
     OSVirtualizationSystem := OSVirtualizationSystem c;
     OSVirtualizationRole := OSVirtualizationRole c; Hostname := Hostname c;
     CPUFamily := CPUFamily c; CPUModel := CPUModel c;
     CPUModelName := CPUModelName c; CPUVendor := CPUVendor c;
     NumCPUs := NumCPUs c; MemoryTotal := MemoryTotal c; Timezone := Timezone c;
     IPv4 := IPv4 c; IPv6 := IPv6 c; Tags := Tags c; Version := Version c;
     Address := Address c; Tunnels := Tunnels c;
     DisconnectedAt := v;
     ClientAuthID := ClientAuthID c; AllowedUserGroups := AllowedUserGroups c;
     UpdatesStatus := UpdatesStatus c; Connection := Connection c;
     Context := Context c; Logger := Logger c |}.

Definition setTunnels (v : list Tunnel) (c : Client) : Client :=
  {| ID := ID c; Name := Name c; OS := OS c; OSArch := OSArch c;
     OSFamily := OSFamily c; OSKernel := OSKernel c; OSFullName := OSFullName c;
     OSVersion := OSVersion c;
     OSVirtualizationSystem := OSVirtualizationSystem c;
     OSVirtualizationRole := OSVirtualizationRole c; Hostname := Hostname c;
     CPUFamily := CPUFamily c; CPUModel := CPUModel c;
     CPUModelName := CPUModelName c; CPUVendor := CPUVendor c;
     NumCPUs := NumCPUs c; MemoryTotal := MemoryTotal c; Timezone := Timezone c;
     IPv4 := IPv4 c; IPv6 := IPv6 c; Tags := Tags c; Version := Version c;
     Address := Address c;
     Tunnels := v;
     DisconnectedAt := DisconnectedAt c;
     ClientAuthID := ClientAuthID c; AllowedUserGroups := AllowedUserGroups c;
     UpdatesStatus := UpdatesStatus c; Connection := Connection c;
     Context := Context c; Logger := Logger c |}.

Definition setUpdatesStatus (v : option string) (c : Client) : Client :=
  {| ID := ID c; Name := Name c; OS := OS c; OSArch := OSArch c;
     OSFamily := OSFamily c; OSKernel := OSKernel c; OSFullName := OSFullName c;
     OSVersion := OSVersion c;
     OSVirtualizationSystem := OSVirtualizationSystem c;
     OSVirtualizationRole := OSVirtualizationRole c; Hostname := Hostname c;
     CPUFamily := CPUFamily c; CPUModel := CPUModel c;
     CPUModelName := CPUModelName c; CPUVendor := CPUVendor c;
     NumCPUs := NumCPUs c; MemoryTotal := MemoryTotal c; Timezone := Timezone c;
     IPv4 := IPv4 c; IPv6 := IPv6 c; Tags := Tags c; Version := Version c;
     Address := Address c; Tunnels := Tunnels c;
     DisconnectedAt := DisconnectedAt c;
     ClientAuthID := ClientAuthID c; AllowedUserGroups := AllowedUserGroups c;
     UpdatesStatus := v;
     Connection := Connection c;
     Context := Context c; Logger := Logger c |}.

Definition setConnection (v : Conn) (c : Client) : Client :=
  {| ID := ID c; Name := Name c; OS := OS c; OSArch := OSArch c;
     OSFamily := OSFamily c; OSKernel := OSKernel c; OSFullName := OSFullName c;
     OSVersion := OSVersion c;
     OSVirtualizationSystem := OSVirtualizationSystem c;
     OSVirtualizationRole := OSVirtualizationRole c; Hostname := Hostname c;
     CPUFamily := CPUFamily c; CPUModel := CPUModel c;
     CPUModelName := CPUModelName c; CPUVendor := CPUVendor c;
     NumCPUs := NumCPUs c; MemoryTotal := MemoryTotal c; Timezone := Timezone c;
     IPv4 := IPv4 c; IPv6 := IPv6 c; Tags := Tags c; Version := Version c;
     Address := Address c; Tunnels := Tunnels c;
     DisconnectedAt := DisconnectedAt c;
     ClientAuthID := ClientAuthID c; AllowedUserGroups := AllowedUserGroups c;
     UpdatesStatus := UpdatesStatus c;
     Connection := v;
     Context := Context c; Logger := Logger c |}.

(** [clients.User], an interface with two getters. *)
Record User : Type := {
  IsAdmin : bool;
  GetGroups : list string
}.

End clients.

(** ** Package [cgroups] *)

Module cgroups.

(** A client group: its id and the member list the service fills in.  How
    a group selects clients is left to [BelongsTo], a parameter of the
    service below. *)
Record ClientGroup : Type := {
  ID : string;
  ClientIDs : list string
}.

Definition setClientIDs (v : list string) (g : ClientGroup) : ClientGroup :=
  {| ID := ID g; ClientIDs := v |}.

End cgroups.

(** ** The server state *)

(** A [*clients.Client]: an index into the heap of client objects. *)
Abbreviation loc := nat (only parsing).

(** The repository operations that can fail on their storage. *)
Inductive RepoOp : Type :=
| OpGetByID | OpGetUserClients | OpSave | OpDelete.

(** Modelled from the spec: the struct [clients.ClientRepository], whose
    source is missing.  It is the "store of Client entities keyed by client
    id, with secondary lookup by auth id ... and a retention policy for
    disconnected clients"; its operations may fail with an I/O error, which
    [Failing] records per operation. *)
Record ClientRepository : Type := {
  Clients : gmap string loc;
  KeepLostClients : option Z;             (* *time.Duration *)
  Failing : RepoOp -> option error
}.

(** Modelled from the spec: the struct [ports.PortDistributor], whose source
    is missing.  It is the "record of the configured allowed-port range/set
    and the currently-busy subset"; [RefreshErr] is the I/O error its next
    refresh meets, [Draws] the random numbers it will draw. *)
Record PortDistributor : Type := {
  AllowedPorts : gset Z;
  BusyPorts : gset Z;
  RefreshErr : option error;
  Draws : list nat
}.

Record State : Type := {
  heap : list clients.Client;
  repo : ClientRepository;
  portDistributor : PortDistributor
}.

Definition setHeap (h : list clients.Client) (s : State) : State :=
  {| heap := h; repo := repo s; portDistributor := portDistributor s |}.
Definition setRepo (r : ClientRepository) (s : State) : State :=
  {| heap := heap s; repo := r; portDistributor := portDistributor s |}.
Definition setPortDistributor (d : PortDistributor) (s : State) : State :=
  {| heap := heap s; repo := repo s; portDistributor := d |}.

Definition setClients (m : gmap string loc) (r : ClientRepository) : ClientRepository :=
  {| Clients := m; KeepLostClients := KeepLostClients r; Failing := Failing r |}.
Definition setBusyPorts (b : gset Z) (d : PortDistributor) : PortDistributor :=
  {| AllowedPorts := AllowedPorts d; BusyPorts := b;
     RefreshErr := RefreshErr d; Draws := Draws d |}.
Definition setDraws (l : list nat) (d : PortDistributor) : PortDistributor :=
  {| AllowedPorts := AllowedPorts d; BusyPorts := BusyPorts d;
     RefreshErr := RefreshErr d; Draws := l |}.

(** ** A state-and-error monad for Go methods

    A computation runs on a state and either panics ([None], a nil or
    dangling pointer dereference) or ends in a new state with a value or an
    [error].  Writes made before an error is returned stay in the state. *)
Definition M (A : Type) : Type := State -> option (result A * State).

Definition ret {A} (a : A) : M A := fun s => Some (Ok a, s).
Definition fail {A} (e : error) : M A := fun s => Some (Err e, s).

Definition bind {A B} (m : M A) (k : A -> M B) : M B :=
  fun s =>
    match m s with
    | Some (Ok a, s') => k a s'
    | Some (Err e, s') => Some (Err e, s')
    | None => None
    end.

(** [if err != nil { return ..., f err }] around a call. *)
Definition mapErr {A} (f : error -> error) (m : M A) : M A :=
  fun s =>
    match m s with
    | Some (Err e, s') => Some (Err (f e), s')
    | r => r
    end.

(** A call whose error the caller receives as a value. *)
Definition catch {A} (m : M A) : M (result A) :=
  fun s =>
    match m s with
    | Some (r, s') => Some (Ok r, s')
    | None => None
    end.

Definition gets {A} (f : State -> A) : M A := fun s => Some (Ok (f s), s).
Definition modify (f : State -> State) : M unit := fun s => Some (Ok tt, f s).

(** From a Go [error] result ([None] is [nil]). *)
Definition liftErr (e : option error) : M unit :=
  match e with
  | Some e => fail e
  | None => ret tt
  end.

Declare Scope go_scope.
Delimit Scope go_scope with go.
Notation "x <- m ;; k" := (bind m (fun x => k))
  (at level 100, m at next level, right associativity) : go_scope.
Notation "m ;;; k" := (bind m (fun _ => k))
  (at level 100, right associativity) : go_scope.
Local Open Scope go_scope.

(** Reading and writing through a [*Client]. *)
Definition load (p : loc) : M clients.Client :=
  fun s =>
    match heap s !! p with
    | Some c => Some (Ok c, s)
    | None => None
    end.

Definition store (p : loc) (c : clients.Client) : M unit :=
  fun s =>
    match heap s !! p with
    | Some _ => Some (Ok tt, setHeap (<[p := c]> (heap s)) s)
    | None => None
    end.

(** [&clients.Client{...}]: a fresh object. *)
Definition alloc (c : clients.Client) : M loc :=
  fun s => Some (Ok (length (heap s)), setHeap (heap s ++ [c]) s).

(** ** The client repository

    The methods of [clients.ClientRepository] are modelled from the spec,
    their source being missing.  An operation whose storage fails returns
    the error and writes nothing. *)

(** The stored pointers with the objects they point to; [None] when a stored
    pointer dangles. *)
Definition records (s : State) : option (list (loc * clients.Client)) :=
  mapM (fun p : loc => c ← heap s !! p; Some (p, c))
       (snd <$> map_to_list (Clients (repo s))).

Definition getRecords : M (list (loc * clients.Client)) :=
  fun s =>
    match records s with
    | Some rs => Some (Ok rs, s)
    | None => None
    end.

Definition storage (op : RepoOp) : M unit :=
  f <- gets (fun s => Failing (repo s) op) ;; liftErr f.

(** Modelled from the spec: [ClientRepository.GetByID], a "lookup" in the
    store "keyed by client id"; [nil] when nothing is stored under the id. *)
Definition repo_GetByID (id : string) : M (option loc) :=
  storage OpGetByID ;;;
  gets (fun s => Clients (repo s) !! id).

(** Modelled from the spec: [ClientRepository.Save], "insert-or-replace by
    client id". *)
Definition repo_Save (client : loc) : M unit :=
  c <- load client ;;
  storage OpSave ;;;
  modify (fun s => setRepo (setClients (<[clients.ID c := client]> (Clients (repo s))) (repo s)) s).

(** Modelled from the spec: [ClientRepository.Delete], which "removes the
    record unconditionally". *)
Definition repo_Delete (client : loc) : M unit :=
  c <- load client ;;
  storage OpDelete ;;;
  modify (fun s => setRepo (setClients (delete (clients.ID c) (Clients (repo s))) (repo s)) s).

(** Modelled from the spec: [ClientRepository.GetAllByClientAuthID], the
    "secondary lookup by auth id".  The spec counts an auth id as attached
    to connected clients only ("already attached to any other connected
    client id", "attached to at most one connected client id at a time"):
    the lookup gives the stored clients that carry the auth id and are
    connected.  It returns no error. *)
Definition repo_GetAllByClientAuthID (clientAuthID : string) : M (list loc) :=
  rs <- getRecords ;;
  ret (fst <$> filter (fun pc => clients.ClientAuthID pc.2 = clientAuthID ∧
                                 clients.DisconnectedAt pc.2 = None) rs).

(** Modelled from the spec: [Client.HasAccess] is "true if the client's
    AllowedUserGroups intersects the user's groups, or the client has no
    group restriction". *)
Definition HasAccess (c : clients.Client) (userGroups : list string) : bool :=
  match clients.AllowedUserGroups c with
  | [] => true
  | allowed => existsb (fun g => bool_decide (g ∈ allowed)) userGroups
  end.

(** Modelled from the spec: [ClientRepository.GetUserClients] without filter
    options, as the service calls it: the "access-control narrowing to only
    clients the given user may see". *)
Definition repo_GetUserClients (user : clients.User) : M (list loc) :=
  storage OpGetUserClients ;;;
  rs <- getRecords ;;
  ret (fst <$> filter (fun pc => clients.IsAdmin user || HasAccess pc.2 (clients.GetGroups user)) rs).

(** ** Client methods *)

Definition holdsLocalPort (c : clients.Client) (port : string) : bool :=
  existsb (fun t => String.eqb (chshare.LocalPort (clients.Remote t)) port) (clients.Tunnels c).

(** Modelled from the spec: [Client.StartTunnel], whose source is missing.
    It "validates the remote spec against already-held tunnels and the
    resolved local port, constructs and appends a new Tunnel, returns it or
    fails with a structured error (e.g., conflicting local port)". *)
Definition Client_StartTunnel (client : loc) (remote : chshare.Remote)
    (acl : option clients.TunnelACL) : M clients.Tunnel :=
  c <- load client ;;
  if holdsLocalPort c (chshare.LocalPort remote)
  then fail (ErrorString "conflicting local port")
  else
    let t := {| clients.Remote := remote; clients.ACL := acl |} in
    store client (clients.setTunnels (clients.Tunnels c ++ [t]) c) ;;;
    ret t.

(** Modelled from the spec: [Client.Close], whose source is missing.  It
    "terminates the live connection handle"; the service checks the error it
    returns. *)
Definition Client_Close (client : loc) : M unit :=
  c <- load client ;;
  match clients.CloseErr (clients.Connection c) with
  | Some e => fail e
  | None => store client (clients.setConnection (clients.closeConn (clients.Connection c)) c)
  end.

(** ** The port distributor

    The methods of [ports.PortDistributor] are modelled from the spec, their
    source being missing. *)

Definition tunnelPort (t : clients.Tunnel) : option Z :=
  match Atoi (chshare.LocalPort (clients.Remote t)) with
  | Ok n => Some n
  | Err _ => None
  end.

Definition livePorts (c : clients.Client) : list Z :=
  match clients.DisconnectedAt c with
  | None => omap tunnelPort (clients.Tunnels c)
  | Some _ => []
  end.

(** Modelled from the spec: [PortDistributor.Refresh], which "recomputes the
    busy-port set from all currently live tunnels; fails only on collaborator
    I/O errors". *)
Definition Refresh : M unit :=
  e <- gets (fun s => RefreshErr (portDistributor s)) ;;
  liftErr e ;;;
  rs <- getRecords ;;
  modify (fun s =>
    setPortDistributor
      (setBusyPorts (list_to_set (rs ≫= fun pc => livePorts pc.2)) (portDistributor s)) s).

(** Modelled from the spec: [PortDistributor.IsPortAllowed], a "pure
    predicate against the configured allow-list/range". *)
Definition IsPortAllowed (d : PortDistributor) (port : Z) : bool :=
  bool_decide (port ∈ AllowedPorts d).

(** Modelled from the spec: [PortDistributor.IsPortBusy], a "pure predicate
    against the last-refreshed busy set". *)
Definition IsPortBusy (d : PortDistributor) (port : Z) : bool :=
  bool_decide (port ∈ BusyPorts d).

Definition freePorts (d : PortDistributor) : list Z :=
  filter (fun p => p ∉ BusyPorts d) (elements (AllowedPorts d)).

(** Modelled from the spec: [PortDistributor.GetRandomPort], which "returns
    one currently-free port from the allowed set chosen uniformly at random
    among free candidates; fails with a capacity error when no allowed port
    is free"; it leaves the busy set alone. *)
Definition GetRandomPort : M Z :=
  d <- gets portDistributor ;;
  match freePorts d with
  | [] => fail (ErrorString "no ports available")
  | (p0 :: _) as free =>
      let draw := hd 0%nat (Draws d) in
      modify (setPortDistributor (setDraws (tl (Draws d)) d)) ;;;
      ret (nth (draw `mod` length free)%nat free p0)
  end.

(** ** Tunnel reconciliation *)

(** Modelled from the spec: [getRemotes], whose source is missing: the
    remote specifications of the tunnels "that existed before the
    disconnect". *)
Definition getRemotes (tunnels : list clients.Tunnel) : list chshare.Remote :=
  clients.Remote <$> tunnels.

Definition sameSpec (a b : chshare.Remote) : bool :=
  String.eqb (chshare.RemoteHost a) (chshare.RemoteHost b)
  && String.eqb (chshare.RemotePort a) (chshare.RemotePort b)
  && String.eqb (chshare.LocalHost a) (chshare.LocalHost b)
  && String.eqb (chshare.LocalPort a) (chshare.LocalPort b).

Definition duplicated (new : list chshare.Remote) (old : chshare.Remote) : bool :=
  existsb (sameSpec old) new.

(** Modelled from the spec: [GetTunnelsToReestablish], whose source is
    missing.  On a reconnect the old tunnels that no newly requested remote
    duplicates "(same target/local spec)" are merged into the request "so
    they are re-established": given old [remoteA] and a disjoint request
    [{remoteB}], both end up in the client's tunnel set. *)
Definition GetTunnelsToReestablish (old new : list chshare.Remote) : list chshare.Remote :=
  List.filter (fun o => negb (duplicated new o)) old.

(** ** [sort.Strings]: ascending, bytewise *)

Fixpoint insertSorted (x : string) (l : list string) : list string :=
  match l with
  | [] => [x]
  | y :: l' => if String.leb x y then x :: l else y :: insertSorted x l'
  end.

Definition sortStrings (l : list string) : list string :=
  foldr insertSorted [] l.

(** ** The client service *)

Section ClientService.

(** What the service calls and neither its sources nor the spec define:
    the ACL parser, [net.SplitHostPort] (its host result) and the
    group-membership test [Client.BelongsTo]. *)
Variable ParseTunnelACL : string -> result clients.TunnelACL.
Variable SplitHostPort : string -> result string.
Variable BelongsTo : clients.Client -> cgroups.ClientGroup -> bool.

Definition GetByID (id : string) : M (option loc) := repo_GetByID id.

(** The two nested loops of [PopulateGroupsWithUserClients]. *)
Definition appendTo (c : clients.Client) (curGroup : cgroups.ClientGroup) : cgroups.ClientGroup :=
  if BelongsTo c curGroup
  then cgroups.setClientIDs (cgroups.ClientIDs curGroup ++ [clients.ID c]) curGroup
  else curGroup.

Fixpoint populate (all : list loc) (groups : list cgroups.ClientGroup)
    : M (list cgroups.ClientGroup) :=
  match all with
  | [] => ret groups
  | curClient :: rest =>
      c <- load curClient ;;
      populate rest (appendTo c <$> groups)
  end.

(** The groups are passed by pointer and changed in place; the model
    returns them.  The function itself has no result. *)
Definition PopulateGroupsWithUserClients (groups : list cgroups.ClientGroup)
    (user : clients.User) : M (list cgroups.ClientGroup) :=
  r <- catch (repo_GetUserClients user) ;;
  let all := match r with Ok all => all | Err _ => [] end in
  groups <- populate all groups ;;
  ret ((fun g => cgroups.setClientIDs (sortStrings (cgroups.ClientIDs g)) g) <$> groups).

(** The loop of [isClientAuthIDInUse]. *)
Fixpoint anyOtherID (clientID : string) (found : list loc) : M bool :=
  match found with
  | [] => ret false
  | p :: rest =>
      c <- load p ;;
      if negb (String.eqb (clients.ID c) clientID) then ret true
      else anyOtherID clientID rest
  end.

(** isClientAuthIDInUse returns true when the client with different id
    exists for the client auth. *)
Definition isClientAuthIDInUse (clientAuthID clientID : string) : M bool :=
  found <- repo_GetAllByClientAuthID clientAuthID ;;
  anyOtherID clientID found.

Definition checkLocalPort (port : string) : M unit :=
  d <- gets portDistributor ;;
  match Atoi port with
  | Err err =>
      fail (APIError StatusBadRequest
              (Some (Sprintf "Invalid local port: %s." [ArgString port]))
              (Some err))
  | Ok localPort =>
      if negb (IsPortAllowed d localPort) then
        fail (APIError StatusBadRequest
                (Some (Sprintf "Local port %d is not among allowed ports." [ArgInt localPort]))
                None)
      else if IsPortBusy d localPort then
        fail (APIError StatusConflict
                (Some (Sprintf "Local port %d already in use." [ArgInt localPort]))
                None)
      else ret tt
  end.

(** One iteration of the loop of [startClientTunnels]: resolve the local
    port, parse the ACL, start the tunnel. *)
Definition resolveLocal (remote : chshare.Remote) : M chshare.Remote :=
  if negb (chshare.IsLocalSpecified remote) then
    port <- GetRandomPort ;;
    ret (chshare.withRandomPort port remote)
  else
    checkLocalPort (chshare.LocalPort remote) ;;;
    ret remote.

Definition parseACL (remote : chshare.Remote) : M (option clients.TunnelACL) :=
  match chshare.ACL remote with
  | Some a =>
      match ParseTunnelACL a with
      | Ok acl => ret (Some acl)
      | Err err => fail err
      end
  | None => ret None
  end.

Definition cantCreateTunnel (err : error) : error :=
  APIError StatusConflict None (Some (Errorf "can't create tunnel: %s" [ArgError err])).

Fixpoint startTunnelsLoop (client : loc) (remotes : list chshare.Remote)
    (tunnels : list clients.Tunnel) : M (list clients.Tunnel) :=
  match remotes with
  | [] => ret tunnels
  | remote :: rest =>
      remote <- resolveLocal remote ;;
      acl <- parseACL remote ;;
      t <- mapErr cantCreateTunnel (Client_StartTunnel client remote acl) ;;
      startTunnelsLoop client rest (tunnels ++ [t])
  end.

Definition startClientTunnels (client : loc) (remotes : list chshare.Remote)
    : M (list clients.Tunnel) :=
  Refresh ;;;
  startTunnelsLoop client remotes [].

(** StartClientTunnels returns a new tunnel for each requested remote or
    nil if error occurred. *)
Definition StartClientTunnels (client : loc) (remotes : list chshare.Remote)
    : M (list clients.Tunnel) :=
  newTunnels <- startClientTunnels client remotes ;;
  repo_Save client ;;;
  ret newTunnels.

(** The struct literal of [StartClient]. *)
Definition newClient (ctx : nat) (clientAuthID clientID : string) (sshConn : clients.Conn)
    (req : chshare.ConnectionRequest) (clog : nat) (clientHost : string)
    : clients.Client :=
  {| clients.ID := clientID;
     clients.Name := chshare.Name req;
     clients.OS := chshare.OS req;
     clients.OSArch := chshare.OSArch req;
     clients.OSFamily := chshare.OSFamily req;
     clients.OSKernel := chshare.OSKernel req;
     clients.OSFullName := chshare.OSFullName req;
     clients.OSVersion := chshare.OSVersion req;
     clients.OSVirtualizationSystem := chshare.OSVirtualizationSystem req;
     clients.OSVirtualizationRole := chshare.OSVirtualizationRole req;
     clients.Hostname := chshare.Hostname req;
     clients.CPUFamily := chshare.CPUFamily req;
     clients.CPUModel := chshare.CPUModel req;
     clients.CPUModelName := chshare.CPUModelName req;
     clients.CPUVendor := chshare.CPUVendor req;
     clients.NumCPUs := chshare.NumCPUs req;
     clients.MemoryTotal := chshare.MemoryTotal req;
     clients.Timezone := chshare.Timezone req;
     clients.IPv4 := chshare.IPv4 req;
     clients.IPv6 := chshare.IPv6 req;
     clients.Tags := chshare.Tags req;
     clients.Version := chshare.Version req;
     clients.Address := clientHost;
     clients.Tunnels := [];
     clients.DisconnectedAt := None;
     clients.ClientAuthID := clientAuthID;
     clients.AllowedUserGroups := [];
     clients.UpdatesStatus := None;
     clients.Connection := sshConn;
     clients.Context := ctx;
     clients.Logger := clog |}.

(** Lines 278-280: [client.UpdatesStatus = oldClient.UpdatesStatus]. *)
Definition carryOver (oldClient : option clients.Client) (client : clients.Client)
    : clients.Client :=
  match oldClient with
  | Some old => clients.setUpdatesStatus (clients.UpdatesStatus old) client
  | None => client
  end.

(** Lines 218-234 of [StartClient]: the record under the same id, and the
    remote list the request ends up with. *)
Definition lookupOld (clientID : string) (req : chshare.ConnectionRequest)
    : M (option clients.Client * list chshare.Remote) :=
  oldClient <- mapErr (fun _ => Errorf "failed to get client by id %q" [ArgString clientID])
                 (repo_GetByID clientID) ;;
  match oldClient with
  | Some p =>
      old <- load p ;;
      match clients.DisconnectedAt old with
      | None => fail (Errorf "client id %q is already in use" [ArgString clientID])
      | Some _ =>
          let oldTunnels :=
            GetTunnelsToReestablish (getRemotes (clients.Tunnels old)) (chshare.Remotes req) in
          if (0 <? length oldTunnels)%nat
          then ret (Some old, (chshare.Remotes req ++ oldTunnels)%list)
          else ret (Some old, chshare.Remotes req)
      end
  | None => ret (None, chshare.Remotes req)
  end.

(** Lines 236-239. *)
Definition checkAuthID (authMultiuseCreds : bool) (clientAuthID clientID : string) : M unit :=
  if authMultiuseCreds then ret tt
  else
    inUse <- isClientAuthIDInUse clientAuthID clientID ;;
    if inUse then fail (Errorf "client auth ID is already in use: %q" [ArgString clientAuthID])
    else ret tt.

(** Lines 241-245. *)
Definition clientHostOf (sshConn : clients.Conn) : M string :=
  let clientAddr := clients.RemoteAddr sshConn in
  match SplitHostPort clientAddr with
  | Ok clientHost => ret clientHost
  | Err err =>
      fail (Errorf "failed to get host for address %q: %v" [ArgString clientAddr; ArgError err])
  end.

(** [StartClient], lines 211-292.  The remote list of the request, which
    the Go code extends and whose remotes it completes in place, is the
    local [remotes]; the log lines are left out. *)
Definition StartClient (ctx : nat) (clientAuthID clientID : string) (sshConn : clients.Conn)
    (authMultiuseCreds : bool) (req : chshare.ConnectionRequest) (clog : nat) : M loc :=
  (* if client id is in use, deny connection *)
  found <- lookupOld clientID req ;;
  let '(oldClient, remotes) := found in
  (* check if client auth ID is already used by another client *)
  checkAuthID authMultiuseCreds clientAuthID clientID ;;;
  clientHost <- clientHostOf sshConn ;;
  client <- alloc (carryOver oldClient
                     (newClient ctx clientAuthID clientID sshConn req clog clientHost)) ;;
  startClientTunnels client remotes ;;;
  repo_Save client ;;;
  ret client.

(** [Terminate], lines 381-400; [now] is what [time.Now()] returns. *)
Definition Terminate (client : loc) (now : Z) : M unit :=
  keep <- gets (fun s => KeepLostClients (repo s)) ;;
  match keep with
  | None => repo_Delete client
  | Some _ =>
      c <- load client ;;
      store client (clients.setDisconnectedAt (Some now) c) ;;;
      (* Do not save if client doesn't exist in repo - it was force deleted *)
      existing <- repo_GetByID (clients.ID c) ;;
      match existing with
      | None => ret tt
      | Some _ => repo_Save client
      end
  end.

(** ForceDelete deletes client from repo regardless off KeepLostClients
    setting, if client is active it will be closed. *)
Definition ForceDelete (client : loc) : M unit :=
  c <- load client ;;
  match clients.DisconnectedAt c with
  | None => Client_Close client
  | Some _ => ret tt
  end ;;;
  repo_Delete client.

End ClientService.

(** ** Observations and invariants *)

(** What a caller sees of the repository through [GetByID]: the object
    behind the pointer stored under an id. *)
Definition view (s : State) (id : string) : option clients.Client :=
  p ← Clients (repo s) !! id; heap s !! p.

(** The registry invariant: every stored pointer is live and points to a
    client carrying the id it is stored under. *)
Definition wf (s : State) : Prop :=
  map_Forall (fun id p => clients.ID <$> heap s !! p = Some id) (Clients (repo s)).



(** A computation that only reads the state. *)
Definition readonly {A} (m : M A) : Prop :=
  ∀ s r s', m s = Some (r, s') → s' = s.

(** The repository's storage works. *)
Definition healthy (s : State) : Prop := ∀ op, Failing (repo s) op = None.

(** The errors [StartClient] builds itself. *)
Definition errClientIDInUse (clientID : string) : error :=
  Errorf "client id %q is already in use" [ArgString clientID].

(** How a requested remote shows up in the tunnel made for it: unchanged when
    its local port was given, completed with a drawn port otherwise. *)
Definition resolvedAs (requested made : chshare.Remote) : Prop :=
  if chshare.IsLocalSpecified requested then made = requested
  else ∃ port, made = chshare.withRandomPort port requested.

(** What tunnel allocation for [client] may change between two states: the
    port distributor, and the tunnel list of [client] itself. *)
Definition tunnelsFrame (client : loc) (s s' : State) : Prop :=
  repo s' = repo s ∧
  length (heap s') = length (heap s) ∧
  (∀ p, p ≠ client → heap s' !! p = heap s !! p) ∧
  (∀ c, heap s !! client = Some c →
        ∃ ts, heap s' !! client = Some (clients.setTunnels ts c)).

(** A connected record is stored under [id]. *)
Definition connected (s : State) (id : string) : Prop :=
  ∃ p c, repo_GetByID id s = Some (Ok (Some p), s) ∧
         heap s !! p = Some c ∧ clients.DisconnectedAt c = None.

(** The errors [checkLocalPort] builds. *)
Definition errInvalidLocalPort (port : string) (err : error) : error :=
  APIError StatusBadRequest (Some (Sprintf "Invalid local port: %s." [ArgString port])) (Some err).
Definition errPortNotAllowed (localPort : Z) : error :=
  APIError StatusBadRequest
    (Some (Sprintf "Local port %d is not among allowed ports." [ArgInt localPort])) None.
Definition errPortBusy (localPort : Z) : error :=
  APIError StatusConflict (Some (Sprintf "Local port %d already in use." [ArgInt localPort])) None.

(** The state after [client.DisconnectedAt = &now]. *)
Definition markDisconnected (client : loc) (c : clients.Client) (now : Z) (s : State) : State :=
  setHeap (<[client := clients.setDisconnectedAt (Some now) c]> (heap s)) s.

(** The state after a successful [client.Close()]. *)
Definition markClosed (client : loc) (c : clients.Client) (s : State) : State :=
  setHeap (<[client := clients.setConnection (clients.closeConn (clients.Connection c)) c]> (heap s)) s.

(** The state after a successful [repo.Delete] of the record under [id]. *)
Definition withoutRecord (id : string) (s : State) : State :=
  setRepo (setClients (delete id (Clients (repo s))) (repo s)) s.

(** ** The rest of the client service *)

Definition StatusForbidden : Z := 403.
Definition StatusNotFound : Z := 404.

(** [strings.Join]. *)
Fixpoint Join (elems : list string) (sep : string) : string :=
  match elems with
  | [] => EmptyString
  | [e] => e
  | e :: rest => e +:+ sep +:+ Join rest sep
  end.

(** The assignment [existing.AllowedUserGroups = allowedUserGroups]. *)
Definition setAllowedUserGroups (v : list string) (c : clients.Client) : clients.Client :=
  {| clients.ID := clients.ID c; clients.Name := clients.Name c; clients.OS := clients.OS c;
     clients.OSArch := clients.OSArch c; clients.OSFamily := clients.OSFamily c;
     clients.OSKernel := clients.OSKernel c; clients.OSFullName := clients.OSFullName c;
     clients.OSVersion := clients.OSVersion c;
     clients.OSVirtualizationSystem := clients.OSVirtualizationSystem c;
     clients.OSVirtualizationRole := clients.OSVirtualizationRole c;
     clients.Hostname := clients.Hostname c; clients.CPUFamily := clients.CPUFamily c;
     clients.CPUModel := clients.CPUModel c; clients.CPUModelName := clients.CPUModelName c;
     clients.CPUVendor := clients.CPUVendor c; clients.NumCPUs := clients.NumCPUs c;
     clients.MemoryTotal := clients.MemoryTotal c; clients.Timezone := clients.Timezone c;
     clients.IPv4 := clients.IPv4 c; clients.IPv6 := clients.IPv6 c;
     clients.Tags := clients.Tags c; clients.Version := clients.Version c;
     clients.Address := clients.Address c; clients.Tunnels := clients.Tunnels c;
     clients.DisconnectedAt := clients.DisconnectedAt c;
     clients.ClientAuthID := clients.ClientAuthID c;
     clients.AllowedUserGroups := v;
     clients.UpdatesStatus := clients.UpdatesStatus c;
     clients.Connection := clients.Connection c;
     clients.Context := clients.Context c; clients.Logger := clients.Logger c |}.

(** The errors of [getExistingByID], [DeleteOffline] and
    [CheckClientsAccess]; a constant message is a format without operands. *)
Definition errClientIDEmpty : error :=
  APIError StatusBadRequest (Some (Sprintf "Client id is empty" [])) None.
Definition errFindClient (clientID : string) (err : error) : error :=
  Errorf "failed to find a client with id=%q: %w" [ArgString clientID; ArgError err].
Definition errClientNotFound (clientID : string) : error :=
  APIError StatusNotFound (Some (Sprintf "Client with id=%q not found." [ArgString clientID])) None.
Definition errClientActive : error :=
  APIError StatusBadRequest (Some (Sprintf "Client is active, should be disconnected" [])) None.
Definition errAccessDenied (clientsWithNoAccess : list string) : error :=
  APIError StatusForbidden
    (Some (Sprintf "Access denied to client(s) with ID(s): %v"
             [ArgString (Join clientsWithNoAccess ", ")]))
    None.

(** getExistingByID returns non-nil client by id. If not found or failed to
    get a client - an error is returned. *)
Definition getExistingByID (clientID : string) : M loc :=
  if String.eqb clientID EmptyString then fail errClientIDEmpty
  else
    existing <- mapErr (errFindClient clientID) (repo_GetByID clientID) ;;
    match existing with
    | None => fail (errClientNotFound clientID)
    | Some p => ret p
    end.

(** [DeleteOffline], lines 415-429. *)
Definition DeleteOffline (clientID : string) : M unit :=
  existing <- getExistingByID clientID ;;
  c <- load existing ;;
  match clients.DisconnectedAt c with
  | None => fail errClientActive
  | Some _ => repo_Delete existing
  end.

(** [SetACL], lines 441-450. *)
Definition SetACL (clientID : string) (allowedUserGroups : list string) : M unit :=
  existing <- getExistingByID clientID ;;
  c <- load existing ;;
  store existing (setAllowedUserGroups allowedUserGroups c) ;;;
  repo_Save existing.

(** [SetUpdatesStatus], lines 452-461. *)
Definition SetUpdatesStatus (clientID : string) (updatesStatus : option string) : M unit :=
  existing <- getExistingByID clientID ;;
  c <- load existing ;;
  store existing (clients.setUpdatesStatus updatesStatus c) ;;;
  repo_Save existing.

(** The loop of [CheckClientsAccess]. *)
Fixpoint collectNoAccess (userGroups : list string) (cs : list loc)
    (clientsWithNoAccess : list string) : M (list string) :=
  match cs with
  | [] => ret clientsWithNoAccess
  | curClient :: rest =>
      c <- load curClient ;;
      collectNoAccess userGroups rest
        (if negb (HasAccess c userGroups)
         then (clientsWithNoAccess ++ [clients.ID c])%list
         else clientsWithNoAccess)
  end.

(** CheckClientsAccess returns nil if a given user has an access to all of
    the given clients. Otherwise, APIError with 403 is returned. *)
Definition CheckClientsAccess (cs : list loc) (user : clients.User) : M unit :=
  if clients.IsAdmin user then ret tt
  else
    clientsWithNoAccess <- collectNoAccess (clients.GetGroups user) cs [] ;;
    if (0 <? length clientsWithNoAccess)%nat
    then fail (errAccessDenied clientsWithNoAccess)
    else ret tt.

(** CheckClientAccess returns nil if a given user has an access to a given
    client. Otherwise, APIError with 403 is returned. *)
Definition CheckClientAccess (clientID : string) (user : clients.User) : M unit :=
  existing <- getExistingByID clientID ;;
  CheckClientsAccess [existing] user.

(** [GetAllByClientID], lines 199-201. *)
Definition GetAllByClientID (clientID : string) : M (list loc) :=
  repo_GetAllByClientAuthID clientID.

(** ** The tables of supported list options (lines 63-120) *)

Definition clientsSupportedFilters : gmap string bool :=
  list_to_map
    [("os_full_name", true); ("os_virtualization_system", true);
     ("os_virtualization_role", true); ("cpu_model_name", true); ("timezone", true);
     ("os_version", true); ("cpu_family", true); ("cpu_model", true); ("num_cpus", true)].

Definition clientsSupportedSorts : gmap string bool :=
  list_to_map
    [("id", true); ("name", true); ("os", true); ("hostname", true); ("version", true)].

Definition clientsSupportedFields : gmap string (gmap string bool) :=
  {[ "clients" :=
       list_to_map
         [("id", true); ("name", true); ("os", true); ("os_arch", true);
          ("os_family", true); ("os_kernel", true); ("hostname", true); ("ipv4", true);
          ("ipv6", true); ("tags", true); ("version", true); ("address", true);
          ("tunnels", true); ("disconnected_at", true); ("connection_state", true);
          ("client_auth_id", true); ("os_full_name", true); ("os_version", true);
          ("os_virtualization_system", true); ("os_virtualization_role", true);
          ("cpu_family", true); ("cpu_model", true); ("cpu_model_name", true);
          ("cpu_vendor", true); ("timezone", true); ("num_cpus", true);
          ("mem_total", true); ("allowed_user_groups", true); ("updates_status", true)] ]}.

Definition clientsListDefaultFields : gmap string (list string) :=
  {[ "fields[clients]" := ["id"; "name"; "hostname"] ]}.

(** Reading a Go [map[string]bool]: a missing key reads as [false]. *)
Definition index (m : gmap string bool) (k : string) : bool :=
  default false (m !! k).

(** The object of the stored client [id] is untouched between two states. *)
Definition sameView (s s' : State) (id : string) : Prop := view s' id = view s id.

(** The shape [SetACL] and [SetUpdatesStatus] share: fetch the existing
    client, assign one field through the pointer, save. *)
Definition assignAndSave (assign : clients.Client -> clients.Client) (clientID : string) : M unit :=
  existing <- getExistingByID clientID ;;
  c <- load existing ;;
  store existing (assign c) ;;;
  repo_Save existing.

(** The state after an assignment through the pointer [p]. *)
Definition assigned (p : loc) (c : clients.Client) (s : State) : State :=
  setHeap (<[p := c]> (heap s)) s.

(** The ids [CheckClientsAccess] collects: the clients that do not grant
    access to any of the user's groups, in the order given. *)
Definition deniedIDs (userGroups : list string) (objs : list clients.Client) : list string :=
  clients.ID <$> List.filter (fun c => negb (HasAccess c userGroups)) objs.

(** The pointers of a list are live and lead to the listed objects. *)
Definition pointTo (s : State) (ps : list loc) (objs : list clients.Client) : Prop :=
  Forall2 (fun p c => heap s !! p = Some c) ps objs.

(** The ids [PopulateGroupsWithUserClients] appends to a group. *)
Definition memberIDs (belongsTo : clients.Client -> cgroups.ClientGroup -> bool)
    (objs : list clients.Client) (g : cgroups.ClientGroup) : list string :=
  clients.ID <$> List.filter (fun c => belongsTo c g) objs.

(** Ascending order of strings, as [sort.Strings] leaves them. *)
Definition ascending (l : list string) : Prop :=
  Sorted (fun a b => String.leb a b = true) l.

#[global] Instance wf_dec (s : State) : Decision (wf s).
Proof. unfold wf. apply _. Defined.

(** ** A small deployment, for concrete runs *)

Module Ex.

Definition remote (localHost localPort remoteHost remotePort : string) : chshare.Remote :=
  {| chshare.LocalHost := localHost; chshare.LocalPort := localPort;
     chshare.RemoteHost := remoteHost; chshare.RemotePort := remotePort;
     chshare.LocalPortRandom := false; chshare.ACL := None |}.

(** [remoteA → localPort=8080] and a second, unrelated remote. *)
Definition remoteA : chshare.Remote := remote "0.0.0.0" "8080" "192.168.1.5" "80".
Definition remoteB : chshare.Remote := remote "0.0.0.0" "20001" "192.168.1.9" "22".
Definition remoteForbidden : chshare.Remote := remote "0.0.0.0" "99" "192.168.1.9" "22".

Definition request (remotes : list chshare.Remote) : chshare.ConnectionRequest :=
  {| chshare.Version := "0.9.12"; chshare.Name := "edge";
     chshare.OS := "Linux"; chshare.OSArch := "amd64"; chshare.OSFamily := "debian";
     chshare.OSKernel := "linux"; chshare.OSFullName := "Debian 11";
     chshare.OSVersion := "11"; chshare.OSVirtualizationSystem := "kvm";
     chshare.OSVirtualizationRole := "guest"; chshare.Hostname := "edge-1";
     chshare.CPUFamily := "6"; chshare.CPUModel := "79"; chshare.CPUModelName := "Xeon";
     chshare.CPUVendor := "Intel"; chshare.NumCPUs := 2; chshare.MemoryTotal := 4096;
     chshare.Timezone := "UTC"; chshare.IPv4 := ["10.0.0.7"]; chshare.IPv6 := [];
     chshare.Tags := []; chshare.Remotes := remotes |}.

Definition conn : clients.Conn :=
  {| clients.RemoteAddr := "10.0.0.7:50311"; clients.Closed := false;
     clients.CloseErr := None |}.

Definition closeFailure : error := ErrorString "use of closed network connection".

Definition brokenConn : clients.Conn :=
  {| clients.RemoteAddr := "10.0.0.7:50311"; clients.Closed := false;
     clients.CloseErr := Some closeFailure |}.

(** Instances of the service's parameters. *)
Definition parseACL (s : string) : result clients.TunnelACL :=
  Ok {| clients.Rules := [s] |}.

Fixpoint beforeColon (s : string) : option string :=
  match s with
  | EmptyString => None
  | String ":" _ => Some EmptyString
  | String c s' => String c <$> beforeColon s'
  end.

Definition splitHostPort (s : string) : result string :=
  match beforeColon s with
  | Some host => Ok host
  | None => Err (ErrorString "missing port in address")
  end.

Definition belongsTo (c : clients.Client) (g : cgroups.ClientGroup) : bool :=
  String.eqb (clients.OS c) (cgroups.ID g).

Definition client (id auth : string) (disconnectedAt : option Z) (connection : clients.Conn)
    (tunnels : list clients.Tunnel) : clients.Client :=
  clients.setDisconnectedAt disconnectedAt
    (clients.setTunnels tunnels
       (newClient 0 auth id connection (request []) 0 "10.0.0.7")).

Definition tunnelA : clients.Tunnel := {| clients.Remote := remoteA; clients.ACL := None |}.

Definition ports : PortDistributor :=
  {| AllowedPorts := {[8080; 20000; 20001]}; BusyPorts := ∅;
     RefreshErr := None; Draws := [] |}.

Definition working : RepoOp -> option error := fun _ => None.

Definition ioFailure : error := ErrorString "database is locked".

Definition usersFail : RepoOp -> option error :=
  fun op => match op with OpGetUserClients => Some ioFailure | _ => None end.

Definition state (objects : list clients.Client) (stored : gmap string nat)
    (keep : option Z) (failing : RepoOp -> option error) : State :=
  {| heap := objects;
     repo := {| Clients := stored; KeepLostClients := keep; Failing := failing |};
     portDistributor := ports |}.

(** Nobody registered yet. *)
Definition sEmpty : State := state [] ∅ (Some 3600) working.
(** [c1] connected, holding [auth1] and tunnel A. *)
Definition sLive : State :=
  state [client "c1" "auth1" None conn [tunnelA]] {["c1" := 0%nat]} (Some 3600) working.
(** [c1] disconnected at time 100, its record retained. *)
Definition sLost : State :=
  state [client "c1" "auth1" (Some 100) conn [tunnelA]] {["c1" := 0%nat]} (Some 3600) working.
(** [c1] connected, no retention. *)
Definition sNoKeep : State :=
  state [client "c1" "auth1" None conn [tunnelA]] {["c1" := 0%nat]} None working.
(** [c1] connected over a connection whose [Close] fails. *)
Definition sBroken : State :=
  state [client "c1" "auth1" None brokenConn [tunnelA]] {["c1" := 0%nat]} (Some 3600) working.
(** The object of [c1] is still around but its record has been deleted. *)
Definition sGone : State :=
  state [client "c1" "auth1" None conn [tunnelA]] ∅ (Some 3600) working.
(** As [sLive], with a repository that cannot list a user's clients. *)
Definition sUsersFail : State :=
  state [client "c1" "auth1" None conn [tunnelA]] {["c1" := 0%nat]} (Some 3600) usersFail.

Definition operator : clients.User := {| clients.IsAdmin := true; clients.GetGroups := [] |}.
Definition linuxGroup : cgroups.ClientGroup :=
  {| cgroups.ID := "Linux"; cgroups.ClientIDs := ["c9"; "c3"] |}.

End Ex.

(** ** Package [strings] *)

Definition isLower (c : ascii) : bool :=
  let n := N_of_ascii c in ((97 <=? n) && (n <=? 122))%N.

Definition upperByte (c : ascii) : ascii :=
  if isLower c then ascii_of_N (N_of_ascii c - 32) else c.

Fixpoint mapBytes (f : ascii -> ascii) (s : string) : string :=
  match s with
  | EmptyString => EmptyString
  | String c s' => String (f c) (mapBytes f s')
  end.

Fixpoint isASCII (s : string) : bool :=
  match s with
  | EmptyString => true
  | String c s' => (N_of_ascii c <? 128)%N && isASCII s'
  end.

(** [strings.HasPrefix]. *)
Definition HasPrefix (s prefix : string) : bool := String.prefix prefix s.

(** [strings.Contains]. *)
Fixpoint Contains (s substr : string) : bool :=
  String.prefix substr s ||
  match s with
  | EmptyString => false
  | String _ s' => Contains s' substr
  end.

Fixpoint dropBytes (n : nat) (s : string) : string :=
  match n, s with
  | O, _ => s
  | S n', String _ s' => dropBytes n' s'
  | S _, EmptyString => EmptyString
  end.

(** [strings.Replace(s, old, new, 1)]: the first occurrence of [old], if
    there is one, gives way to [new]. *)
Fixpoint replaceFirst (s old new : string) : string :=
  if String.prefix old s then new +:+ dropBytes (String.length old) s
  else match s with
       | EmptyString => EmptyString
       | String c s' => String c (replaceFirst s' old new)
       end.

Definition Replace1 (s old new : string) : string :=
  if String.eqb old new then s else replaceFirst s old new.

(** The number of occurrences of one character. *)
Fixpoint countByte (c : ascii) (s : string) : nat :=
  match s with
  | EmptyString => 0
  | String c' s' => (if Ascii.eqb c' c then 1 else 0) + countByte c s'
  end.

(** ** Package [query]: list options into SQL *)

Module query.

(** A value passed as [interface{}]: a text or a number. *)
Inductive any : Type :=
| AnyString (s : string)
| AnyInt (n : Z).

(** A filter operator, as far as the query needs it: what its [Code()]
    returns. *)
Module Operator.
Record t : Type := { Code : string }.
End Operator.

Module FilterOption.
Record t : Type := {
  Column : string;
  Operator : Operator.t;
  Values : list string
}.
End FilterOption.

Module SortOption.
Record t : Type := {
  Column : string;
  IsASC : bool
}.
End SortOption.

Module FieldsOption.
Record t : Type := {
  Resource : string;
  Fields : list string
}.
End FieldsOption.

Module Pagination.
Record t : Type := {
  Limit : any;
  Offset : any
}.
End Pagination.

Module ListOptions.
Record t : Type := {
  Sorts : list SortOption.t;
  Filters : list FilterOption.t;
  Fields : list FieldsOption.t;
  Pagination : option Pagination.t          (* *Pagination *)
}.
End ListOptions.

Module RetrieveOptions.
Record t : Type := {
  Fields : list FieldsOption.t
}.
End RetrieveOptions.

Section Query.

(** What the package uses and does not define here: the test for limit
    filters, and the branch of [strings.ToUpper] for text that is not
    ASCII ([Map(unicode.ToUpper, s)]). *)
Variable IsLimitFilter : FilterOption.t -> bool.
Variable unicodeToUpper : string -> string.

(** [strings.ToUpper]: ASCII text is changed byte by byte. *)
Definition ToUpper (s : string) : string :=
  if isASCII s then mapBytes upperByte s else unicodeToUpper s.

(** [fmt.Sprintf("%s %s ?", column, operator.Code())]. *)
Definition condition (fo : FilterOption.t) : string :=
  FilterOption.Column fo +:+ " " +:+ Operator.Code (FilterOption.Operator fo) +:+ " ?".

(** The inner loop of [addWhere], over the values of one filter. *)
Fixpoint orLoop (fo : FilterOption.t) (values : list string)
    (orParts : list string) (params : list any) : list string * list any :=
  match values with
  | [] => (orParts, params)
  | v :: rest => orLoop fo rest (orParts ++ [condition fo]) (params ++ [AnyString v])
  end.

(** The outer loop of [addWhere]. *)
Fixpoint whereLoop (filterOptions : list FilterOption.t)
    (whereParts : list string) (params : list any) : list string * list any :=
  match filterOptions with
  | [] => (whereParts, params)
  | fo :: rest =>
      if IsLimitFilter fo then whereLoop rest whereParts params
      else
        match FilterOption.Values fo with
        | [v] => whereLoop rest (whereParts ++ [condition fo]) (params ++ [AnyString v])
        | values =>
            let '(orParts, params') := orLoop fo values [] params in
            whereLoop rest (whereParts ++ ["(" +:+ Join orParts " OR " +:+ ")"]) params'
        end
  end.

Definition addWhere (filterOptions : list FilterOption.t) (q : string) (params : list any)
    : string * list any :=
  match filterOptions with
  | [] => (q, params)
  | _ =>
      let '(whereParts, params') := whereLoop filterOptions [] params in
      let concat := if Contains (ToUpper q) " WHERE " then " AND " else " WHERE " in
      (q +:+ concat +:+ Join whereParts " AND ", params')
  end.

(** The loop of [addLimit]; [None] is the panic of [fo.Values[0]] on a
    filter without values. *)
Fixpoint limitLoop (filterOptions : list FilterOption.t) (limit : string) : option string :=
  match filterOptions with
  | [] => Some limit
  | fo :: rest =>
      if negb (IsLimitFilter fo) then limitLoop rest limit
      else
        match FilterOption.Values fo with
        | [] => None
        | v :: _ => limitLoop rest (limit +:+ (" LIMIT " +:+ v))
        end
  end.

Definition addLimit (filterOptions : list FilterOption.t) (q : string) : option string :=
  limit ← limitLoop filterOptions EmptyString; Some (q +:+ limit).

Definition orderByValue (so : SortOption.t) : string :=
  SortOption.Column so +:+ " " +:+ (if negb (SortOption.IsASC so) then "DESC" else "ASC").

Definition addOrderBy (sortOptions : list SortOption.t) (q : string) : string :=
  match sortOptions with
  | [] => q
  | _ =>
      let orderByValues := orderByValue <$> sortOptions in
      if (0 <? length orderByValues)%nat
      then q +:+ " ORDER BY " +:+ Join orderByValues ", "
      else q
  end.

(** The two loops of [ReplaceStarSelect]. *)
Definition selectedFields (fieldOptions : list FieldsOption.t) : list string :=
  fo ← fieldOptions;
  (fun field => FieldsOption.Resource fo +:+ "." +:+ field) <$> FieldsOption.Fields fo.

Definition ReplaceStarSelect (fieldOptions : list FieldsOption.t) (q : string) : string :=
  if negb (HasPrefix (ToUpper q) "SELECT * ") then q
  else
    match fieldOptions with
    | [] => q
    | _ => Replace1 q "*" (Join (selectedFields fieldOptions) ", ")
    end.

Definition addLimitOffset (pagination : option Pagination.t) (q : string) (params : list any)
    : string * list any :=
  match pagination with
  | None => (q, params)
  | Some p => (q +:+ " LIMIT ? OFFSET ?", (params ++ [Pagination.Limit p; Pagination.Offset p])%list)
  end.

Definition AppendOptionsToQuery (o : ListOptions.t) (q : string) (params : list any)
    : string * list any :=
  let '(q, params) := addWhere (ListOptions.Filters o) q params in
  let q := addOrderBy (ListOptions.Sorts o) q in
  let q := ReplaceStarSelect (ListOptions.Fields o) q in
  addLimitOffset (ListOptions.Pagination o) q params.

Definition ConvertListOptionsToQuery (lo : ListOptions.t) (q : string) : string * list any :=
  AppendOptionsToQuery lo q [].

Definition ConvertRetrieveOptionsToQuery (ro : RetrieveOptions.t) (q : string) : string :=
  ReplaceStarSelect (RetrieveOptions.Fields ro) q.

(** The filters that enter the where clause: those that are no limit
    filters. *)
Definition enters (fo : FilterOption.t) : bool := negb (IsLimitFilter fo).

(** The values [addWhere] binds: those of the filters that enter, in
    order. *)
Definition boundValues (filterOptions : list FilterOption.t) : list any :=
  fo ← List.filter enters filterOptions;
  AnyString <$> FilterOption.Values fo.

(** The text one filter contributes to the where clause. *)
Definition wherePart (fo : FilterOption.t) : string :=
  match FilterOption.Values fo with
  | [_] => condition fo
  | values => "(" +:+ Join (repeat (condition fo) (length values)) " OR " +:+ ")"
  end.

(** What [addLimitOffset] binds. *)
Definition pageValues (pagination : option Pagination.t) : list any :=
  match pagination with
  | None => []
  | Some p => [Pagination.Limit p; Pagination.Offset p]
  end.

(** [kw] reads [SELECT ] in some letter case. *)
Definition selectKeyword (kw : string) : Prop := mapBytes upperByte kw = "SELECT ".

(** Two filters that differ at most in the values they carry, not in how
    many. *)
Definition sameShape (a b : FilterOption.t) : Prop :=
  FilterOption.Column a = FilterOption.Column b ∧
  FilterOption.Operator a = FilterOption.Operator b ∧
  length (FilterOption.Values a) = length (FilterOption.Values b) ∧
  IsLimitFilter a = IsLimitFilter b.

(** No question mark in the column or the operator of a filter that enters
    the where clause. *)
Definition plainFilter (fo : FilterOption.t) : Prop :=
  IsLimitFilter fo = false →
  countByte "?" (FilterOption.Column fo) = 0%nat ∧
  countByte "?" (Operator.Code (FilterOption.Operator fo)) = 0%nat.

Definition plainSort (so : SortOption.t) : Prop :=
  countByte "?" (SortOption.Column so) = 0%nat.

Definition plainFields (fo : FieldsOption.t) : Prop :=
  countByte "?" (FieldsOption.Resource fo) = 0%nat ∧
  Forall (fun field => countByte "?" field = 0%nat) (FieldsOption.Fields fo).

End Query.

End query.

(** ** The operations that only pass a repository call on (lines 151-209) *)

Section PassThrough.

(** The repository's counters and the lookups the service hands out as they
  come; their source is missing and the service does not look at what
  they return. *)
Variable repo_Count repo_CountActive repo_CountDisconnected : M Z.
Variable repo_GetActiveByID : string -> M (option loc).
Variable repo_GetAll : M (list loc).
Variable repo_GetUserClientsFiltered :
clients.User -> list query.FilterOption.t -> M (list loc).

Definition Count : M Z := repo_Count.

Definition CountActive : M Z := repo_CountActive.

Definition CountDisconnected : M Z := repo_CountDisconnected.

Definition GetActiveByID (id : string) : M (option loc) := repo_GetActiveByID id.

Definition GetAll : M (list loc) := repo_GetAll.

Definition GetUserClients (user : clients.User) (filterOptions : list query.FilterOption.t)
  : M (list loc) :=
repo_GetUserClientsFiltered user filterOptions.

End PassThrough.

(** ** How an error travels *)

(** An error that [callee] returns when it runs in the state [reached] comes
    out of [caller], started in the state [from], as [wrap] of that error
    and with the state [callee] left. *)
Definition surfacesAs {A B} (wrap : error -> error)
    (callee : M A) (reached : State) (caller : M B) (from : State) : Prop :=
  ∀ e s', callee reached = Some (Err e, s') → caller from = Some (Err (wrap e), s').

(** The same, with the error as it is. *)
Definition surfaces {A B} (callee : M A) (reached : State) (caller : M B) (from : State) : Prop :=
  surfacesAs (fun e => e) callee reached caller from.

(** The errors [StartClient] builds for a failing lookup and a failing
    address. *)
Definition errGetClient (clientID : string) : error :=
  Errorf "failed to get client by id %q" [ArgString clientID].
Definition errGetHost (clientAddr : string) (err : error) : error :=
  Errorf "failed to get host for address %q: %v" [ArgString clientAddr; ArgError err].

(** ** More of the deployment: users, and list options *)

Module Ex2.

(** A user who is no admin and is in one group. *)
Definition auditor : clients.User :=
{| clients.IsAdmin := false; clients.GetGroups := ["audit"] |}.

(** [c1] as in [Ex.sLost], open to the group [staff] only. *)
Definition restricted : clients.Client :=
setAllowedUserGroups ["staff"] (Ex.client "c1" "auth1" (Some 100) Ex.conn [Ex.tunnelA]).

Definition sRestricted : State :=
Ex.state [restricted] {["c1" := 0%nat]} (Some 3600) Ex.working.

(** As [Ex.sLive], with a repository that cannot look up an id. *)
Definition lookupFails : RepoOp -> option error :=
fun op => match op with OpGetByID => Some Ex.ioFailure | _ => None end.

Definition sLookupFails : State :=
Ex.state [Ex.client "c1" "auth1" None Ex.conn [Ex.tunnelA]] {["c1" := 0%nat]} (Some 3600)
  lookupFails.

(** Repositories that cannot save, and that cannot delete. *)
Definition saveFails : RepoOp -> option error :=
fun op => match op with OpSave => Some Ex.ioFailure | _ => None end.

Definition deleteFails : RepoOp -> option error :=
fun op => match op with OpDelete => Some Ex.ioFailure | _ => None end.

(** As [Ex.sLive], on a repository that cannot save. *)
Definition sSaveFails : State :=
Ex.state [Ex.client "c1" "auth1" None Ex.conn [Ex.tunnelA]] {["c1" := 0%nat]} (Some 3600)
  saveFails.

(** As [Ex.sLost] and as [Ex.sLive], on a repository that cannot delete. *)
Definition sLostDeleteFails : State :=
Ex.state [Ex.client "c1" "auth1" (Some 100) Ex.conn [Ex.tunnelA]] {["c1" := 0%nat]}
  (Some 3600) deleteFails.

Definition sLiveDeleteFails : State :=
Ex.state [Ex.client "c1" "auth1" None Ex.conn [Ex.tunnelA]] {["c1" := 0%nat]} (Some 3600)
  deleteFails.

(** As [Ex.sLive], with port 8080 as the only allowed port: the tunnel of
  [c1] holds it. *)
Definition sFull : State :=
setPortDistributor
  {| AllowedPorts := {[8080]}; BusyPorts := ∅; RefreshErr := None; Draws := [] |}
  Ex.sLive.

(** A remote that leaves the local port to the server. *)
Definition remoteAny : chshare.Remote := Ex.remote "" "" "192.168.1.9" "22".

(** Counters of a repository that cannot count, and lookups that find
  nothing. *)
Definition noCount : M Z := fail Ex.ioFailure.
Definition noActive (id : string) : M (option loc) := ret None.
Definition noClients : M (list loc) := ret [].
Definition noUserClients (user : clients.User) (filterOptions : list query.FilterOption.t)
  : M (list loc) := ret [].

(** List options: a limit filter is taken to be one on the column [limit]. *)
Definition isLimitFilter (fo : query.FilterOption.t) : bool :=
String.eqb (query.FilterOption.Column fo) "limit".

Definition unicodeToUpper (s : string) : string := s.

Definition equals : query.Operator.t := {| query.Operator.Code := "=" |}.

Definition filterOn (column : string) (values : list string) : query.FilterOption.t :=
{| query.FilterOption.Column := column; query.FilterOption.Operator := equals;
   query.FilterOption.Values := values |}.

Definition options : query.ListOptions.t :=
{| query.ListOptions.Sorts :=
     [{| query.SortOption.Column := "name"; query.SortOption.IsASC := false |}];
   query.ListOptions.Filters := [filterOn "os" ["linux"; "bsd"]; filterOn "limit" ["5"];
                                 filterOn "name" ["edge"]];
   query.ListOptions.Fields :=
     [{| query.FieldsOption.Resource := "clients";
         query.FieldsOption.Fields := ["id"; "name"] |}];
   query.ListOptions.Pagination :=
     Some {| query.Pagination.Limit := query.AnyString "10";
             query.Pagination.Offset := query.AnyString "20" |} |}.

End Ex2.

(** * Verification *)

Local Open Scope list_scope.

(** ** strconv *)

Example Atoi_8080 : Atoi "8080" = Ok 8080.
Proof. reflexivity. Qed.
Example Atoi_plus : Atoi "+22" = Ok 22.
Proof. reflexivity. Qed.
Example Atoi_letter : Atoi "80a" = Err (NumError "Atoi" "80a" ErrSyntax).
Proof. reflexivity. Qed.
Example Atoi_empty : Atoi EmptyString = Err (NumError "Atoi" EmptyString ErrSyntax).
Proof. reflexivity. Qed.
Example Atoi_sign_only : Atoi "-" = Err (NumError "Atoi" "-" ErrSyntax).
Proof. reflexivity. Qed.
Example Atoi_range :
  Atoi "9223372036854775808" = Err (NumError "Atoi" "9223372036854775808" ErrRange).
Proof. reflexivity. Qed.
Example Itoa_20000 : Itoa 20000 = "20000".
Proof. reflexivity. Qed.
Example Atoi_min : Atoi "-9223372036854775808" = Ok (- 2 ^ 63).
Proof. reflexivity. Qed.
Example Atoi_range_first :
  Atoi "99999999999999999999x" = Err (NumError "Atoi" "99999999999999999999x" ErrRange).
Proof. reflexivity. Qed.
Example Atoi_underscore : Atoi "8_080" = Err (NumError "Atoi" "8_080" ErrSyntax).
Proof. reflexivity. Qed.

(** ** The monad *)

Lemma bind_ok {A B} (m : M A) (k : A -> M B) s a s1 :
  m s = Some (Ok a, s1) → bind m k s = k a s1.
Proof. intros H. unfold bind. by rewrite H. Qed.

Lemma bind_err {A B} (m : M A) (k : A -> M B) s e s1 :
  m s = Some (Err e, s1) → bind m k s = Some (Err e, s1).
Proof. intros H. unfold bind. by rewrite H. Qed.

Lemma bind_inv {A B} (m : M A) (k : A -> M B) s r s' :
  bind m k s = Some (r, s') →
  (∃ a s1, m s = Some (Ok a, s1) ∧ k a s1 = Some (r, s')) ∨
  (∃ e, m s = Some (Err e, s') ∧ r = Err e).
Proof.
  unfold bind. destruct (m s) as [[[a|e] s1]|] eqn:E; intros H.
  - left. eauto.
  - right. inversion H; subst. eauto.
  - discriminate.
Qed.

Lemma bind_inv_ok {A B} (m : M A) (k : A -> M B) s b s' :
  bind m k s = Some (Ok b, s') →
  ∃ a s1, m s = Some (Ok a, s1) ∧ k a s1 = Some (Ok b, s').
Proof.
  intros H. apply bind_inv in H as [H|(e & _ & H)]; [done | discriminate].
Qed.

Lemma mapErr_ok {A} f (m : M A) s a s1 :
  m s = Some (Ok a, s1) → mapErr f m s = Some (Ok a, s1).
Proof. intros H. unfold mapErr. by rewrite H. Qed.

Lemma mapErr_err {A} f (m : M A) s e s1 :
  m s = Some (Err e, s1) → mapErr f m s = Some (Err (f e), s1).
Proof. intros H. unfold mapErr. by rewrite H. Qed.

Lemma mapErr_inv {A} f (m : M A) s r s' :
  mapErr f m s = Some (r, s') →
  ∃ r0, m s = Some (r0, s') ∧
        r = match r0 with Ok a => Ok a | Err e => Err (f e) end.
Proof.
  unfold mapErr. destruct (m s) as [[[a|e] s1]|] eqn:E; intros H;
    simplify_eq; eauto.
Qed.

(** ** Computations that only read *)

Lemma readonly_ret {A} (a : A) : readonly (ret a).
Proof. intros s r s' H. by inversion H. Qed.

Lemma readonly_fail {A} e : readonly (@fail A e).
Proof. intros s r s' H. by inversion H. Qed.

Lemma readonly_gets {A} (f : State -> A) : readonly (gets f).
Proof. intros s r s' H. by inversion H. Qed.

Lemma readonly_liftErr e : readonly (liftErr e).
Proof. destruct e; [apply readonly_fail | apply readonly_ret]. Qed.

Lemma readonly_load p : readonly (load p).
Proof. intros s r s'. unfold load. destruct (heap s !! p); intros H; by inversion H. Qed.

Lemma readonly_bind {A B} (m : M A) (k : A -> M B) :
  readonly m → (∀ a, readonly (k a)) → readonly (bind m k).
Proof.
  intros Hm Hk s r s' H. apply bind_inv in H as [(a & s1 & H1 & H2)|(e & H1 & _)].
  - apply Hm in H1 as ->. by apply Hk in H2.
  - by apply Hm in H1.
Qed.

Lemma readonly_mapErr {A} f (m : M A) : readonly m → readonly (mapErr f m).
Proof. intros Hm s r s' H. apply mapErr_inv in H as (r0 & H & _). by apply Hm in H. Qed.

Lemma readonly_getRecords : readonly getRecords.
Proof. intros s r s'. unfold getRecords. destruct (records s); intros H; by inversion H. Qed.

Lemma readonly_storage op : readonly (storage op).
Proof. apply readonly_bind; [apply readonly_gets | intros; apply readonly_liftErr]. Qed.

Lemma readonly_repo_GetByID id : readonly (repo_GetByID id).
Proof. apply readonly_bind; [apply readonly_storage | intros; apply readonly_gets]. Qed.

Lemma readonly_repo_GetAllByClientAuthID a : readonly (repo_GetAllByClientAuthID a).
Proof. apply readonly_bind; [apply readonly_getRecords | intros; apply readonly_ret]. Qed.

Lemma readonly_anyOtherID clientID found : readonly (anyOtherID clientID found).
Proof.
  induction found as [|p rest IH]; simpl; [apply readonly_ret|].
  apply readonly_bind; [apply readonly_load|]. intros c.
  destruct (negb _); [apply readonly_ret | apply IH].
Qed.

Lemma readonly_isClientAuthIDInUse a id : readonly (isClientAuthIDInUse a id).
Proof.
  apply readonly_bind; [apply readonly_repo_GetAllByClientAuthID|].
  intros; apply readonly_anyOtherID.
Qed.

Lemma readonly_checkAuthID multi a id : readonly (checkAuthID multi a id).
Proof.
  unfold checkAuthID. destruct multi; [apply readonly_ret|].
  apply readonly_bind; [apply readonly_isClientAuthIDInUse|].
  intros []; [apply readonly_fail | apply readonly_ret].
Qed.

Lemma readonly_checkLocalPort port : readonly (checkLocalPort port).
Proof.
  apply readonly_bind; [apply readonly_gets|]. intros d.
  destruct (Atoi port); [|apply readonly_fail].
  destruct (negb _); [apply readonly_fail|].
  destruct (IsPortBusy _ _); [apply readonly_fail | apply readonly_ret].
Qed.

(** ** Frame of tunnel allocation *)

Lemma setTunnels_id c : clients.setTunnels (clients.Tunnels c) c = c.
Proof. by destruct c. Qed.

Lemma setTunnels_setTunnels ts ts' c :
  clients.setTunnels ts' (clients.setTunnels ts c) = clients.setTunnels ts' c.
Proof. done. Qed.

Lemma tunnelsFrame_refl client s : tunnelsFrame client s s.
Proof.
  repeat split; auto. intros c Hc. exists (clients.Tunnels c). by rewrite setTunnels_id.
Qed.

Lemma tunnelsFrame_trans client s1 s2 s3 :
  tunnelsFrame client s1 s2 → tunnelsFrame client s2 s3 → tunnelsFrame client s1 s3.
Proof.
  intros (R1 & L1 & O1 & C1) (R2 & L2 & O2 & C2). repeat split.
  - congruence.
  - congruence.
  - intros p Hp. rewrite O2, O1; auto.
  - intros c Hc. destruct (C1 c Hc) as [ts Hts]. destruct (C2 _ Hts) as [ts' Hts'].
    exists ts'. by rewrite Hts', setTunnels_setTunnels.
Qed.

Lemma tunnelsFrame_portDistributor client d s :
  tunnelsFrame client s (setPortDistributor d s).
Proof.
  repeat split; auto. intros c Hc. exists (clients.Tunnels c). by rewrite setTunnels_id.
Qed.

Lemma readonly_frame {A} (m : M A) client s r s' :
  readonly m → m s = Some (r, s') → tunnelsFrame client s s'.
Proof. intros Hm H. apply Hm in H as ->. apply tunnelsFrame_refl. Qed.

Lemma Refresh_frame client s r s' :
  Refresh s = Some (r, s') → tunnelsFrame client s s'.
Proof.
  unfold Refresh, bind, gets, liftErr, getRecords, modify, fail, ret.
  destruct (RefreshErr _); [intros H; inversion H; apply tunnelsFrame_refl|].
  destruct (records s); intros H; inversion H. apply tunnelsFrame_portDistributor.
Qed.

Lemma GetRandomPort_frame client s r s' :
  GetRandomPort s = Some (r, s') → tunnelsFrame client s s'.
Proof.
  unfold GetRandomPort, bind, gets, modify, fail, ret.
  destruct (freePorts _); intros H; inversion H.
  - apply tunnelsFrame_refl.
  - apply tunnelsFrame_portDistributor.
Qed.

Lemma Client_StartTunnel_frame client remote acl s r s' :
  Client_StartTunnel client remote acl s = Some (r, s') → tunnelsFrame client s s'.
Proof.
  unfold Client_StartTunnel, bind, load, store, fail, ret.
  destruct (heap s !! client) as [c|] eqn:Hc; [|done].
  destruct (holdsLocalPort _ _); [intros H; inversion H; apply tunnelsFrame_refl|].
  rewrite Hc. intros H; inversion H; subst; clear H.
  repeat split; simpl.
  - by rewrite length_insert.
  - intros p Hp. by rewrite list_lookup_insert_ne.
  - intros c0 Hc0. simplify_eq. eexists.
    rewrite list_lookup_insert_eq; [done|]. by eapply lookup_lt_Some.
Qed.

Section Verification.

Variable ParseTunnelACL : string -> result clients.TunnelACL.
Variable SplitHostPort : string -> result string.
Variable BelongsTo : clients.Client -> cgroups.ClientGroup -> bool.

Lemma readonly_clientHostOf conn : readonly (clientHostOf SplitHostPort conn).
Proof.
  unfold clientHostOf. destruct (SplitHostPort _); [apply readonly_ret | apply readonly_fail].
Qed.

Lemma readonly_lookupOld id req : readonly (lookupOld id req).
Proof.
  apply readonly_bind; [apply readonly_mapErr, readonly_repo_GetByID|].
  intros [p|]; [|apply readonly_ret].
  apply readonly_bind; [apply readonly_load|]. intros old.
  destruct (clients.DisconnectedAt old); [|apply readonly_fail].
  cbv zeta. destruct (Nat.ltb _ _); apply readonly_ret.
Qed.

Lemma readonly_parseACL remote : readonly (parseACL ParseTunnelACL remote).
Proof.
  unfold parseACL. destruct (chshare.ACL remote); [|apply readonly_ret].
  destruct (ParseTunnelACL _); [apply readonly_ret | apply readonly_fail].
Qed.

Lemma resolveLocal_frame client remote s r s' :
  resolveLocal remote s = Some (r, s') → tunnelsFrame client s s'.
Proof.
  unfold resolveLocal. destruct (negb _); intros H.
  - apply bind_inv in H as [(a & s1 & H1 & H2)|(e & H1 & _)].
    + inversion H2; subst. by eapply GetRandomPort_frame.
    + by eapply GetRandomPort_frame.
  - eapply readonly_frame; [|exact H].
    apply readonly_bind; [apply readonly_checkLocalPort | intros; apply readonly_ret].
Qed.

Lemma startTunnelsLoop_frame client remotes tunnels s r s' :
  startTunnelsLoop ParseTunnelACL client remotes tunnels s = Some (r, s') →
  tunnelsFrame client s s'.
Proof.
  revert tunnels s. induction remotes as [|remote rest IH]; intros tunnels s H; simpl in H.
  - inversion H. apply tunnelsFrame_refl.
  - apply bind_inv in H as [(r1 & s1 & H1 & H)|(e & H1 & _)];
      [|by eapply resolveLocal_frame].
    apply (resolveLocal_frame client) in H1.
    eapply tunnelsFrame_trans; [exact H1|].
    apply bind_inv in H as [(acl & s2 & H2 & H)|(e & H2 & _)];
      [|by eapply readonly_frame; [apply readonly_parseACL|]].
    apply readonly_parseACL in H2 as ->.
    apply bind_inv in H as [(t & s3 & H3 & H)|(e & H3 & _)].
    + apply mapErr_inv in H3 as (r0 & H3 & _).
      eapply tunnelsFrame_trans; [by eapply Client_StartTunnel_frame|by eapply IH].
    + apply mapErr_inv in H3 as (r0 & H3 & _). by eapply Client_StartTunnel_frame.
Qed.

Lemma startClientTunnels_frame client remotes s r s' :
  startClientTunnels ParseTunnelACL client remotes s = Some (r, s') →
  tunnelsFrame client s s'.
Proof.
  unfold startClientTunnels. intros H.
  apply bind_inv in H as [(a & s1 & H1 & H)|(e & H1 & _)]; [|by eapply Refresh_frame].
  eapply tunnelsFrame_trans; [by eapply Refresh_frame | by eapply startTunnelsLoop_frame].
Qed.

(** ** [StartClient], step by step *)

Lemma StartClient_run ctx a id conn multi req clog s old remotes host :
  lookupOld id req s = Some (Ok (old, remotes), s) →
  checkAuthID multi a id s = Some (Ok tt, s) →
  SplitHostPort (clients.RemoteAddr conn) = Ok host →
  StartClient ParseTunnelACL SplitHostPort ctx a id conn multi req clog s =
  (startClientTunnels ParseTunnelACL (length (heap s)) remotes ;;;
   repo_Save (length (heap s)) ;;;
   ret (length (heap s)))
    (setHeap (heap s ++ [carryOver old (newClient ctx a id conn req clog host)]) s).
Proof.
  intros H1 H2 H3. unfold StartClient.
  rewrite (bind_ok _ _ _ _ _ H1). rewrite (bind_ok _ _ _ _ _ H2).
  unfold clientHostOf. rewrite H3. reflexivity.
Qed.

Lemma StartClient_inv ctx a id conn multi req clog s r s' :
  StartClient ParseTunnelACL SplitHostPort ctx a id conn multi req clog s = Some (r, s') →
  (∃ e, lookupOld id req s = Some (Err e, s) ∧ r = Err e ∧ s' = s) ∨
  (∃ old remotes, lookupOld id req s = Some (Ok (old, remotes), s) ∧
     ((∃ e, checkAuthID multi a id s = Some (Err e, s) ∧ r = Err e ∧ s' = s) ∨
      (checkAuthID multi a id s = Some (Ok tt, s) ∧
       ((∃ e, clientHostOf SplitHostPort conn s = Some (Err e, s) ∧ r = Err e ∧ s' = s) ∨
        (∃ host, SplitHostPort (clients.RemoteAddr conn) = Ok host ∧
           (startClientTunnels ParseTunnelACL (length (heap s)) remotes ;;;
            repo_Save (length (heap s)) ;;;
            ret (length (heap s)))
             (setHeap (heap s ++ [carryOver old (newClient ctx a id conn req clog host)]) s)
           = Some (r, s')))))).
Proof.
  intros H. unfold StartClient in H.
  apply bind_inv in H as [([old remotes] & s1 & H1 & H)|(e & H1 & ->)].
  2:{ left. pose proof (readonly_lookupOld _ _ _ _ _ H1) as ->. eauto. }
  pose proof (readonly_lookupOld _ _ _ _ _ H1) as ->.
  right. exists old, remotes. split; [done|].
  apply bind_inv in H as [([] & s2 & H2 & H)|(e & H2 & ->)].
  2:{ left. pose proof (readonly_checkAuthID _ _ _ _ _ _ H2) as ->. eauto. }
  pose proof (readonly_checkAuthID _ _ _ _ _ _ H2) as ->.
  right. split; [done|].
  apply bind_inv in H as [(host & s3 & H3 & H)|(e & H3 & ->)].
  2:{ left. pose proof (readonly_clientHostOf _ _ _ _ H3) as ->. eauto. }
  pose proof (readonly_clientHostOf _ _ _ _ H3) as ->.
  right. exists host. split; [|exact H].
  unfold clientHostOf in H3. destruct (SplitHostPort _); inversion H3; done.
Qed.

(** ** The repository *)

Lemma repo_GetByID_run id s :
  repo_GetByID id s =
  match Failing (repo s) OpGetByID with
  | Some e => Some (Err e, s)
  | None => Some (Ok (Clients (repo s) !! id), s)
  end.
Proof.
  unfold repo_GetByID, storage, bind, gets, liftErr, fail, ret.
  by destruct (Failing _ _).
Qed.

Lemma repo_GetByID_ok id s o s' :
  repo_GetByID id s = Some (Ok o, s') →
  Failing (repo s) OpGetByID = None ∧ o = Clients (repo s) !! id ∧ s' = s.
Proof.
  rewrite repo_GetByID_run. destruct (Failing _ _); intros H; by inversion H.
Qed.

Lemma repo_Save_run client c s :
  heap s !! client = Some c →
  repo_Save client s =
  match Failing (repo s) OpSave with
  | Some e => Some (Err e, s)
  | None =>
      Some (Ok tt, setRepo (setClients (<[clients.ID c := client]> (Clients (repo s))) (repo s)) s)
  end.
Proof.
  intros Hc. unfold repo_Save, storage, bind, load, gets, liftErr, fail, ret, modify.
  rewrite Hc. by destruct (Failing _ _).
Qed.

Lemma repo_Delete_run client c s :
  heap s !! client = Some c →
  repo_Delete client s =
  match Failing (repo s) OpDelete with
  | Some e => Some (Err e, s)
  | None =>
      Some (Ok tt, setRepo (setClients (delete (clients.ID c) (Clients (repo s))) (repo s)) s)
  end.
Proof.
  intros Hc. unfold repo_Delete, storage, bind, load, gets, liftErr, fail, ret, modify.
  rewrite Hc. by destruct (Failing _ _).
Qed.

(** ** Registration under an id in use *)

Lemma lookupOld_connected id req s :
  connected s id → lookupOld id req s = Some (Err (errClientIDInUse id), s).
Proof.
  intros (p & c & Hget & Hc & Hd). unfold lookupOld.
  rewrite (bind_ok _ _ _ _ _ (mapErr_ok _ _ _ _ _ Hget)).
  unfold bind, load. rewrite Hc, Hd. reflexivity.
Qed.

Lemma lookupOld_ok id req s x s' :
  lookupOld id req s = Some (Ok x, s') → Failing (repo s) OpGetByID = None.
Proof.
  unfold lookupOld. intros H. apply bind_inv_ok in H as (o & s1 & H & _).
  apply mapErr_inv in H as ([o'|e] & H & ?); [|done].
  by apply repo_GetByID_ok in H as (? & _).
Qed.

Lemma carryOver_ID old c : clients.ID (carryOver old c) = clients.ID c.
Proof. by destruct old. Qed.

Lemma carryOver_DisconnectedAt old c :
  clients.DisconnectedAt (carryOver old c) = clients.DisconnectedAt c.
Proof. by destruct old. Qed.

(** A successful registration ends with the new object stored under the
    client id; the object is the struct literal with its tunnels filled in. *)
Lemma StartClient_ok ctx a id conn multi req clog s client s' :
  StartClient ParseTunnelACL SplitHostPort ctx a id conn multi req clog s = Some (Ok client, s') →
  ∃ old remotes host ts s1 c0,
    lookupOld id req s = Some (Ok (old, remotes), s) ∧
    checkAuthID multi a id s = Some (Ok tt, s) ∧
    SplitHostPort (clients.RemoteAddr conn) = Ok host ∧
    c0 = carryOver old (newClient ctx a id conn req clog host) ∧
    client = length (heap s) ∧
    startClientTunnels ParseTunnelACL client remotes (setHeap (heap s ++ [c0]) s)
      = Some (Ok ts, s1) ∧
    (∃ ts', heap s1 !! client = Some (clients.setTunnels ts' c0)) ∧
    Failing (repo s1) OpSave = None ∧
    s' = setRepo (setClients (<[id := client]> (Clients (repo s))) (repo s)) s1.
Proof.
  intros H. apply StartClient_inv in H
    as [(e & _ & ? & _)|(old & remotes & Hold & [(e & _ & ? & _)|(Hauth & [(e & _ & ? & _)|(host & Hhost & H)])])];
    try discriminate.
  apply bind_inv_ok in H as (ts & s1 & Htun & H).
  apply bind_inv_ok in H as ([] & s2 & Hsave & H). inversion H; subst; clear H.
  pose proof (startClientTunnels_frame _ _ _ _ _ Htun) as (Hrepo & Hlen & Hother & Hself).
  simpl in *.
  destruct (Hself (carryOver old (newClient ctx a id conn req clog host))) as [ts' Hts'].
  { rewrite lookup_app_r by lia. by rewrite Nat.sub_diag. }
  rewrite (repo_Save_run _ _ _ Hts') in Hsave.
  destruct (Failing (repo s1) OpSave) eqn:HF; [discriminate|].
  inversion Hsave; subst; clear Hsave.
  exists old, remotes, host, ts, s1, (carryOver old (newClient ctx a id conn req clog host)).
  repeat split; eauto.
  simpl. rewrite carryOver_ID. simpl. by rewrite Hrepo.
Qed.

Lemma StartClient_registers ctx a id conn multi req clog s client s' :
  StartClient ParseTunnelACL SplitHostPort ctx a id conn multi req clog s = Some (Ok client, s') →
  connected s' id.
Proof.
  intros H. apply StartClient_ok in H
    as (old & remotes & host & ts & s1 & c0 & Hold & _ & _ & -> & -> & Htun & [ts' Hts'] & _ & ->).
  apply lookupOld_ok in Hold.
  exists (length (heap s)), (clients.setTunnels ts' (carryOver old (newClient ctx a id conn req clog host))).
  split; [|split].
  - rewrite repo_GetByID_run. simpl. rewrite Hold. by rewrite lookup_insert_eq.
  - exact Hts'.
  - simpl. by rewrite carryOver_DisconnectedAt.
Qed.

(** C3 (StartClient, lines 218-226): while a record with
    [DisconnectedAt == nil] is stored under a client id, every
    [StartClient] call with that id fails with the "client id ... is
    already in use" error and leaves the whole state as it was; and once
    a registration under an id has succeeded, any further registration
    under the same id fails in that way. *)
Theorem StartClient_id_in_use ctx a id conn multi req clog s :
  (connected s id →
   StartClient ParseTunnelACL SplitHostPort ctx a id conn multi req clog s
     = Some (Err (errClientIDInUse id), s)) ∧
  (∀ ctx0 a0 conn0 multi0 req0 clog0 s0 client,
     StartClient ParseTunnelACL SplitHostPort ctx0 a0 id conn0 multi0 req0 clog0 s0
       = Some (Ok client, s) →
     StartClient ParseTunnelACL SplitHostPort ctx a id conn multi req clog s
       = Some (Err (errClientIDInUse id), s)).
Proof.
  assert (connected s id →
          StartClient ParseTunnelACL SplitHostPort ctx a id conn multi req clog s
          = Some (Err (errClientIDInUse id), s)) as Hfirst.
  { intros Hc. unfold StartClient. by rewrite (bind_err _ _ _ _ _ (lookupOld_connected _ req _ Hc)). }
  split; [exact Hfirst|].
  intros ctx0 a0 conn0 multi0 req0 clog0 s0 client H.
  apply Hfirst. by eapply StartClient_registers.
Qed.

(** ** Failed registrations leave the repository alone *)

Lemma wf_lookup s id p :
  wf s → Clients (repo s) !! id = Some p →
  ∃ c, heap s !! p = Some c ∧ clients.ID c = id.
Proof.
  intros Hwf Hp. specialize (Hwf id p Hp). simpl in Hwf.
  destruct (heap s !! p) as [c|]; [|done]. exists c. by inversion Hwf.
Qed.

(** Tunnel allocation for a freshly allocated object is invisible through
    the repository. *)
Lemma fresh_frame_view s c0 s' :
  wf s →
  tunnelsFrame (length (heap s)) (setHeap (heap s ++ [c0]) s) s' →
  repo s' = repo s ∧
  ∀ id, fst <$> repo_GetByID id s' = fst <$> repo_GetByID id s ∧ view s' id = view s id.
Proof.
  intros Hwf (Hrepo & _ & Hother & _). simpl in *. split; [done|].
  intros id. split.
  - rewrite !repo_GetByID_run, Hrepo. by destruct (Failing _ _).
  - unfold view. rewrite Hrepo.
    destruct (Clients (repo s) !! id) as [p|] eqn:Hp; [simpl|done].
    destruct (wf_lookup _ _ _ Hwf Hp) as (c & Hc & _).
    pose proof (lookup_lt_Some _ _ _ Hc) as Hlt.
    rewrite Hother by lia. by rewrite lookup_app_l.
Qed.

Lemma StartClient_failure_frame ctx a id conn multi req clog s e s' :
  wf s →
  StartClient ParseTunnelACL SplitHostPort ctx a id conn multi req clog s = Some (Err e, s') →
  repo s' = repo s ∧
  ∀ id', fst <$> repo_GetByID id' s' = fst <$> repo_GetByID id' s ∧ view s' id' = view s id'.
Proof.
  intros Hwf H. apply StartClient_inv in H
    as [(? & _ & _ & ->)|(old & remotes & Hold & [(? & _ & _ & ->)|(Hauth & [(? & _ & _ & ->)|(host & Hhost & H)])])];
    try done.
  apply bind_inv in H as [(ts & s1 & Htun & H)|(e' & Htun & _)].
  - pose proof (startClientTunnels_frame _ _ _ _ _ Htun) as Hframe.
    destruct Hframe as (Hrepo & Hlen & Hother & Hself).
    destruct (Hself (carryOver old (newClient ctx a id conn req clog host))) as [ts' Hts'].
    { simpl. rewrite lookup_app_r by lia. by rewrite Nat.sub_diag. }
    apply bind_inv in H as [([] & s2 & Hsave & H)|(e' & Hsave & _)]; [by inversion H|].
    rewrite (repo_Save_run _ _ _ Hts') in Hsave.
    destruct (Failing (repo s1) OpSave); inversion Hsave; subst.
    eapply fresh_frame_view; [exact Hwf|]. by repeat split.
  - eapply fresh_frame_view; [exact Hwf|]. by eapply startClientTunnels_frame.
Qed.

(** The ways in which the allocation of one tunnel fails, and the error
    that comes out of the loop in each: no free port or a rejected explicit
    port, an ACL that does not parse, and a [StartTunnel] failure, which is
    wrapped into a conflict error. *)
Lemma startTunnelsLoop_failures client remote rest tunnels s e s' :
  (resolveLocal remote s = Some (Err e, s') →
   startTunnelsLoop ParseTunnelACL client (remote :: rest) tunnels s = Some (Err e, s')) ∧
  (∀ r, resolveLocal remote s = Some (Ok r, s') →
        parseACL ParseTunnelACL r s' = Some (Err e, s') →
   startTunnelsLoop ParseTunnelACL client (remote :: rest) tunnels s = Some (Err e, s')) ∧
  (∀ r acl s1, resolveLocal remote s = Some (Ok r, s1) →
               parseACL ParseTunnelACL r s1 = Some (Ok acl, s1) →
               Client_StartTunnel client r acl s1 = Some (Err e, s') →
   startTunnelsLoop ParseTunnelACL client (remote :: rest) tunnels s
     = Some (Err (cantCreateTunnel e), s')).
Proof.
  repeat split.
  - intros H. simpl. by rewrite (bind_err _ _ _ _ _ H).
  - intros r H1 H2. simpl. rewrite (bind_ok _ _ _ _ _ H1). by rewrite (bind_err _ _ _ _ _ H2).
  - intros r acl s1 H1 H2 H3. simpl.
    rewrite (bind_ok _ _ _ _ _ H1), (bind_ok _ _ _ _ _ H2).
    by rewrite (bind_err _ _ _ _ _ (mapErr_err _ _ _ _ _ H3)).
Qed.

(** C2 (StartClient, lines 282-291, with startClientTunnels): when
    allocating the tunnels of the client under construction fails,
    [StartClient] returns that very error, nothing is saved, and every
    [GetByID] gives after the call what it gave before it. *)
Theorem StartClient_tunnel_failure ctx a id conn multi req clog s old remotes host e s' :
  wf s →
  lookupOld id req s = Some (Ok (old, remotes), s) →
  checkAuthID multi a id s = Some (Ok tt, s) →
  SplitHostPort (clients.RemoteAddr conn) = Ok host →
  startClientTunnels ParseTunnelACL (length (heap s)) remotes
    (setHeap (heap s ++ [carryOver old (newClient ctx a id conn req clog host)]) s)
    = Some (Err e, s') →
  StartClient ParseTunnelACL SplitHostPort ctx a id conn multi req clog s = Some (Err e, s') ∧
  repo s' = repo s ∧
  ∀ id', fst <$> GetByID id' s' = fst <$> GetByID id' s ∧ view s' id' = view s id'.
Proof.
  intros Hwf Hold Hauth Hhost Htun.
  assert (StartClient ParseTunnelACL SplitHostPort ctx a id conn multi req clog s
          = Some (Err e, s')) as Hrun.
  { rewrite (StartClient_run _ _ _ _ _ _ _ _ _ _ _ Hold Hauth Hhost).
    by rewrite (bind_err _ _ _ _ _ Htun). }
  split; [exact Hrun|]. by eapply StartClient_failure_frame.
Qed.

(** ** Termination and removal *)

Lemma Terminate_no_retention client now s :
  KeepLostClients (repo s) = None → Terminate client now s = repo_Delete client s.
Proof. intros H. unfold Terminate, bind, gets. by rewrite H. Qed.

Lemma Terminate_retention_run client now s c d :
  KeepLostClients (repo s) = Some d →
  heap s !! client = Some c →
  Terminate client now s =
  match Failing (repo s) OpGetByID with
  | Some e => Some (Err e, markDisconnected client c now s)
  | None =>
      match Clients (repo s) !! clients.ID c with
      | None => Some (Ok tt, markDisconnected client c now s)
      | Some _ => repo_Save client (markDisconnected client c now s)
      end
  end.
Proof.
  intros Hk Hc. unfold Terminate, bind, gets, load, store. rewrite Hk, Hc. simpl.
  rewrite Hc. rewrite repo_GetByID_run. simpl. fold (markDisconnected client c now s).
  destruct (Failing (repo s) OpGetByID); [done|].
  destruct (Clients (repo s) !! clients.ID c); done.
Qed.

Lemma markDisconnected_lookup client c now s :
  heap s !! client = Some c →
  heap (markDisconnected client c now s) !! client
    = Some (clients.setDisconnectedAt (Some now) c).
Proof.
  intros Hc. simpl. apply list_lookup_insert_eq. by eapply lookup_lt_Some.
Qed.

(** C5 (Terminate, lines 381-400): with a working repository, [Terminate]
    follows the retention policy.  With [KeepLostClients == nil] the record
    is deleted and [GetByID] then finds nothing under the client's id; with
    a retention duration, a client that has a record keeps one: [GetByID]
    returns the terminated client, whose [DisconnectedAt] is the time of
    the call. *)
Theorem Terminate_retention_policy client now s c :
  heap s !! client = Some c →
  healthy s →
  (KeepLostClients (repo s) = None →
   ∃ s', Terminate client now s = Some (Ok tt, s') ∧
         GetByID (clients.ID c) s' = Some (Ok None, s')) ∧
  (∀ d, KeepLostClients (repo s) = Some d →
        is_Some (Clients (repo s) !! clients.ID c) →
   ∃ s' c', Terminate client now s = Some (Ok tt, s') ∧
            GetByID (clients.ID c) s' = Some (Ok (Some client), s') ∧
            heap s' !! client = Some c' ∧
            view s' (clients.ID c) = Some c' ∧
            clients.DisconnectedAt c' = Some now).
Proof.
  intros Hc Hh. split.
  - intros Hk. rewrite (Terminate_no_retention _ _ _ Hk), (repo_Delete_run _ _ _ Hc).
    rewrite (Hh OpDelete). eexists. split; [done|].
    unfold GetByID. rewrite repo_GetByID_run. simpl. rewrite (Hh OpGetByID).
    by rewrite lookup_delete_eq.
  - intros d Hk [q Hq]. rewrite (Terminate_retention_run _ _ _ _ _ Hk Hc).
    rewrite (Hh OpGetByID), Hq.
    rewrite (repo_Save_run _ _ _ (markDisconnected_lookup _ _ now _ Hc)).
    simpl. rewrite (Hh OpSave). do 2 eexists. split; [done|].
    pose proof (lookup_lt_Some _ _ _ Hc) as Hlt.
    unfold GetByID, view. rewrite repo_GetByID_run. simpl. rewrite (Hh OpGetByID).
    rewrite !lookup_insert_eq. simpl.
    rewrite !list_lookup_insert_eq by done. done.
Qed.

Lemma Terminate_absent client now s c d :
  heap s !! client = Some c →
  KeepLostClients (repo s) = Some d →
  repo_GetByID (clients.ID c) s = Some (Ok None, s) →
  Terminate client now s = Some (Ok tt, markDisconnected client c now s).
Proof.
  intros Hc Hk Hget. apply repo_GetByID_ok in Hget as (HF & Hnone & _).
  rewrite (Terminate_retention_run _ _ _ _ _ Hk Hc), HF, <- Hnone. done.
Qed.

Lemma ForceDelete_run client s c :
  heap s !! client = Some c →
  ForceDelete client s =
  match clients.DisconnectedAt c with
  | None =>
      match clients.CloseErr (clients.Connection c) with
      | Some e => Some (Err e, s)
      | None => repo_Delete client (markClosed client c s)
      end
  | Some _ => repo_Delete client s
  end.
Proof.
  intros Hc. unfold ForceDelete, bind at 1, load at 1. rewrite Hc.
  destruct (clients.DisconnectedAt c).
  - reflexivity.
  - unfold bind, Client_Close, bind, load, store, fail. rewrite Hc.
    destruct (clients.CloseErr _); [done|]. rewrite Hc. reflexivity.
Qed.

Lemma markClosed_lookup client c s :
  heap s !! client = Some c →
  heap (markClosed client c s) !! client
    = Some (clients.setConnection (clients.closeConn (clients.Connection c)) c).
Proof.
  intros Hc. simpl. apply list_lookup_insert_eq. by eapply lookup_lt_Some.
Qed.

(** After a successful [ForceDelete] the object is still on the heap, under
    its id, and no record is stored under that id. *)
Lemma ForceDelete_ok client s c s' :
  heap s !! client = Some c →
  ForceDelete client s = Some (Ok tt, s') →
  (∃ c', heap s' !! client = Some c' ∧ clients.ID c' = clients.ID c) ∧
  Clients (repo s') !! clients.ID c = None ∧
  KeepLostClients (repo s') = KeepLostClients (repo s) ∧
  Failing (repo s') = Failing (repo s).
Proof.
  intros Hc. rewrite (ForceDelete_run _ _ _ Hc).
  destruct (clients.DisconnectedAt c).
  - rewrite (repo_Delete_run _ _ _ Hc). destruct (Failing _ _); [done|].
    intros H; inversion H; subst; clear H. simpl.
    rewrite lookup_delete_eq. repeat split; eauto.
  - destruct (clients.CloseErr _); [done|].
    rewrite (repo_Delete_run _ _ _ (markClosed_lookup _ _ _ Hc)).
    simpl. destruct (Failing _ _); [done|].
    intros H; inversion H; subst; clear H. simpl.
    rewrite lookup_delete_eq. repeat split; [|done..].
    eexists. split; [apply list_lookup_insert_eq; by eapply lookup_lt_Some|done].
Qed.

(** C6 (Terminate, lines 388-399): with a retention duration, terminating
    a client whose record is gone returns no error and writes nothing: the
    repository is unchanged and [GetByID] still finds nothing.  That holds
    in particular right after a successful [ForceDelete] of that client. *)
Theorem Terminate_after_removal client now s c d :
  heap s !! client = Some c →
  KeepLostClients (repo s) = Some d →
  (GetByID (clients.ID c) s = Some (Ok None, s) →
   ∃ s', Terminate client now s = Some (Ok tt, s') ∧
         repo s' = repo s ∧
         GetByID (clients.ID c) s' = Some (Ok None, s')) ∧
  (∀ s1, Failing (repo s) OpGetByID = None →
         ForceDelete client s = Some (Ok tt, s1) →
   ∃ s', Terminate client now s1 = Some (Ok tt, s') ∧
         repo s' = repo s1 ∧
         GetByID (clients.ID c) s' = Some (Ok None, s')).
Proof.
  intros Hc Hk.
  assert (∀ s0 c0 : _, heap s0 !! client = Some c0 → KeepLostClients (repo s0) = Some d →
          repo_GetByID (clients.ID c0) s0 = Some (Ok None, s0) →
          ∃ s', Terminate client now s0 = Some (Ok tt, s') ∧ repo s' = repo s0 ∧
                repo_GetByID (clients.ID c0) s' = Some (Ok None, s')) as Hgen.
  { intros s0 c0 Hc0 Hk0 Hget. rewrite (Terminate_absent _ now _ _ _ Hc0 Hk0 Hget).
    eexists. split; [done|]. split; [done|].
    apply repo_GetByID_ok in Hget as (HF & Hnone & _).
    rewrite repo_GetByID_run. simpl. by rewrite HF, <- Hnone. }
  split.
  - intros Hget. by apply Hgen.
  - intros s1 HF Hfd.
    destruct (ForceDelete_ok _ _ _ _ Hc Hfd) as ((c' & Hc' & Hid) & Hgone & Hk' & HF').
    rewrite <- Hid. apply Hgen; [done|congruence|].
    rewrite repo_GetByID_run, HF', HF, Hid, Hgone. done.
Qed.

(** C10 (Terminate, lines 381-400): with a retention duration and no
    record stored under the client's id, [Terminate] still writes the time
    of the call into the [DisconnectedAt] of the client it was handed; the
    client's other fields, every other object, the repository and the port
    distributor are as before, and so is what [GetByID] shows. *)
Theorem Terminate_marks_absent_client client now s c d :
  wf s →
  heap s !! client = Some c →
  KeepLostClients (repo s) = Some d →
  GetByID (clients.ID c) s = Some (Ok None, s) →
  ∃ s', Terminate client now s = Some (Ok tt, s') ∧
        heap s' !! client = Some (clients.setDisconnectedAt (Some now) c) ∧
        clients.DisconnectedAt <$> heap s' !! client = Some (Some now) ∧
        (∀ p, p ≠ client → heap s' !! p = heap s !! p) ∧
        repo s' = repo s ∧
        portDistributor s' = portDistributor s ∧
        (∀ id, view s' id = view s id).
Proof.
  intros Hwf Hc Hk Hget. rewrite (Terminate_absent _ now _ _ _ Hc Hk Hget).
  eexists. split; [done|].
  pose proof (markDisconnected_lookup _ _ now _ Hc) as Hnew.
  split; [exact Hnew|]. split; [by rewrite Hnew|].
  assert (∀ p, p ≠ client → heap (markDisconnected client c now s) !! p = heap s !! p) as Hother.
  { intros p Hp. simpl. by apply list_lookup_insert_ne. }
  split; [exact Hother|]. split; [done|]. split; [done|].
  intros id. unfold view. simpl.
  destruct (Clients (repo s) !! id) as [p|] eqn:Hp; [simpl|done].
  apply Hother. intros ->.
  destruct (wf_lookup _ _ _ Hwf Hp) as (c' & Hc' & Hid). simplify_eq.
  apply repo_GetByID_ok in Hget as (_ & Hnone & _). by rewrite Hp in Hnone.
Qed.

(** C7, as amended (ForceDelete, lines 404-413): [ForceDelete] hands the
    record of a disconnected client to [Delete] without touching the
    connection; for a connected client it closes the connection first and
    then hands the record to [Delete], unless [Close] fails, in which case
    it returns that error and changes nothing.  When [Delete] works the
    record is gone; when [Delete] fails [ForceDelete] returns its error
    and the record stays, the connection of a connected client having
    been closed already.  The retention setting plays no part: no case
    looks at it. *)
Theorem ForceDelete_closes_then_deletes client s c :
  heap s !! client = Some c →
  (is_Some (clients.DisconnectedAt c) →
   (Failing (repo s) OpDelete = None →
    ForceDelete client s = Some (Ok tt, withoutRecord (clients.ID c) s) ∧
    Clients (repo (withoutRecord (clients.ID c) s)) !! clients.ID c = None) ∧
   (∀ e, Failing (repo s) OpDelete = Some e →
         ForceDelete client s = Some (Err e, s))) ∧
  (clients.DisconnectedAt c = None →
   clients.CloseErr (clients.Connection c) = None →
   (Failing (repo s) OpDelete = None →
    ForceDelete client s
      = Some (Ok tt, withoutRecord (clients.ID c) (markClosed client c s)) ∧
    clients.Closed ∘ clients.Connection
      <$> heap (withoutRecord (clients.ID c) (markClosed client c s)) !! client = Some true ∧
    Clients (repo (withoutRecord (clients.ID c) (markClosed client c s))) !! clients.ID c = None) ∧
   (∀ e, Failing (repo s) OpDelete = Some e →
         ForceDelete client s = Some (Err e, markClosed client c s) ∧
         repo (markClosed client c s) = repo s)) ∧
  (∀ e, clients.DisconnectedAt c = None →
        clients.CloseErr (clients.Connection c) = Some e →
        ForceDelete client s = Some (Err e, s)).
Proof.
  intros Hc. rewrite (ForceDelete_run _ _ _ Hc). split; [|split].
  - intros [t ->]. rewrite (repo_Delete_run _ _ _ Hc). split.
    + intros ->. split; [done|]. simpl. apply lookup_delete_eq.
    + by intros e ->.
  - intros -> ->. rewrite (repo_Delete_run _ _ _ (markClosed_lookup _ _ _ Hc)). simpl. split.
    + intros ->. split; [done|]. split.
      * simpl. rewrite list_lookup_insert_eq by (by eapply lookup_lt_Some). done.
      * simpl. apply lookup_delete_eq.
    + by intros e ->.
  - intros e -> ->. done.
Qed.

(** ** Explicit local ports *)

Lemma checkLocalPort_run port s :
  checkLocalPort port s =
  match Atoi port with
  | Err err => Some (Err (errInvalidLocalPort port err), s)
  | Ok localPort =>
      if negb (IsPortAllowed (portDistributor s) localPort)
      then Some (Err (errPortNotAllowed localPort), s)
      else if IsPortBusy (portDistributor s) localPort
           then Some (Err (errPortBusy localPort), s)
           else Some (Ok tt, s)
  end.
Proof.
  unfold checkLocalPort, bind, gets. destruct (Atoi port); [|done].
  destruct (negb _); [done|]. by destruct (IsPortBusy _ _).
Qed.


(** ** Errors of collaborators *)

Lemma populate_never_fails all groups s r s' :
  populate BelongsTo all groups s = Some (r, s') → s' = s ∧ ∃ gs, r = Ok gs.
Proof.
  revert groups. induction all as [|p rest IH]; intros groups; simpl.
  - intros H; inversion H; eauto.
  - unfold bind, load. destruct (heap s !! p); [|done]. apply IH.
Qed.

Lemma PopulateGroupsWithUserClients_never_fails groups user s r s' :
  PopulateGroupsWithUserClients BelongsTo groups user s = Some (r, s') →
  ∃ gs, r = Ok gs.
Proof.
  unfold PopulateGroupsWithUserClients, bind at 1, catch.
  destruct (repo_GetUserClients user s) as [[r0 s0]|]; [|done].
  unfold bind. destruct (populate _ _ _ _) as [[r1 s1]|] eqn:Hp; [|done].
  apply populate_never_fails in Hp as (_ & gs & ->).
  intros H; inversion H; eauto.
Qed.

Lemma PopulateGroupsWithUserClients_swallows groups user s e s' :
  repo_GetUserClients user s = Some (Err e, s') →
  PopulateGroupsWithUserClients BelongsTo groups user s
    = Some (Ok ((fun g => cgroups.setClientIDs (sortStrings (cgroups.ClientIDs g)) g) <$> groups), s').
Proof.
  intros H. unfold PopulateGroupsWithUserClients, bind, catch. rewrite H. done.
Qed.

(** ** The auth id check *)







(** ** Successful tunnel allocation *)

Lemma resolvedAs_target r r' : resolvedAs r r' → chshare.target r' = chshare.target r.
Proof.
  unfold resolvedAs. destruct (chshare.IsLocalSpecified r).
  - by intros ->.
  - by intros [port ->].
Qed.

Lemma Refresh_heap s r s' : Refresh s = Some (r, s') → heap s' = heap s.
Proof.
  unfold Refresh, bind, gets, liftErr, getRecords, modify, fail, ret.
  destruct (RefreshErr _); [by intros H; inversion H|].
  destruct (records s); intros H; by inversion H.
Qed.

Lemma resolveLocal_ok remote s r' s' :
  resolveLocal remote s = Some (Ok r', s') → resolvedAs remote r' ∧ heap s' = heap s.
Proof.
  unfold resolveLocal, resolvedAs. destruct (chshare.IsLocalSpecified remote); simpl.
  - intros H. apply bind_inv_ok in H as ([] & s1 & H1 & H). inversion H; subst.
    by apply readonly_checkLocalPort in H1 as ->.
  - unfold GetRandomPort, bind, gets, modify, fail, ret.
    destruct (freePorts _); intros H; inversion H; subst. eauto.
Qed.

Lemma Client_StartTunnel_ok client remote acl s t s' :
  Client_StartTunnel client remote acl s = Some (Ok t, s') →
  ∃ c, heap s !! client = Some c ∧
       clients.Remote t = remote ∧ clients.ACL t = acl ∧
       heap s' !! client = Some (clients.setTunnels (clients.Tunnels c ++ [t]) c).
Proof.
  unfold Client_StartTunnel, bind, load, store, fail, ret.
  destruct (heap s !! client) as [c|] eqn:Hc; [|done].
  destruct (holdsLocalPort _ _); [done|]. rewrite Hc.
  intros H; inversion H; subst; clear H. exists c. repeat split; simpl.
  apply list_lookup_insert_eq. by eapply lookup_lt_Some.
Qed.

Lemma startTunnelsLoop_ok client remotes tunnels s ts s' c :
  startTunnelsLoop ParseTunnelACL client remotes tunnels s = Some (Ok ts, s') →
  heap s !! client = Some c →
  ∃ new, ts = tunnels ++ new ∧
         heap s' !! client = Some (clients.setTunnels (clients.Tunnels c ++ new) c) ∧
         Forall2 (fun r t => resolvedAs r (clients.Remote t)) remotes new.
Proof.
  revert tunnels s c. induction remotes as [|remote rest IH]; intros tunnels s c H Hc; simpl in H.
  - inversion H; subst. exists []. rewrite !app_nil_r, setTunnels_id. by repeat split.
  - apply bind_inv_ok in H as (r' & s1 & H1 & H).
    apply resolveLocal_ok in H1 as [Hres Hheap1].
    apply bind_inv_ok in H as (acl & s2 & H2 & H).
    apply readonly_parseACL in H2 as ->.
    apply bind_inv_ok in H as (t & s3 & H3 & H).
    apply mapErr_inv in H3 as ([t'|?] & H3 & Ht); [|done]. inversion Ht; subst t'; clear Ht.
    apply Client_StartTunnel_ok in H3 as (c1 & Hc1 & Hrem & _ & Hc3).
    rewrite Hheap1, Hc in Hc1. inversion Hc1; subst c1; clear Hc1.
    destruct (IH _ _ _ H Hc3) as (new & -> & Hnew & Hall).
    exists (t :: new). split; [by rewrite <- app_assoc|]. split.
    + rewrite Hnew. simpl. by rewrite <- app_assoc.
    + constructor; [by rewrite Hrem | done].
Qed.

Example GetTunnelsToReestablish_disjoint :
  GetTunnelsToReestablish (getRemotes [Ex.tunnelA]) [Ex.remoteB] = [Ex.remoteA].
Proof. reflexivity. Qed.

Example GetTunnelsToReestablish_duplicate :
  GetTunnelsToReestablish (getRemotes [Ex.tunnelA]) [Ex.remoteB; Ex.remoteA] = [].
Proof. reflexivity. Qed.

Lemma lookupOld_disconnected id req s p old :
  Failing (repo s) OpGetByID = None →
  Clients (repo s) !! id = Some p →
  heap s !! p = Some old →
  is_Some (clients.DisconnectedAt old) →
  lookupOld id req s =
  Some (Ok (Some old,
            chshare.Remotes req ++
              GetTunnelsToReestablish (getRemotes (clients.Tunnels old)) (chshare.Remotes req)),
        s).
Proof.
  intros HF Hp Hold [t Ht]. unfold lookupOld.
  assert (repo_GetByID id s = Some (Ok (Some p), s)) as Hget.
  { by rewrite repo_GetByID_run, HF, Hp. }
  rewrite (bind_ok _ _ _ _ _ (mapErr_ok _ _ _ _ _ Hget)).
  unfold bind, load. rewrite Hold, Ht. cbv zeta.
  destruct (GetTunnelsToReestablish _ _); simpl; [by rewrite app_nil_r | done].
Qed.

Lemma Forall2_elem_of_l {A B} (P : A → B → Prop) l k x :
  Forall2 P l k → x ∈ l → ∃ y, y ∈ k ∧ P x y.
Proof.
  intros H Hx. apply list_elem_of_lookup in Hx as [i Hi].
  destruct (Forall2_lookup_l _ _ _ _ _ H Hi) as (y & Hy & HP).
  exists y. split; [by eapply list_elem_of_lookup_2 | done].
Qed.

(** C4 (StartClient, lines 227-234): when a disconnected record is stored
    under the client id, a successful [StartClient] stores a client whose
    tunnels contain one for every newly requested remote and one for every
    remote of the old tunnels that the request does not duplicate; each of
    these tunnels leads to the target of its remote and keeps the remote's
    local port when it had one. *)
Theorem StartClient_reestablishes ctx a id conn multi req clog s p old client s' :
  Clients (repo s) !! id = Some p →
  heap s !! p = Some old →
  is_Some (clients.DisconnectedAt old) →
  StartClient ParseTunnelACL SplitHostPort ctx a id conn multi req clog s = Some (Ok client, s') →
  ∃ c', heap s' !! client = Some c' ∧
        view s' id = Some c' ∧
        (∀ r, r ∈ chshare.Remotes req →
           ∃ t, t ∈ clients.Tunnels c' ∧ resolvedAs r (clients.Remote t) ∧
                chshare.target (clients.Remote t) = chshare.target r) ∧
        (∀ o, o ∈ getRemotes (clients.Tunnels old) →
              duplicated (chshare.Remotes req) o = false →
           ∃ t, t ∈ clients.Tunnels c' ∧ resolvedAs o (clients.Remote t) ∧
                chshare.target (clients.Remote t) = chshare.target o).
Proof.
  intros Hp Hold Hdis H.
  apply StartClient_ok in H
    as (old' & remotes & host & ts & s1 & c0 & Hlook & _ & _ & -> & -> & Htun & _ & _ & ->).
  pose proof (lookupOld_ok _ _ _ _ _ Hlook) as HF.
  rewrite (lookupOld_disconnected id req s p old HF Hp Hold Hdis) in Hlook.
  inversion Hlook; subst old' remotes; clear Hlook.
  unfold startClientTunnels in Htun.
  apply bind_inv_ok in Htun as ([] & s0 & Href & Hloop).
  apply Refresh_heap in Href.
  set (c0 := carryOver (Some old) (newClient ctx a id conn req clog host)) in *.
  assert (heap s0 !! length (heap s) = Some c0) as Hc0.
  { rewrite Href. simpl. rewrite lookup_app_r by lia. by rewrite Nat.sub_diag. }
  destruct (startTunnelsLoop_ok _ _ _ _ _ _ _ Hloop Hc0) as (new & _ & Hnew & Hall).
  exists (clients.setTunnels (clients.Tunnels c0 ++ new) c0).
  split; [exact Hnew|]. split.
  { unfold view. simpl. rewrite lookup_insert_eq. exact Hnew. }
  assert (∀ r, r ∈ chshare.Remotes req ++
                   GetTunnelsToReestablish (getRemotes (clients.Tunnels old)) (chshare.Remotes req) →
          ∃ t, t ∈ clients.Tunnels (clients.setTunnels (clients.Tunnels c0 ++ new) c0) ∧
               resolvedAs r (clients.Remote t) ∧
               chshare.target (clients.Remote t) = chshare.target r) as Hmade.
  { intros r Hr. destruct (Forall2_elem_of_l _ _ _ _ Hall Hr) as (t & Ht & Hres).
    exists t. split; [exact Ht|].
    split; [done | by apply resolvedAs_target]. }
  split.
  - intros r Hr. apply Hmade, elem_of_app. by left.
  - intros o Ho Hdup. apply Hmade, elem_of_app. right.
    unfold GetTunnelsToReestablish. apply list_elem_of_In, filter_In.
    split; [by apply list_elem_of_In | by rewrite Hdup].
Qed.

(** ** The registry invariant is kept *)

Lemma wf_preserved s s' :
  wf s →
  Clients (repo s') = Clients (repo s) →
  (∀ p c, heap s !! p = Some c → ∃ c', heap s' !! p = Some c' ∧ clients.ID c' = clients.ID c) →
  wf s'.
Proof.
  intros Hwf Hrepo Hheap id p Hp. rewrite Hrepo in Hp.
  destruct (wf_lookup _ _ _ Hwf Hp) as (c & Hc & Hid).
  destruct (Hheap _ _ Hc) as (c' & Hc' & Hid'). simpl. rewrite Hc'. simpl. congruence.
Qed.

Lemma wf_insert s id p c :
  wf s → heap s !! p = Some c → clients.ID c = id →
  wf (setRepo (setClients (<[id := p]> (Clients (repo s))) (repo s)) s).
Proof.
  intros Hwf Hc Hid. unfold wf. simpl. apply map_Forall_insert_2; [|exact Hwf].
  rewrite Hc. simpl. by rewrite Hid.
Qed.

Lemma wf_delete s id : wf s → wf (withoutRecord id s).
Proof. intros Hwf. unfold wf. simpl. by apply map_Forall_delete. Qed.

Lemma tunnelsFrame_wf client s s' : wf s → tunnelsFrame client s s' → wf s'.
Proof.
  intros Hwf (Hrepo & _ & Hother & Hself).
  apply (wf_preserved s); [done | by rewrite Hrepo |].
  intros p c Hc. destruct (decide (p = client)) as [->|Hne].
  - destruct (Hself _ Hc) as [ts Hts]. eauto.
  - rewrite Hother by done. eauto.
Qed.

Lemma wf_alloc s c : wf s → wf (setHeap (heap s ++ [c]) s).
Proof.
  intros Hwf. apply (wf_preserved s); [done..|].
  intros p c0 Hc0. exists c0. split; [|done]. simpl. by apply lookup_app_l_Some.
Qed.

Lemma StartClient_wf ctx a id conn multi req clog s r s' :
  wf s →
  StartClient ParseTunnelACL SplitHostPort ctx a id conn multi req clog s = Some (r, s') →
  wf s'.
Proof.
  intros Hwf H. apply StartClient_inv in H
    as [(? & _ & _ & ->)|(old & remotes & Hold & [(? & _ & _ & ->)|(Hauth & [(? & _ & _ & ->)|(host & Hhost & H)])])];
    try done.
  set (c0 := carryOver old (newClient ctx a id conn req clog host)) in *.
  pose proof (wf_alloc s c0 Hwf) as Hwf0.
  apply bind_inv in H as [(ts & s1 & Htun & H)|(e' & Htun & _)].
  2:{ eapply tunnelsFrame_wf; [exact Hwf0 | by eapply startClientTunnels_frame]. }
  pose proof (startClientTunnels_frame _ _ _ _ _ Htun) as Hframe.
  pose proof (tunnelsFrame_wf _ _ _ Hwf0 Hframe) as Hwf1.
  destruct Hframe as (_ & _ & _ & Hself).
  destruct (Hself c0) as [ts' Hts'].
  { simpl. rewrite lookup_app_r by lia. by rewrite Nat.sub_diag. }
  apply bind_inv in H as [([] & s2 & Hsave & H)|(e' & Hsave & _)].
  - inversion H; subst. rewrite (repo_Save_run _ _ _ Hts') in Hsave.
    destruct (Failing _ _); inversion Hsave; subst. by eapply wf_insert.
  - rewrite (repo_Save_run _ _ _ Hts') in Hsave.
    destruct (Failing _ _); inversion Hsave; by subst.
Qed.

Lemma markDisconnected_wf client c now s :
  wf s → heap s !! client = Some c → wf (markDisconnected client c now s).
Proof.
  intros Hwf Hc. apply (wf_preserved s); [done..|].
  intros p c0 Hc0. destruct (decide (p = client)) as [->|Hne].
  - rewrite (markDisconnected_lookup _ _ _ _ Hc). simplify_eq. eauto.
  - simpl. rewrite list_lookup_insert_ne by done. eauto.
Qed.

Lemma markClosed_wf client c s :
  wf s → heap s !! client = Some c → wf (markClosed client c s).
Proof.
  intros Hwf Hc. apply (wf_preserved s); [done..|].
  intros p c0 Hc0. destruct (decide (p = client)) as [->|Hne].
  - rewrite (markClosed_lookup _ _ _ Hc). simplify_eq. eauto.
  - simpl. rewrite list_lookup_insert_ne by done. eauto.
Qed.

Lemma repo_Delete_wf client s r s' :
  wf s → repo_Delete client s = Some (r, s') → wf s'.
Proof.
  intros Hwf. unfold repo_Delete, bind at 1, load at 1.
  destruct (heap s !! client) as [c|] eqn:Hc; [|done].
  fold (repo_Delete client). intros H.
  assert (repo_Delete client s = Some (r, s')) as H'.
  { unfold repo_Delete, bind at 1, load at 1. by rewrite Hc. }
  rewrite (repo_Delete_run _ _ _ Hc) in H'.
  destruct (Failing _ _); inversion H'; subst; [done|]. by apply wf_delete.
Qed.

Lemma Terminate_wf client now s r s' :
  wf s → Terminate client now s = Some (r, s') → wf s'.
Proof.
  intros Hwf. destruct (KeepLostClients (repo s)) as [d|] eqn:Hk.
  - destruct (heap s !! client) as [c|] eqn:Hc.
    + rewrite (Terminate_retention_run _ _ _ _ _ Hk Hc).
      pose proof (markDisconnected_wf _ _ now _ Hwf Hc) as Hwf1.
      destruct (Failing (repo s) OpGetByID); [by intros H; inversion H; subst|].
      destruct (Clients (repo s) !! clients.ID c); [|by intros H; inversion H; subst].
      rewrite (repo_Save_run _ _ _ (markDisconnected_lookup _ _ now _ Hc)).
      destruct (Failing _ _); intros H; inversion H; subst; [done|].
      exact (wf_insert (markDisconnected client c now s) _ _ _ Hwf1
               (markDisconnected_lookup _ _ now _ Hc) eq_refl).
    + unfold Terminate, bind, gets, load. by rewrite Hk, Hc.
  - rewrite (Terminate_no_retention _ _ _ Hk). by apply repo_Delete_wf.
Qed.

Lemma ForceDelete_wf client s r s' :
  wf s → ForceDelete client s = Some (r, s') → wf s'.
Proof.
  intros Hwf. destruct (heap s !! client) as [c|] eqn:Hc.
  - rewrite (ForceDelete_run _ _ _ Hc). destruct (clients.DisconnectedAt c).
    + by apply repo_Delete_wf.
    + destruct (clients.CloseErr _); [by intros H; inversion H; subst|].
      apply repo_Delete_wf. by apply markClosed_wf.
  - unfold ForceDelete, bind, load. by rewrite Hc.
Qed.

End Verification.

(** * The rest of the client service *)

(** ** Fetching an existing client *)

Lemma getExistingByID_run id s :
  getExistingByID id s =
  if String.eqb id EmptyString then Some (Err errClientIDEmpty, s)
  else match Failing (repo s) OpGetByID with
       | Some e => Some (Err (errFindClient id e), s)
       | None =>
           match Clients (repo s) !! id with
           | None => Some (Err (errClientNotFound id), s)
           | Some p => Some (Ok p, s)
           end
       end.
Proof.
  unfold getExistingByID. destruct (String.eqb id EmptyString); [done|].
  unfold bind, mapErr. rewrite repo_GetByID_run.
  destruct (Failing _ _); [done|]. by destruct (Clients (repo s) !! id).
Qed.

Lemma readonly_getExistingByID id : readonly (getExistingByID id).
Proof.
  intros s r s'. rewrite getExistingByID_run.
  repeat case_match; intros Hrun; by inversion Hrun.
Qed.

Lemma getExistingByID_ok_iff id s p s' :
  getExistingByID id s = Some (Ok p, s') ↔
  id ≠ EmptyString ∧ Failing (repo s) OpGetByID = None ∧
  Clients (repo s) !! id = Some p ∧ s' = s.
Proof.
  rewrite getExistingByID_run.
  destruct (String.eqb_spec id EmptyString) as [->|Hne].
  - split; [done|]. by intros [? _].
  - split.
    + repeat case_match; intros Hrun; inversion Hrun; by subst.
    + intros (_ & -> & -> & ->). done.
Qed.

(** X1: [getExistingByID] (lines 498-520) always answers, never changes
    anything and returns a pointer only when it is the one stored under a
    non-empty id.  The empty id is refused before the repository is asked,
    whatever the repository's condition; a failing repository gives the
    wrapped repository error; an unknown id gives the not-found error. *)
Theorem getExistingByID_outcomes id s :
  getExistingByID EmptyString s = Some (Err errClientIDEmpty, s) ∧
  (∃ r, getExistingByID id s = Some (r, s)) ∧
  (∀ p s', getExistingByID id s = Some (Ok p, s') ↔
           id ≠ EmptyString ∧ Failing (repo s) OpGetByID = None ∧
           Clients (repo s) !! id = Some p ∧ s' = s) ∧
  (∀ e, id ≠ EmptyString → Failing (repo s) OpGetByID = Some e →
        getExistingByID id s = Some (Err (errFindClient id e), s)) ∧
  (id ≠ EmptyString → Failing (repo s) OpGetByID = None → Clients (repo s) !! id = None →
   getExistingByID id s = Some (Err (errClientNotFound id), s)).
Proof.
  split; [done|]. split; [|split; [apply getExistingByID_ok_iff|]].
  - rewrite getExistingByID_run. repeat case_match; eauto.
  - rewrite getExistingByID_run.
    destruct (String.eqb_spec id EmptyString) as [->|Hne]; [split; intros; congruence|].
    split; [by intros e _ ->|by intros _ -> ->].
Qed.

(** ** Offline deletion *)

Lemma DeleteOffline_run id s p c :
  getExistingByID id s = Some (Ok p, s) →
  heap s !! p = Some c →
  DeleteOffline id s =
  match clients.DisconnectedAt c with
  | None => Some (Err errClientActive, s)
  | Some _ => repo_Delete p s
  end.
Proof.
  intros Hget Hc. unfold DeleteOffline. rewrite (bind_ok _ _ _ _ _ Hget).
  unfold bind, load. rewrite Hc. by destruct (clients.DisconnectedAt c).
Qed.

Lemma connected_getExistingByID id s :
  id ≠ EmptyString → connected s id →
  ∃ p c, getExistingByID id s = Some (Ok p, s) ∧ heap s !! p = Some c ∧
         clients.DisconnectedAt c = None.
Proof.
  intros Hne (p & c & Hget & Hc & Hd). exists p, c. split; [|done].
  apply repo_GetByID_ok in Hget as (HF & Hp & _).
  rewrite getExistingByID_run, HF, <- Hp.
  by destruct (String.eqb_spec id EmptyString).
Qed.

Lemma wf_distinct s id id' p :
  wf s → Clients (repo s) !! id = Some p → Clients (repo s) !! id' = Some p → id' = id.
Proof.
  intros Hwf H1 H2.
  destruct (wf_lookup _ _ _ Hwf H1) as (c & Hc & <-).
  destruct (wf_lookup _ _ _ Hwf H2) as (c' & Hc' & <-). congruence.
Qed.

(** X2: [DeleteOffline] (lines 415-429) succeeds only for a stored client that
    is disconnected, and then removes exactly the record under the given id:
    no object changes and every other id shows the client it showed. *)
Theorem DeleteOffline_removes id s s' :
  wf s →
  DeleteOffline id s = Some (Ok tt, s') →
  (∃ c t, view s id = Some c ∧ clients.DisconnectedAt c = Some t) ∧
  s' = withoutRecord id s ∧
  view s' id = None ∧
  (∀ id', id' ≠ id → view s' id' = view s id').
Proof.
  intros Hwf H. unfold DeleteOffline in H.
  apply bind_inv_ok in H as (p & s1 & Hget & H).
  pose proof (readonly_getExistingByID _ _ _ _ Hget) as ->.
  pose proof Hget as Hget'.
  apply getExistingByID_ok_iff in Hget' as (Hne & HF & Hp & _).
  destruct (wf_lookup _ _ _ Hwf Hp) as (c & Hc & Hid).
  unfold bind, load in H. rewrite Hc in H.
  destruct (clients.DisconnectedAt c) as [t|] eqn:Hd; [|done].
  rewrite (repo_Delete_run _ _ _ Hc), Hid in H.
  destruct (Failing (repo s) OpDelete); inversion H; subst; clear H.
  split; [|split; [done|split]].
  - exists c, t. unfold view. rewrite Hp. simpl. by rewrite Hc.
  - unfold view. simpl. by rewrite lookup_delete_eq.
  - intros id' Hne'. unfold view. simpl. by rewrite lookup_delete_ne.
Qed.

(** ** Assigning a field of a stored client *)

Lemma assignAndSave_run assign id s p c :
  getExistingByID id s = Some (Ok p, s) →
  heap s !! p = Some c →
  assignAndSave assign id s =
  match Failing (repo s) OpSave with
  | Some e => Some (Err e, assigned p (assign c) s)
  | None =>
      Some (Ok tt,
            setRepo (setClients (<[clients.ID (assign c) := p]> (Clients (repo s))) (repo s))
              (assigned p (assign c) s))
  end.
Proof.
  intros Hget Hc. unfold assignAndSave. rewrite (bind_ok _ _ _ _ _ Hget).
  unfold bind at 1, load at 1. rewrite Hc.
  unfold bind at 1, store. rewrite Hc. fold (assigned p (assign c) s).
  assert (heap (assigned p (assign c) s) !! p = Some (assign c)) as Hnew.
  { simpl. apply list_lookup_insert_eq. by eapply lookup_lt_Some. }
  rewrite (repo_Save_run _ _ _ Hnew). simpl. by destruct (Failing _ _).
Qed.

(** An assignment that keeps the id of the client: what it does to the
    stored client, to the others and to the invariant, whether or not the
    save that follows goes through. *)
Lemma assignAndSave_effect assign id s r s' :
  (∀ c, clients.ID (assign c) = clients.ID c) →
  wf s →
  assignAndSave assign id s = Some (r, s') →
  (∃ e, getExistingByID id s = Some (Err e, s) ∧ r = Err e ∧ s' = s) ∨
  (∃ c, view s id = Some c ∧
        view s' id = Some (assign c) ∧
        (∀ id', id' ≠ id → view s' id' = view s id') ∧
        Clients (repo s') = Clients (repo s) ∧
        wf s' ∧
        (r = Ok tt ∨ ∃ e, Failing (repo s) OpSave = Some e ∧ r = Err e)).
Proof.
  intros Hid Hwf H.
  destruct (getExistingByID id s) as [[[p|e] s1]|] eqn:Hget.
  3:{ unfold assignAndSave, bind in H. by rewrite Hget in H. }
  2:{ left. pose proof (readonly_getExistingByID _ _ _ _ Hget) as ->.
      unfold assignAndSave in H. rewrite (bind_err _ _ _ _ _ Hget) in H.
      inversion H; subst. eauto. }
  right. pose proof (readonly_getExistingByID _ _ _ _ Hget) as ->.
  pose proof Hget as Hget'.
  apply getExistingByID_ok_iff in Hget' as (Hne & HF & Hp & _).
  destruct (wf_lookup _ _ _ Hwf Hp) as (c & Hc & Hidc).
  rewrite (assignAndSave_run _ _ _ _ _ Hget Hc) in H.
  pose proof (lookup_lt_Some _ _ _ Hc) as Hlt.
  assert (∀ id', id' ≠ id → view (assigned p (assign c) s) id' = view s id') as Hothers.
  { intros id' Hne'. unfold view. simpl.
    destruct (Clients (repo s) !! id') as [p'|] eqn:Hp'; [simpl|done].
    apply list_lookup_insert_ne. intros ->. apply Hne'. by eapply wf_distinct. }
  assert (view (assigned p (assign c) s) id = Some (assign c)) as Hself.
  { unfold view. simpl. rewrite Hp. simpl. by apply list_lookup_insert_eq. }
  assert (wf (assigned p (assign c) s)) as Hwf1.
  { apply (wf_preserved s); [done..|]. intros q c0 Hc0.
    destruct (decide (q = p)) as [->|Hq].
    - simpl. rewrite list_lookup_insert_eq by done. simplify_eq. eauto.
    - simpl. rewrite list_lookup_insert_ne by done. eauto. }
  assert (<[clients.ID (assign c) := p]> (Clients (repo s)) = Clients (repo s)) as Hsame.
  { rewrite Hid, Hidc. by apply insert_id. }
  exists c. split; [unfold view; rewrite Hp; simpl; by rewrite Hc|].
  destruct (Failing (repo s) OpSave) as [e|] eqn:HS; inversion H; subst; clear H.
  - repeat split; eauto.
  - simpl. rewrite Hsame.
    assert (setRepo (setClients (Clients (repo s)) (repo s)) (assigned p (assign c) s)
            = assigned p (assign c) s) as ->.
    { unfold setRepo, setClients, assigned, setHeap. simpl. by destruct s as [h [] d]. }
    repeat split; eauto.
Qed.

(** X3: [SetACL] (lines 441-450) on a stored client: the client then shows the
    given group list and is otherwise as before, no other client changes and
    the repository's index is the same.  The assignment is made before the
    save, so it is in place also when [Save] returns an error. *)
Theorem SetACL_effect id allowedUserGroups s r s' :
  wf s →
  SetACL id allowedUserGroups s = Some (r, s') →
  (∃ e, getExistingByID id s = Some (Err e, s) ∧ r = Err e ∧ s' = s) ∨
  (∃ c, view s id = Some c ∧
        view s' id = Some (setAllowedUserGroups allowedUserGroups c) ∧
        (∀ id', id' ≠ id → view s' id' = view s id') ∧
        Clients (repo s') = Clients (repo s) ∧
        wf s' ∧
        (r = Ok tt ∨ ∃ e, Failing (repo s) OpSave = Some e ∧ r = Err e)).
Proof.
  intros Hwf H. by apply (assignAndSave_effect (setAllowedUserGroups allowedUserGroups) id s).
Qed.

(** X4: [SetUpdatesStatus] (lines 452-461) on a stored client: the client then
    shows the given update status and is otherwise as before, no other
    client changes; the assignment stays also when [Save] returns an error. *)
Theorem SetUpdatesStatus_effect id updatesStatus s r s' :
  wf s →
  SetUpdatesStatus id updatesStatus s = Some (r, s') →
  (∃ e, getExistingByID id s = Some (Err e, s) ∧ r = Err e ∧ s' = s) ∨
  (∃ c, view s id = Some c ∧
        view s' id = Some (clients.setUpdatesStatus updatesStatus c) ∧
        (∀ id', id' ≠ id → view s' id' = view s id') ∧
        Clients (repo s') = Clients (repo s) ∧
        wf s' ∧
        (r = Ok tt ∨ ∃ e, Failing (repo s) OpSave = Some e ∧ r = Err e)).
Proof.
  intros Hwf H. by apply (assignAndSave_effect (clients.setUpdatesStatus updatesStatus) id s).
Qed.

(** ** Access checks *)

Lemma collectNoAccess_run userGroups cs objs acc s :
  pointTo s cs objs →
  collectNoAccess userGroups cs acc s = Some (Ok (acc ++ deniedIDs userGroups objs), s).
Proof.
  intros H. revert acc. induction H as [|p c cs objs Hc _ IH]; intros acc; simpl.
  - by rewrite app_nil_r.
  - unfold bind, load. rewrite Hc. rewrite IH. unfold deniedIDs. simpl.
    destruct (negb (HasAccess c userGroups)); simpl; [by rewrite <- app_assoc | done].
Qed.

Lemma CheckClientsAccess_run cs objs user s :
  pointTo s cs objs →
  CheckClientsAccess cs user s =
  if clients.IsAdmin user then Some (Ok tt, s)
  else match deniedIDs (clients.GetGroups user) objs with
       | [] => Some (Ok tt, s)
       | ids => Some (Err (errAccessDenied ids), s)
       end.
Proof.
  intros Hobjs. unfold CheckClientsAccess. destruct (clients.IsAdmin user); [done|].
  rewrite (bind_ok _ _ _ _ _ (collectNoAccess_run _ _ _ [] _ Hobjs)). simpl.
  by destruct (deniedIDs _ _).
Qed.

Lemma deniedIDs_nil userGroups objs :
  deniedIDs userGroups objs = [] ↔ Forall (fun c => HasAccess c userGroups = true) objs.
Proof.
  unfold deniedIDs. induction objs as [|c objs IH]; simpl; [done|].
  destruct (HasAccess c userGroups) eqn:Hc; simpl.
  - rewrite IH. split; [by constructor | by inversion 1].
  - split; [done|]. inversion 1. congruence.
Qed.

(** X5: [CheckClientsAccess] (lines 474-496): an admin passes without any client
    being looked at; anybody else passes exactly when every client grants
    access to one of the user's groups, and is otherwise refused with one
    forbidden error that names the refusing clients, all of them, in the
    order given.  Nothing is changed. *)
Theorem CheckClientsAccess_outcome cs objs user s :
  (clients.IsAdmin user = true → CheckClientsAccess cs user s = Some (Ok tt, s)) ∧
  (clients.IsAdmin user = false → pointTo s cs objs →
   (CheckClientsAccess cs user s = Some (Ok tt, s) ↔
    Forall (fun c => HasAccess c (clients.GetGroups user) = true) objs) ∧
   (deniedIDs (clients.GetGroups user) objs ≠ [] →
    CheckClientsAccess cs user s
      = Some (Err (errAccessDenied (deniedIDs (clients.GetGroups user) objs)), s))).
Proof.
  split; [unfold CheckClientsAccess; by intros ->|].
  intros Ha Hobjs. rewrite (CheckClientsAccess_run _ _ _ _ Hobjs), Ha.
  pose proof (deniedIDs_nil (clients.GetGroups user) objs) as Hiff.
  destruct (deniedIDs (clients.GetGroups user) objs) as [|d ds] eqn:Hd.
  - split; [|done]. split; [intros _; by apply Hiff | done].
  - split; [|done]. split; [done|]. intros HF. by apply Hiff in HF.
Qed.

(** X6: [CheckClientAccess] (lines 463-472): the client has to exist before
    anything else counts, also for an admin; for a stored client the answer
    is that of the access check on this one client, and a refusal names the
    id asked for. *)
Theorem CheckClientAccess_outcome id user s :
  (∀ e, getExistingByID id s = Some (Err e, s) →
        CheckClientAccess id user s = Some (Err e, s)) ∧
  (∀ c, wf s → id ≠ EmptyString →
        Failing (repo s) OpGetByID = None → view s id = Some c →
        CheckClientAccess id user s =
        if clients.IsAdmin user || HasAccess c (clients.GetGroups user)
        then Some (Ok tt, s)
        else Some (Err (errAccessDenied [id]), s)).
Proof.
  split.
  - intros e H. unfold CheckClientAccess. by rewrite (bind_err _ _ _ _ _ H).
  - intros c Hwf Hne HF Hview. unfold view in Hview.
    destruct (Clients (repo s) !! id) as [p|] eqn:Hp; [simpl in Hview|done].
    destruct (wf_lookup _ _ _ Hwf Hp) as (c' & Hc' & Hid). simplify_eq.
    assert (getExistingByID (clients.ID c) s = Some (Ok p, s)) as Hget.
    { apply getExistingByID_ok_iff. done. }
    unfold CheckClientAccess. rewrite (bind_ok _ _ _ _ _ Hget).
    assert (pointTo s [p] [c]) as Hpt by (by repeat constructor).
    rewrite (CheckClientsAccess_run _ _ _ _ Hpt).
    destruct (clients.IsAdmin user); [done|]. unfold deniedIDs. simpl.
    by destruct (HasAccess c (clients.GetGroups user)).
Qed.

(** ** [strconv.Itoa] and [strconv.Atoi] *)

Lemma digit_of_pretty_N_char d :
  (d < 10)%N → digit_of (pretty_N_char d) = Some (Z.of_N d).
Proof.
  intros Hd.
  assert (d = 0 ∨ d = 1 ∨ d = 2 ∨ d = 3 ∨ d = 4 ∨ d = 5 ∨ d = 6 ∨ d = 7 ∨ d = 8 ∨ d = 9)%N
    as Hcases by lia.
  repeat (destruct Hcases as [->|Hcases]; [reflexivity|]). by subst.
Qed.

Lemma scanDigits_step c s n d :
  digit_of c = Some d → n < maxUint64 / 10 + 1 → 10 * n + d ≤ maxUint64 →
  scanDigits (String c s) n = scanDigits s (10 * n + d).
Proof.
  intros Hc Hn Hd. cbn [scanDigits]. rewrite Hc.
  destruct (Z.leb_spec (maxUint64 / 10 + 1) n); [lia|].
  destruct (Z.ltb_spec maxUint64 (10 * n + d)); [lia | done].
Qed.

Lemma scanDigits_pretty_N_go x s :
  (0 < x)%N → Z.of_N x ≤ maxUint64 →
  scanDigits (pretty_N_go x s) 0 = scanDigits s (Z.of_N x).
Proof.
  revert s. induction (N.lt_wf_0 x) as [x _ IH]. intros s Hpos Hmax.
  rewrite pretty_N_go_step by done.
  assert ((x `mod` 10) < 10)%N as Hd by (apply N.mod_lt; lia).
  pose proof (N.div_mod x 10 ltac:(lia)) as Hx.
  assert (maxUint64 = 18446744073709551615) as Hval by reflexivity.
  assert (maxUint64 / 10 + 1 = 1844674407370955162) as Hcut by reflexivity.
  pose proof (digit_of_pretty_N_char _ Hd) as Hdigit.
  revert IH Hd Hx Hdigit. generalize (x `div` 10)%N (x `mod` 10)%N.
  intros q d IH Hd Hx Hdigit.
  destruct (decide (q = 0)%N) as [->|H0].
  - rewrite pretty_N_go_0, (scanDigits_step _ _ 0 _ Hdigit); [f_equal|..]; lia.
  - rewrite IH, (scanDigits_step _ _ _ _ Hdigit); [f_equal|..]; lia.
Qed.

Lemma pretty_N_go_head x s :
  (0 < x)%N → ∃ d rest, pretty_N_go x s = String (pretty_N_char d) rest.
Proof.
  revert s. induction (N.lt_wf_0 x) as [x _ IH]. intros s Hpos.
  rewrite pretty_N_go_step by done.
  destruct (decide (x `div` 10 = 0)%N) as [H0|H0].
  - rewrite H0, pretty_N_go_0. eauto.
  - apply IH; [apply N.div_lt; lia | by apply N.neq_0_lt_0].
Qed.

Lemma ParseUint_pretty_N_go x :
  (0 < x)%N → Z.of_N x ≤ maxUint64 → ParseUint (pretty_N_go x EmptyString) = ScanValue (Z.of_N x).
Proof.
  intros Hpos Hmax. destruct (pretty_N_go_head x EmptyString Hpos) as (d & rest & Heq).
  unfold ParseUint. rewrite Heq, <- Heq. by rewrite scanDigits_pretty_N_go.
Qed.

Lemma Atoi_digit_head d rest :
  Atoi (String (pretty_N_char d) rest) =
  match ParseUint (String (pretty_N_char d) rest) with
  | ScanSyntax => Err (NumError "Atoi" (String (pretty_N_char d) rest) ErrSyntax)
  | ScanRange => Err (NumError "Atoi" (String (pretty_N_char d) rest) ErrRange)
  | ScanValue un =>
      if 2 ^ 63 <=? un then Err (NumError "Atoi" (String (pretty_N_char d) rest) ErrRange)
      else Ok un
  end.
Proof.
  assert (pretty_N_char d ∈ ["0"; "1"; "2"; "3"; "4"; "5"; "6"; "7"; "8"; "9"]%char) as Hin.
  { unfold pretty_N_char. repeat case_match; repeat (first [by left | right]). }
  repeat (apply elem_of_cons in Hin as [->|Hin]; [reflexivity|]).
  by apply elem_of_nil in Hin.
Qed.

(** The round trip of a port through its decimal text: [strconv.Atoi] reads
    back what [strconv.Itoa] wrote, for every [int]. *)
Lemma Atoi_Itoa n : - 2 ^ 63 ≤ n < 2 ^ 63 → Atoi (Itoa n) = Ok n.
Proof.
  intros Hn. unfold Itoa, pretty, pretty_Z. destruct n as [|p|p].
  - reflexivity.
  - unfold pretty, pretty_positive, pretty, pretty_N.
    rewrite decide_False by done.
    destruct (pretty_N_go_head (N.pos p) EmptyString ltac:(lia)) as (d & rest & Heq).
    rewrite Heq, Atoi_digit_head, <- Heq.
    rewrite ParseUint_pretty_N_go by (unfold maxUint64; lia).
    destruct (_ <=? _) eqn:E; [apply Z.leb_le in E; lia | done].
  - unfold pretty, pretty_positive, pretty, pretty_N.
    rewrite decide_False by done.
    change (Atoi ("-" +:+ pretty_N_go (N.pos p) EmptyString))
      with (match ParseUint (pretty_N_go (N.pos p) EmptyString) with
            | ScanSyntax => Err (NumError "Atoi" ("-" +:+ pretty_N_go (N.pos p) EmptyString) ErrSyntax)
            | ScanRange => Err (NumError "Atoi" ("-" +:+ pretty_N_go (N.pos p) EmptyString) ErrRange)
            | ScanValue un =>
                if negb true && (2 ^ 63 <=? un)
                then Err (NumError "Atoi" ("-" +:+ pretty_N_go (N.pos p) EmptyString) ErrRange)
                else if true && (2 ^ 63 <? un)
                     then Err (NumError "Atoi" ("-" +:+ pretty_N_go (N.pos p) EmptyString) ErrRange)
                     else Ok (- un)
            end).
    rewrite ParseUint_pretty_N_go by (unfold maxUint64; lia). simpl negb. simpl andb.
    destruct (_ <? _) eqn:E; [apply Z.ltb_lt in E; lia | done].
Qed.

(** X7: The text that [startClientTunnels] writes for a drawn port (line 324,
    [strconv.Itoa]) always passes the integer check of [checkLocalPort]
    (lines 354-379): the port check of that text never gives the "Invalid
    local port" error and decides on the very port that was drawn: outside
    the allowed set it is a bad request, busy it is a conflict, otherwise it
    passes. *)
Theorem checkLocalPort_of_drawn_port port r s :
  - 2 ^ 63 ≤ port < 2 ^ 63 →
  checkLocalPort (chshare.LocalPort (chshare.withRandomPort port r)) s =
  if negb (IsPortAllowed (portDistributor s) port)
  then Some (Err (errPortNotAllowed port), s)
  else if IsPortBusy (portDistributor s) port
       then Some (Err (errPortBusy port), s)
       else Some (Ok tt, s).
Proof.
  intros Hport. rewrite checkLocalPort_run. simpl. by rewrite (Atoi_Itoa _ Hport).
Qed.

(** ** [sort.Strings] *)

Lemma insertSorted_perm x l : insertSorted x l ≡ₚ x :: l.
Proof.
  induction l as [|y l IH]; simpl; [done|].
  destruct (String.leb x y); [done|]. rewrite IH. apply Permutation_swap.
Qed.

Lemma sortStrings_perm l : sortStrings l ≡ₚ l.
Proof.
  induction l as [|x l IH]; simpl; [done|].
  unfold sortStrings in *. simpl. by rewrite insertSorted_perm, IH.
Qed.

Lemma insertSorted_ascending x l : ascending l → ascending (insertSorted x l).
Proof.
  unfold ascending. induction 1 as [|y l Hl IH Hy]; simpl.
  - by repeat constructor.
  - destruct (String.leb x y) eqn:Hxy.
    + constructor; [by constructor | by constructor].
    + constructor; [done|].
      assert (String.leb y x = true) as Hyx.
      { destruct (String.leb_total x y) as [H|H]; [congruence | done]. }
      destruct l as [|z l]; simpl in *; [by constructor|].
      destruct (String.leb x z); constructor; [done | by inversion Hy].
Qed.

Lemma sortStrings_ascending l : ascending (sortStrings l).
Proof.
  induction l as [|x l IH]; simpl; [constructor|].
  unfold sortStrings in *. simpl. by apply insertSorted_ascending.
Qed.

Section MoreVerification.

Variable ParseTunnelACL : string -> result clients.TunnelACL.
Variable SplitHostPort : string -> result string.
Variable BelongsTo : clients.Client -> cgroups.ClientGroup -> bool.

(** ** Group population *)

Lemma populate_run all objs groups s :
(∀ c g ids, BelongsTo c (cgroups.setClientIDs ids g) = BelongsTo c g) →
pointTo s all objs →
populate BelongsTo all groups s =
Some (Ok ((fun g => cgroups.setClientIDs
                      (cgroups.ClientIDs g ++ memberIDs BelongsTo objs g) g) <$> groups), s).
Proof.
intros Hindep H. revert groups. induction H as [|p c all objs Hc _ IH]; intros groups.
- simpl. unfold ret. do 3 f_equal. rewrite <- (list_fmap_id groups) at 1.
  apply list_fmap_ext. intros _ g _. unfold memberIDs. simpl. rewrite app_nil_r.
  by destruct g.
- simpl. unfold bind, load. rewrite Hc, IH. do 3 f_equal.
  rewrite <- list_fmap_compose. apply list_fmap_ext. intros _ g _. simpl.
  unfold appendTo, memberIDs. simpl.
  assert (List.filter (fun c0 => BelongsTo c0 (if BelongsTo c g
             then cgroups.setClientIDs (cgroups.ClientIDs g ++ [clients.ID c]) g else g)) objs
          = List.filter (fun c0 => BelongsTo c0 g) objs) as ->.
  { apply filter_ext. intros c0. destruct (BelongsTo c g); [apply Hindep | done]. }
  destruct (BelongsTo c g); simpl; [by rewrite <- app_assoc | done].
Qed.

(** X8: [PopulateGroupsWithUserClients] (lines 185-197), for a membership test
  that does not look at the member list, and groups that are distinct
  objects: every group keeps its identity
  and gets, after the ids it already had, the id of every client of the
  user that belongs to it; the list is then in ascending order.  Ids that
  were there are kept, so a second call adds the members once more. *)
Theorem PopulateGroupsWithUserClients_members groups user all objs s :
(∀ c g ids, BelongsTo c (cgroups.setClientIDs ids g) = BelongsTo c g) →
repo_GetUserClients user s = Some (Ok all, s) →
pointTo s all objs →
∃ gs, PopulateGroupsWithUserClients BelongsTo groups user s = Some (Ok gs, s) ∧
      Forall2 (fun g g' =>
                 cgroups.ID g' = cgroups.ID g ∧
                 ascending (cgroups.ClientIDs g') ∧
                 cgroups.ClientIDs g' ≡ₚ cgroups.ClientIDs g ++ memberIDs BelongsTo objs g)
              groups gs.
Proof.
intros Hindep Hget Hobjs. unfold PopulateGroupsWithUserClients, bind at 1, catch.
rewrite Hget. rewrite (bind_ok _ _ _ _ _ (populate_run _ _ groups _ Hindep Hobjs)).
eexists. split; [reflexivity|].
induction groups as [|g groups IH]; simpl; constructor; [|exact IH].
simpl. split; [done|]. split; [apply sortStrings_ascending | apply sortStrings_perm].
Qed.

(** ** Registration: what the new record holds *)

Lemma lookupOld_found id req s o remotes s' :
lookupOld id req s = Some (Ok (o, remotes), s') → o = view s id.
Proof.
unfold lookupOld. intros H. apply bind_inv_ok in H as (q & s1 & Hget & H).
apply mapErr_inv in Hget as ([q'|?] & Hget & Hq); [|done]. inversion Hq; subst q'; clear Hq.
apply repo_GetByID_ok in Hget as (_ & -> & ->). unfold view.
destruct (Clients (repo s) !! id) as [p|]; simpl; [|by inversion H].
unfold bind, load in H. destruct (heap s !! p) as [old|]; [|done].
destruct (clients.DisconnectedAt old); [|done]. cbv zeta in H.
destruct (Nat.ltb _ _); by inversion H.
Qed.

(** X9: A successful [StartClient] (lines 211-292) stores, under the client id,
  a connected client made from the arguments and the request.  From a
  record that was stored under the id before, it takes over the update
  status and nothing else: the allowed user groups of the new record are
  empty whatever the old record allowed. *)
Theorem StartClient_new_record ctx a id conn multi req clog s client s' :
StartClient ParseTunnelACL SplitHostPort ctx a id conn multi req clog s = Some (Ok client, s') →
∃ c' host,
  heap s' !! client = Some c' ∧ view s' id = Some c' ∧
  SplitHostPort (clients.RemoteAddr conn) = Ok host ∧
  clients.ID c' = id ∧ clients.ClientAuthID c' = a ∧
  clients.Address c' = host ∧ clients.Connection c' = conn ∧
  clients.DisconnectedAt c' = None ∧
  clients.Name c' = chshare.Name req ∧ clients.Hostname c' = chshare.Hostname req ∧
  clients.Tags c' = chshare.Tags req ∧ clients.Version c' = chshare.Version req ∧
  clients.AllowedUserGroups c' = [] ∧
  clients.UpdatesStatus c' = (old ← view s id; clients.UpdatesStatus old).
Proof.
intros H. apply StartClient_ok in H
  as (old & remotes & host & ts & s1 & c0 & Hold & _ & Hhost & -> & -> & _ & [ts' Hts'] & _ & ->).
apply lookupOld_found in Hold as ->.
eexists _, host. split; [exact Hts'|]. split.
{ unfold view. simpl. rewrite lookup_insert_eq. exact Hts'. }
split; [done|]. destruct (view s id) as [old|]; simpl; by repeat split.
Qed.

(** X10: A failed [StartClient] (lines 211-292) stores nothing, whatever made
  it fail: a repository that cannot be read or written, an id or an auth
  id in use, an address without host, a tunnel that cannot be started.
  The repository is as it was and every id shows the client it showed. *)
Theorem StartClient_failure_stores_nothing ctx a id conn multi req clog s e s' :
wf s →
StartClient ParseTunnelACL SplitHostPort ctx a id conn multi req clog s = Some (Err e, s') →
repo s' = repo s ∧ ∀ id', view s' id' = view s id'.
Proof.
intros Hwf H.
destruct (StartClient_failure_frame _ _ _ _ _ _ _ _ _ _ _ _ Hwf H) as [Hrepo Hview].
split; [exact Hrepo|]. intros id'. apply Hview.
Qed.

(** ** Adding tunnels to a registered client *)


(** X12: A failed [StartClientTunnels] saves nothing: the repository is as it
  was, and so is every object but the client itself, which differs at most
  in its tunnel list, where the tunnels started before the failure stay. *)
Theorem StartClientTunnels_failure client remotes s e s' :
StartClientTunnels ParseTunnelACL client remotes s = Some (Err e, s') →
repo s' = repo s ∧
(∀ p, p ≠ client → heap s' !! p = heap s !! p) ∧
(∀ c, heap s !! client = Some c →
      ∃ ts, heap s' !! client = Some (clients.setTunnels ts c)).
Proof.
intros H. unfold StartClientTunnels in H.
assert (tunnelsFrame client s s') as (Hrepo & _ & Hother & Hself); [|done].
apply bind_inv in H as [(ts0 & s1 & Htun & H)|(e' & Htun & _)];
  [|by eapply startClientTunnels_frame].
pose proof (startClientTunnels_frame _ _ _ _ _ _ Htun) as Hframe.
apply bind_inv in H as [([] & s2 & Hsave & H)|(e' & Hsave & _)]; [by inversion H|].
unfold repo_Save, bind at 1, load at 1 in Hsave.
destruct (heap s1 !! client) as [c1|] eqn:Hc1; [|done].
assert (repo_Save client s1 = Some (Err e', s')) as Hsave'.
{ unfold repo_Save, bind at 1, load at 1. by rewrite Hc1. }
rewrite (repo_Save_run _ _ _ Hc1) in Hsave'.
destruct (Failing _ _); inversion Hsave'; by subst.
Qed.

(** ** Connected clients and offline deletion *)

(** X13: [DeleteOffline] (lines 415-429) never removes a connected client: for a
  non-empty id with a connected record it returns the "Client is active"
  bad request and changes nothing; so it does right after a successful
  [StartClient] under that id. *)
Theorem DeleteOffline_refuses_connected id s :
id ≠ EmptyString →
(connected s id → DeleteOffline id s = Some (Err errClientActive, s)) ∧
(∀ ctx a conn multi req clog s0 client,
   StartClient ParseTunnelACL SplitHostPort ctx a id conn multi req clog s0
     = Some (Ok client, s) →
   DeleteOffline id s = Some (Err errClientActive, s)).
Proof.
intros Hne.
assert (connected s id → DeleteOffline id s = Some (Err errClientActive, s)) as Hfirst.
{ intros Hc. destruct (connected_getExistingByID _ _ Hne Hc) as (p & c & Hget & Hp & Hd).
  by rewrite (DeleteOffline_run _ _ _ _ Hget Hp), Hd. }
split; [exact Hfirst|]. intros ctx a conn multi req clog s0 client H.
apply Hfirst. by eapply StartClient_registers.
Qed.

(** X14: [Terminate] and then [DeleteOffline]: with a retention duration and a
  working repository, a client that has a record under a non-empty id can
  be deleted offline as soon as it has been terminated; its record is then
  gone. *)
Theorem Terminate_then_DeleteOffline client now s c d :
heap s !! client = Some c →
healthy s →
KeepLostClients (repo s) = Some d →
is_Some (Clients (repo s) !! clients.ID c) →
clients.ID c ≠ EmptyString →
∃ s1 s2, Terminate client now s = Some (Ok tt, s1) ∧
         DeleteOffline (clients.ID c) s1 = Some (Ok tt, s2) ∧
         view s2 (clients.ID c) = None ∧
         heap s2 !! client = Some (clients.setDisconnectedAt (Some now) c).
Proof.
intros Hc Hh Hk [q Hq] Hne.
rewrite (Terminate_retention_run _ _ _ _ _ Hk Hc), (Hh OpGetByID), Hq.
pose proof (markDisconnected_lookup _ _ now _ Hc) as Hnew.
rewrite (repo_Save_run _ _ _ Hnew). simpl. rewrite (Hh OpSave).
set (s1 := setRepo _ _).
assert (getExistingByID (clients.ID c) s1 = Some (Ok client, s1)) as Hget.
{ apply getExistingByID_ok_iff. repeat split; [done | apply (Hh OpGetByID) |].
  simpl. apply lookup_insert_eq. }
assert (heap s1 !! client = Some (clients.setDisconnectedAt (Some now) c)) as Hc1 by exact Hnew.
exists s1. eexists. split; [done|].
rewrite (DeleteOffline_run _ _ _ _ Hget Hc1). simpl.
rewrite (repo_Delete_run _ _ _ Hc1). simpl. rewrite (Hh OpDelete).
split; [done|]. split; [|exact Hnew].
unfold view. simpl. by rewrite lookup_delete_eq.
Qed.

(** ** The registry invariant, operation by operation *)

Lemma StartClientTunnels_wf client remotes s r s' :
wf s → StartClientTunnels ParseTunnelACL client remotes s = Some (r, s') → wf s'.
Proof.
intros Hwf H. unfold StartClientTunnels in H.
apply bind_inv in H as [(ts0 & s1 & Htun & H)|(e' & Htun & _)].
2:{ eapply tunnelsFrame_wf; [exact Hwf | by eapply startClientTunnels_frame]. }
assert (wf s1) as Hwf1.
{ eapply tunnelsFrame_wf; [exact Hwf | by eapply startClientTunnels_frame]. }
destruct (heap s1 !! client) as [c1|] eqn:Hc1.
- apply bind_inv in H as [([] & s2 & Hsave & H)|(e' & Hsave & _)].
  + inversion H; subst. rewrite (repo_Save_run _ _ _ Hc1) in Hsave.
    destruct (Failing _ _); inversion Hsave; subst. by eapply wf_insert.
  + rewrite (repo_Save_run _ _ _ Hc1) in Hsave.
    destruct (Failing _ _); inversion Hsave; by subst.
- unfold bind, repo_Save, bind, load in H. by rewrite Hc1 in H.
Qed.

Lemma DeleteOffline_wf id s r s' :
wf s → DeleteOffline id s = Some (r, s') → wf s'.
Proof.
intros Hwf H. unfold DeleteOffline in H.
apply bind_inv in H as [(p & s1 & Hget & H)|(e & Hget & _)].
2:{ by apply readonly_getExistingByID in Hget as ->. }
apply readonly_getExistingByID in Hget as ->.
unfold bind, load in H. destruct (heap s !! p) as [c|]; [|done].
destruct (clients.DisconnectedAt c); [by eapply repo_Delete_wf | by inversion H; subst].
Qed.

(** X15: Every operation of the service that writes keeps the registry
  invariant: after [StartClient], [StartClientTunnels], [Terminate],
  [ForceDelete], [DeleteOffline], [SetACL] and [SetUpdatesStatus], whether
  they succeed or fail, every stored pointer is live and leads to a client
  that carries the id it is stored under. *)
Theorem service_keeps_registry_invariant s s' :
wf s →
(∀ ctx a id conn multi req clog r,
   StartClient ParseTunnelACL SplitHostPort ctx a id conn multi req clog s = Some (r, s') →
   wf s') ∧
(∀ client remotes r,
   StartClientTunnels ParseTunnelACL client remotes s = Some (r, s') → wf s') ∧
(∀ client now r, Terminate client now s = Some (r, s') → wf s') ∧
(∀ client r, ForceDelete client s = Some (r, s') → wf s') ∧
(∀ id r, DeleteOffline id s = Some (r, s') → wf s') ∧
(∀ id groups r, SetACL id groups s = Some (r, s') → wf s') ∧
(∀ id status r, SetUpdatesStatus id status s = Some (r, s') → wf s').
Proof.
intros Hwf. repeat split.
- intros. by eapply StartClient_wf.
- intros. by eapply StartClientTunnels_wf.
- intros. by eapply Terminate_wf.
- intros. by eapply ForceDelete_wf.
- intros. by eapply DeleteOffline_wf.
- intros id groups r H.
  apply (assignAndSave_effect (setAllowedUserGroups groups)) in H
    as [(e & _ & _ & ->)|(c & _ & _ & _ & _ & Hwf' & _)]; done.
- intros id status r H.
  apply (assignAndSave_effect (clients.setUpdatesStatus status)) in H
    as [(e & _ & _ & ->)|(c & _ & _ & _ & _ & Hwf' & _)]; done.
Qed.

End MoreVerification.

(** ** The tables of supported list options *)

(** X16: Whatever can be filtered or sorted by, and every default field of a
    client list (lines 63-120), is a supported field of the [clients]
    resource. *)
Theorem supported_options_are_fields k :
  index clientsSupportedFilters k = true ∨
  index clientsSupportedSorts k = true ∨
  (∃ defaults, clientsListDefaultFields !! "fields[clients]" = Some defaults ∧ k ∈ defaults) →
  ∃ fields, clientsSupportedFields !! "clients" = Some fields ∧ index fields k = true.
Proof.
  intros H. eexists. split; [reflexivity|].
  assert (k ∈ (fst <$> map_to_list clientsSupportedFilters) ++
              (fst <$> map_to_list clientsSupportedSorts) ++ ["id"; "name"; "hostname"]) as Hin.
  { rewrite !elem_of_app. destruct H as [H|[H|(defaults & Hd & H)]].
    - left. unfold index in H. destruct (clientsSupportedFilters !! k) as [b|] eqn:E; [|done].
      apply list_elem_of_fmap. exists (k, b). split; [done|]. by apply elem_of_map_to_list.
    - right. left. unfold index in H. destruct (clientsSupportedSorts !! k) as [b|] eqn:E; [|done].
      apply list_elem_of_fmap. exists (k, b). split; [done|]. by apply elem_of_map_to_list.
    - right. right. vm_compute in Hd. by inversion Hd; subst. }
  vm_compute in Hin.
  repeat (apply elem_of_cons in Hin as [->|Hin]; [vm_compute; reflexivity|]).
  by apply elem_of_nil in Hin.
Qed.

(** * Errors of collaborators *)

Section Propagation.

Variable ParseTunnelACL : string -> result clients.TunnelACL.
Variable SplitHostPort : string -> result string.
Variable BelongsTo : clients.Client -> cgroups.ClientGroup -> bool.
Variable repo_Count repo_CountActive repo_CountDisconnected : M Z.
Variable repo_GetActiveByID : string -> M (option loc).
Variable repo_GetAll : M (list loc).
Variable repo_GetUserClientsFiltered :
clients.User -> list query.FilterOption.t -> M (list loc).

Lemma surfaces_first {A B} (m : M A) (k : A → M B) s : surfaces m s (bind m k) s.
Proof. intros e s' H. by apply bind_err. Qed.

Lemma surfaces_next {A B C} (m : M A) (k : A → M B) (callee : M C) wrap s a s1 reached :
m s = Some (Ok a, s1) →
surfacesAs wrap callee reached (k a) s1 →
surfacesAs wrap callee reached (bind m k) s.
Proof. intros Hm Hk e s' H. rewrite (bind_ok _ _ _ _ _ Hm). by apply Hk. Qed.

Lemma surfaces_mapErr {A} (f : error → error) (m : M A) s :
surfacesAs f m s (mapErr f m) s.
Proof. intros e s' H. by apply mapErr_err. Qed.

Lemma startTunnelsLoop_app client pre post tunnels s :
startTunnelsLoop ParseTunnelACL client (pre ++ post) tunnels s =
match startTunnelsLoop ParseTunnelACL client pre tunnels s with
| Some (Ok ts, s1) => startTunnelsLoop ParseTunnelACL client post ts s1
| Some (Err e, s1) => Some (Err e, s1)
| None => None
end.
Proof.
revert tunnels s. induction pre as [|remote pre IH]; intros tunnels s; [done|].
simpl. unfold bind.
destruct (resolveLocal remote s) as [[[r|e] s1]|]; [|done..].
destruct (parseACL ParseTunnelACL r s1) as [[[acl|e] s2]|]; [|done..].
destruct (mapErr _ _ s2) as [[[t|e] s3]|]; [|done..].
apply IH.
Qed.

Lemma startClientTunnels_at client pre remote rest s s0 ts s1 :
Refresh s = Some (Ok tt, s0) →
startTunnelsLoop ParseTunnelACL client pre [] s0 = Some (Ok ts, s1) →
startClientTunnels ParseTunnelACL client (pre ++ remote :: rest) s
  = startTunnelsLoop ParseTunnelACL client (remote :: rest) ts s1.
Proof.
intros Href Hpre. unfold startClientTunnels. rewrite (bind_ok _ _ _ _ _ Href).
by rewrite startTunnelsLoop_app, Hpre.
Qed.

(** C9, as amended (lines 151-520): every operation of the service that
  returns an error hands on the error of each call it makes, to the
  repository, to the port distributor, to the client ([StartTunnel],
  [Close]), to the ACL parser, to [net.SplitHostPort] and to
  [strconv.Atoi].  The error comes out as it is, or wrapped
  ([checkLocalPort] for [Atoi], [startClientTunnels] for [StartTunnel],
  [StartClient] for [SplitHostPort], [getExistingByID] for [GetByID]), or,
  for [GetByID] in [StartClient], replaced by an error of the service's
  own; the operations that only pass a repository call on return what it
  returns.  [PopulateGroupsWithUserClients] is the exception: it returns
  no error at all, and when [GetUserClients] fails it goes on with no
  clients and only sorts the member lists it was given. *)
Theorem collaborator_errors s :
(* checkLocalPort *)
(∀ port e, Atoi port = Err e →
           checkLocalPort port s = Some (Err (errInvalidLocalPort port e), s)) ∧
(* startClientTunnels *)
(∀ client remotes,
   surfaces Refresh s (startClientTunnels ParseTunnelACL client remotes) s) ∧
(∀ client pre remote rest s0 ts s1,
   Refresh s = Some (Ok tt, s0) →
   startTunnelsLoop ParseTunnelACL client pre [] s0 = Some (Ok ts, s1) →
   (chshare.IsLocalSpecified remote = false →
    surfaces GetRandomPort s1
      (startClientTunnels ParseTunnelACL client (pre ++ remote :: rest)) s) ∧
   (chshare.IsLocalSpecified remote = true →
    surfaces (checkLocalPort (chshare.LocalPort remote)) s1
      (startClientTunnels ParseTunnelACL client (pre ++ remote :: rest)) s) ∧
   (∀ r s2 a e,
      resolveLocal remote s1 = Some (Ok r, s2) →
      chshare.ACL r = Some a → ParseTunnelACL a = Err e →
      startClientTunnels ParseTunnelACL client (pre ++ remote :: rest) s = Some (Err e, s2)) ∧
   (∀ r s2 acl,
      resolveLocal remote s1 = Some (Ok r, s2) →
      parseACL ParseTunnelACL r s2 = Some (Ok acl, s2) →
      surfacesAs cantCreateTunnel (Client_StartTunnel client r acl) s2
        (startClientTunnels ParseTunnelACL client (pre ++ remote :: rest)) s)) ∧
(* StartClient *)
(∀ ctx a id conn multi req clog,
   surfacesAs (fun _ => errGetClient id) (repo_GetByID id) s
     (StartClient ParseTunnelACL SplitHostPort ctx a id conn multi req clog) s) ∧
(∀ ctx a id conn multi req clog old remotes,
   lookupOld id req s = Some (Ok (old, remotes), s) →
   checkAuthID multi a id s = Some (Ok tt, s) →
   (∀ e, SplitHostPort (clients.RemoteAddr conn) = Err e →
         StartClient ParseTunnelACL SplitHostPort ctx a id conn multi req clog s
           = Some (Err (errGetHost (clients.RemoteAddr conn) e), s)) ∧
   (∀ host,
      SplitHostPort (clients.RemoteAddr conn) = Ok host →
      let client := length (heap s) in
      let s0 := setHeap (heap s ++ [carryOver old (newClient ctx a id conn req clog host)]) s in
      surfaces (startClientTunnels ParseTunnelACL client remotes) s0
        (StartClient ParseTunnelACL SplitHostPort ctx a id conn multi req clog) s ∧
      (∀ ts s1,
         startClientTunnels ParseTunnelACL client remotes s0 = Some (Ok ts, s1) →
         surfaces (repo_Save client) s1
           (StartClient ParseTunnelACL SplitHostPort ctx a id conn multi req clog) s))) ∧
(* StartClientTunnels *)
(∀ client remotes,
   surfaces (startClientTunnels ParseTunnelACL client remotes) s
     (StartClientTunnels ParseTunnelACL client remotes) s ∧
   (∀ ts s1,
      startClientTunnels ParseTunnelACL client remotes s = Some (Ok ts, s1) →
      surfaces (repo_Save client) s1 (StartClientTunnels ParseTunnelACL client remotes) s)) ∧
(* Terminate *)
(∀ client now,
   KeepLostClients (repo s) = None →
   surfaces (repo_Delete client) s (Terminate client now) s) ∧
(∀ client now c,
   is_Some (KeepLostClients (repo s)) → heap s !! client = Some c →
   let s1 := markDisconnected client c now s in
   surfaces (repo_GetByID (clients.ID c)) s1 (Terminate client now) s ∧
   (∀ p, repo_GetByID (clients.ID c) s1 = Some (Ok (Some p), s1) →
         surfaces (repo_Save client) s1 (Terminate client now) s)) ∧
(* ForceDelete *)
(∀ client c,
   heap s !! client = Some c →
   (is_Some (clients.DisconnectedAt c) →
    surfaces (repo_Delete client) s (ForceDelete client) s) ∧
   (clients.DisconnectedAt c = None →
    surfaces (Client_Close client) s (ForceDelete client) s ∧
    (∀ s1, Client_Close client s = Some (Ok tt, s1) →
           surfaces (repo_Delete client) s1 (ForceDelete client) s))) ∧
(* getExistingByID and the operations built on it *)
(∀ id, id ≠ EmptyString →
       surfacesAs (errFindClient id) (repo_GetByID id) s (getExistingByID id) s) ∧
(∀ id,
   surfaces (getExistingByID id) s (DeleteOffline id) s ∧
   (∀ p c, getExistingByID id s = Some (Ok p, s) → heap s !! p = Some c →
           is_Some (clients.DisconnectedAt c) →
           surfaces (repo_Delete p) s (DeleteOffline id) s)) ∧
(∀ id allowedUserGroups,
   surfaces (getExistingByID id) s (SetACL id allowedUserGroups) s ∧
   (∀ p c, getExistingByID id s = Some (Ok p, s) → heap s !! p = Some c →
           surfaces (repo_Save p) (assigned p (setAllowedUserGroups allowedUserGroups c) s)
             (SetACL id allowedUserGroups) s)) ∧
(∀ id updatesStatus,
   surfaces (getExistingByID id) s (SetUpdatesStatus id updatesStatus) s ∧
   (∀ p c, getExistingByID id s = Some (Ok p, s) → heap s !! p = Some c →
           surfaces (repo_Save p) (assigned p (clients.setUpdatesStatus updatesStatus c) s)
             (SetUpdatesStatus id updatesStatus) s)) ∧
(∀ id user, surfaces (getExistingByID id) s (CheckClientAccess id user) s) ∧
(* the operations that pass a repository call on *)
(Count repo_Count s = repo_Count s ∧
 CountActive repo_CountActive s = repo_CountActive s ∧
 CountDisconnected repo_CountDisconnected s = repo_CountDisconnected s ∧
 (∀ id, GetByID id s = repo_GetByID id s) ∧
 (∀ id, GetActiveByID repo_GetActiveByID id s = repo_GetActiveByID id s) ∧
 GetAll repo_GetAll s = repo_GetAll s ∧
 (∀ user filterOptions,
    GetUserClients repo_GetUserClientsFiltered user filterOptions s
      = repo_GetUserClientsFiltered user filterOptions s)) ∧
(* PopulateGroupsWithUserClients *)
(∀ groups user e s',
   repo_GetUserClients user s = Some (Err e, s') →
   PopulateGroupsWithUserClients BelongsTo groups user s
     = Some (Ok ((fun g => cgroups.setClientIDs (sortStrings (cgroups.ClientIDs g)) g)
                   <$> groups), s')) ∧
(∀ groups user r s1,
   PopulateGroupsWithUserClients BelongsTo groups user s = Some (r, s1) → ∃ gs, r = Ok gs).
Proof.
split; [|split; [|split; [|split; [|split; [|split; [|split; [|split; [|split;
  [|split; [|split; [|split; [|split; [|split; [|split; [|split]]]]]]]]]]]]]]].
- intros port e H. rewrite checkLocalPort_run. by rewrite H.
- intros client remotes. apply surfaces_first.
- intros client pre remote rest s0 ts s1 Href Hpre.
  pose proof (startClientTunnels_at client pre remote rest s s0 ts s1 Href Hpre) as Hat.
  split; [|split; [|split]].
  + intros Hrandom e s' H. rewrite Hat.
    apply (startTunnelsLoop_failures ParseTunnelACL).
    unfold resolveLocal. rewrite Hrandom. simpl. by rewrite (bind_err _ _ _ _ _ H).
  + intros Hgiven e s' H. rewrite Hat.
    apply (startTunnelsLoop_failures ParseTunnelACL).
    unfold resolveLocal. rewrite Hgiven. simpl. by rewrite (bind_err _ _ _ _ _ H).
  + intros r s2 a e Hres Hacl Hparse. rewrite Hat.
    apply (proj1 (proj2 (startTunnelsLoop_failures ParseTunnelACL _ _ _ _ _ _ _)) r Hres).
    unfold parseACL, fail. by rewrite Hacl, Hparse.
  + intros r s2 acl Hres Hacl e s' H. rewrite Hat.
    by apply (proj2 (proj2 (startTunnelsLoop_failures ParseTunnelACL _ _ _ _ _ _ _)) r acl s2).
- intros ctx a id conn multi req clog e s' H. unfold StartClient, lookupOld.
  by rewrite (bind_err _ _ _ _ _ (bind_err _ _ _ _ _ (mapErr_err _ _ _ _ _ H))).
- intros ctx a id conn multi req clog old remotes Hold Hauth. split.
  + intros e He. unfold StartClient.
    rewrite (bind_ok _ _ _ _ _ Hold), (bind_ok _ _ _ _ _ Hauth).
    unfold bind at 1, clientHostOf. by rewrite He.
  + intros host Hhost client s0.
    pose proof (StartClient_run ParseTunnelACL SplitHostPort ctx a id conn multi req clog
                  s old remotes host Hold Hauth Hhost) as Hrun.
    fold client in Hrun. fold s0 in Hrun. split.
    * intros e s' Htun. rewrite Hrun. by apply bind_err.
    * intros ts s1 Htun e s' Hsave. rewrite Hrun.
      rewrite (bind_ok _ _ _ _ _ Htun). by apply bind_err.
- intros client remotes. split; [apply surfaces_first|].
  intros ts s1 Htun e s' Hsave. unfold StartClientTunnels.
  rewrite (bind_ok _ _ _ _ _ Htun). by apply bind_err.
- intros client now Hk e s' H. by rewrite (Terminate_no_retention _ _ _ Hk).
- intros client now c [d Hk] Hc s1.
  pose proof (Terminate_retention_run _ now _ _ _ Hk Hc) as Hrun. fold s1 in Hrun.
  split.
  + intros e s' Hget. rewrite Hrun.
    rewrite repo_GetByID_run in Hget. simpl in Hget.
    destruct (Failing (repo s) OpGetByID); by inversion Hget.
  + intros p Hget e s' Hsave. rewrite Hrun.
    rewrite repo_GetByID_run in Hget. simpl in Hget.
    destruct (Failing (repo s) OpGetByID); [done|]. inversion Hget as [Hp]. by rewrite Hp.
- intros client c Hc. split.
  + intros [t Ht] e s' Hdel. by rewrite (ForceDelete_run _ _ _ Hc), Ht.
  + intros Hd. split.
    * intros e s' Hclose. unfold ForceDelete, bind at 1, load at 1. rewrite Hc, Hd.
      by rewrite (bind_err _ _ _ _ _ Hclose).
    * intros s1 Hclose e s' Hdel. unfold ForceDelete, bind at 1, load at 1. rewrite Hc, Hd.
      by rewrite (bind_ok _ _ _ _ _ Hclose).
- intros id Hne e s' Hget. unfold getExistingByID.
  destruct (String.eqb_spec id EmptyString); [done|].
  by rewrite (bind_err _ _ _ _ _ (mapErr_err _ _ _ _ _ Hget)).
- intros id. split; [apply surfaces_first|].
  intros p c Hget Hc [t Ht] e s' Hdel. by rewrite (DeleteOffline_run _ _ _ _ Hget Hc), Ht.
- intros id allowedUserGroups. split; [apply surfaces_first|].
  intros p c Hget Hc e s' Hsave. unfold SetACL. rewrite (bind_ok _ _ _ _ _ Hget).
  unfold bind at 1, load at 1. rewrite Hc. unfold bind at 1, store. rewrite Hc. exact Hsave.
- intros id updatesStatus. split; [apply surfaces_first|].
  intros p c Hget Hc e s' Hsave. unfold SetUpdatesStatus. rewrite (bind_ok _ _ _ _ _ Hget).
  unfold bind at 1, load at 1. rewrite Hc. unfold bind at 1, store. rewrite Hc. exact Hsave.
- intros id user. apply surfaces_first.
- by repeat split.
- intros groups user e s'. apply PopulateGroupsWithUserClients_swallows.
- intros groups user r s1. apply PopulateGroupsWithUserClients_never_fails.
Qed.

End Propagation.

(** ** Package [query]: properties *)

Section QueryProperties.

#[local] Arguments String.append !_ _ / : simpl nomatch.

Lemma append_empty_r (s : string) : s +:+ EmptyString = s.
Proof. induction s; simpl; congruence. Qed.

Lemma append_assoc (a b c : string) : (a +:+ b) +:+ c = a +:+ b +:+ c.
Proof. induction a; simpl; congruence. Qed.

Lemma countByte_app (c : ascii) (a b : string) :
  countByte c (a +:+ b) = (countByte c a + countByte c b)%nat.
Proof. induction a; simpl; [done|]. rewrite IHa. lia. Qed.

Lemma countByte_Join (c : ascii) (l : list string) (sep : string) :
  countByte c sep = 0%nat → countByte c (Join l sep) = sum_list (countByte c <$> l).
Proof.
  intros Hsep. induction l as [|e [|e' l] IH]; [done|simpl; lia|].
  change (Join (e :: e' :: l) sep) with (e +:+ sep +:+ Join (e' :: l) sep).
  rewrite !countByte_app, IH, Hsep. simpl. lia.
Qed.

Variable IsLimitFilter : query.FilterOption.t → bool.
Variable unicodeToUpper : string → string.

Import query.

Abbreviation addWhere := (query.addWhere IsLimitFilter unicodeToUpper).
Abbreviation whereLoop := (query.whereLoop IsLimitFilter).
Abbreviation enters := (query.enters IsLimitFilter).
Abbreviation boundValues := (query.boundValues IsLimitFilter).
Abbreviation ToUpper := (query.ToUpper unicodeToUpper).
Abbreviation ReplaceStarSelect := (query.ReplaceStarSelect unicodeToUpper).
Abbreviation AppendOptionsToQuery := (query.AppendOptionsToQuery IsLimitFilter unicodeToUpper).
Abbreviation ConvertListOptionsToQuery := (query.ConvertListOptionsToQuery IsLimitFilter unicodeToUpper).
Abbreviation ConvertRetrieveOptionsToQuery := (query.ConvertRetrieveOptionsToQuery unicodeToUpper).
Abbreviation addLimit := (query.addLimit IsLimitFilter).
Abbreviation plainFilter := (query.plainFilter IsLimitFilter).
Abbreviation sameShape := (query.sameShape IsLimitFilter).

Lemma orLoop_run fo values orParts params :
  orLoop fo values orParts params =
  (orParts ++ repeat (condition fo) (length values), params ++ (AnyString <$> values)).
Proof.
  revert orParts params. induction values as [|v values IH]; intros orParts params; simpl.
  - by rewrite !app_nil_r.
  - rewrite IH, <- !app_assoc. done.
Qed.

Lemma whereLoop_run fs whereParts params :
  whereLoop fs whereParts params =
  (whereParts ++ (wherePart <$> List.filter enters fs), params ++ boundValues fs).
Proof.
  revert whereParts params. unfold boundValues.
  induction fs as [|fo fs IH]; intros whereParts params.
  - simpl. by rewrite !app_nil_r.
  - cbn [query.whereLoop List.filter]. change (enters fo) with (negb (IsLimitFilter fo)).
    destruct (IsLimitFilter fo) eqn:Hlim; cbn [negb]; [apply IH|].
    unfold wherePart.
    destruct (FilterOption.Values fo) as [|v [|v' vs]] eqn:Hv;
      rewrite ?orLoop_run, IH; simpl; rewrite Hv; simpl; by rewrite <- !app_assoc.
Qed.

Lemma addWhere_params fs q params :
  snd (addWhere fs q params) = params ++ boundValues fs.
Proof.
  unfold addWhere. destruct fs as [|fo fs]; [by rewrite app_nil_r|].
  rewrite whereLoop_run. done.
Qed.

Lemma addWhere_text fo fs q params :
  fst (addWhere (fo :: fs) q params) =
  q +:+ (if Contains (ToUpper q) " WHERE " then " AND " else " WHERE ") +:+
    Join (wherePart <$> List.filter enters (fo :: fs)) " AND ".
Proof. unfold query.addWhere. rewrite whereLoop_run. done. Qed.

Lemma wherePart_sameShape a b : sameShape a b → wherePart a = wherePart b.
Proof.
  intros (Hc & Ho & Hl & _). unfold wherePart, condition. rewrite Hc, Ho.
  destruct (FilterOption.Values a) as [|? [|? ?]], (FilterOption.Values b) as [|? [|? ?]];
    cbn [length] in *; try discriminate; try reflexivity. by rewrite Hl.
Qed.

Lemma whereParts_sameShape fs fs' :
  Forall2 sameShape fs fs' →
  wherePart <$> List.filter enters fs = wherePart <$> List.filter enters fs'.
Proof.
  induction 1 as [|a b fs fs' Hab _ IH]; [done|]. cbn [List.filter].
  assert (enters a = enters b) as -> by (unfold query.enters; by rewrite (proj2 (proj2 (proj2 Hab)))).
  destruct (enters b); [|exact IH].
  rewrite !fmap_cons, IH. f_equal. by apply wherePart_sameShape.
Qed.

(** X17: the text [addWhere] produces does not depend on the values of the
    filters, only on their columns, operators and on how many values each
    carries: the values reach the statement as bound parameters only. *)
Theorem addWhere_text_ignores_values fs fs' q params params' :
  Forall2 sameShape fs fs' →
  fst (addWhere fs q params) = fst (addWhere fs' q params').
Proof.
  intros Hs. destruct Hs as [|a b fs fs' Hab Hs]; [done|].
  rewrite !addWhere_text.
  rewrite (whereParts_sameShape (a :: fs) (b :: fs')) by (by constructor). done.
Qed.

Lemma countByte_condition fo :
  countByte "?" (FilterOption.Column fo) = 0%nat →
  countByte "?" (Operator.Code (FilterOption.Operator fo)) = 0%nat →
  countByte "?" (condition fo) = 1%nat.
Proof. intros Hc Ho. unfold condition. rewrite !countByte_app, Hc, Ho. done. Qed.

Lemma sum_list_fmap_repeat {A} (f : A → nat) (x : A) (n : nat) :
  sum_list (f <$> repeat x n) = (n * f x)%nat.
Proof. induction n as [|n IH]; [done|]. cbn [repeat]. rewrite fmap_cons. simpl. lia. Qed.

Lemma countByte_wherePart fo :
  plainFilter fo → enters fo = true →
  countByte "?" (wherePart fo) = length (FilterOption.Values fo).
Proof.
  intros Hp He. destruct Hp as [Hc Ho]; [by destruct (IsLimitFilter fo) eqn:E; unfold query.enters in He; rewrite E in He|].
  pose proof (countByte_condition fo Hc Ho) as H1. unfold wherePart.
  assert (∀ n, countByte "?" ("(" +:+ Join (repeat (condition fo) n) " OR " +:+ ")") = n) as Hor.
  { intros n. rewrite !countByte_app, countByte_Join by done.
    rewrite sum_list_fmap_repeat, H1. simpl. lia. }
  destruct (FilterOption.Values fo) as [|v [|v' vs]]; [apply (Hor 0%nat)|done|apply Hor].
Qed.

Lemma countByte_whereParts fs :
  Forall plainFilter fs →
  sum_list (countByte "?" <$> (wherePart <$> List.filter enters fs)) = length (boundValues fs).
Proof.
  unfold query.boundValues. induction 1 as [|fo fs Hp _ IH]; [done|]. cbn [List.filter].
  destruct (enters fo) eqn:He; [|exact IH].
  rewrite !fmap_cons, bind_cons, length_app, length_fmap, <- IH.
  simpl. by rewrite countByte_wherePart.
Qed.

Lemma addWhere_placeholders fs q params :
  Forall plainFilter fs →
  (countByte "?" (fst (addWhere fs q params)) + length params =
   countByte "?" q + length (snd (addWhere fs q params)))%nat.
Proof.
  intros Hp. rewrite addWhere_params. destruct fs as [|fo fs]; [simpl; rewrite app_nil_r; lia|].
  rewrite addWhere_text, !countByte_app, countByte_Join, countByte_whereParts by done.
  rewrite length_app.
  destruct (Contains _ _); simpl; lia.
Qed.

Lemma whereParts_without_values fs :
  Forall (fun fo => enters fo = false ∨ FilterOption.Values fo = []) fs →
  wherePart <$> List.filter enters fs = repeat "()" (length (List.filter enters fs)) ∧
  boundValues fs = [].
Proof.
  unfold query.boundValues. induction 1 as [|a l Ha _ [IH1 IH2]]; [done|]. cbn [List.filter].
  destruct (enters a) eqn:He; [|done].
  destruct Ha as [?|Hv]; [congruence|].
  rewrite fmap_cons, bind_cons, IH1, IH2. unfold wherePart. by rewrite Hv.
Qed.

(** X18: filters that contribute nothing still change the statement.  When
    every filter of a list that is not empty is a limit filter or carries no
    value, [addWhere] binds nothing and still appends the keyword, followed
    by one empty pair of parentheses for each filter without values that is
    no limit filter. *)
Theorem addWhere_without_conditions fs q params :
  fs ≠ [] →
  Forall (fun fo => enters fo = false ∨ FilterOption.Values fo = []) fs →
  addWhere fs q params =
    (q +:+ (if Contains (ToUpper q) " WHERE " then " AND " else " WHERE ") +:+
       Join (repeat "()" (length (List.filter enters fs))) " AND ", params).
Proof.
  intros Hne Hall. destruct fs as [|fo fs]; [done|].
  destruct (whereParts_without_values _ Hall) as [H1 H2].
  rewrite (surjective_pairing (addWhere _ _ _)), addWhere_text, addWhere_params, H1, H2.
  by rewrite app_nil_r.
Qed.

Lemma limitLoop_panics fs limit :
  query.limitLoop IsLimitFilter fs limit = None ↔
  Exists (fun fo => IsLimitFilter fo = true ∧ FilterOption.Values fo = []) fs.
Proof.
  revert limit. induction fs as [|fo fs IH]; intros limit; simpl.
  - split; [done|]. by rewrite Exists_nil.
  - rewrite Exists_cons. destruct (IsLimitFilter fo) eqn:Hlim; simpl.
    + destruct (FilterOption.Values fo) as [|v vs] eqn:Hv.
      * split; [by left|done].
      * rewrite IH. split; [by right|]. by intros [[_ ?]|?].
    + rewrite IH. split; [by right|]. by intros [[? _]|?].
Qed.

(** X19: [addLimit] reads the first value of every limit filter; it panics
    exactly when some limit filter carries no value. *)
Theorem addLimit_panics_iff fs q :
  addLimit fs q = None ↔
  Exists (fun fo => IsLimitFilter fo = true ∧ FilterOption.Values fo = []) fs.
Proof.
  unfold query.addLimit. rewrite <- (limitLoop_panics fs EmptyString).
  destruct (query.limitLoop _ _ _); simpl; split; done.
Qed.

Lemma mapBytes_app f a b : mapBytes f (a +:+ b) = mapBytes f a +:+ mapBytes f b.
Proof. induction a; simpl; congruence. Qed.

Lemma upperByte_star c : Ascii.eqb (upperByte c) "*" = Ascii.eqb c "*".
Proof. by destruct c as [[] [] [] [] [] [] [] []]. Qed.

Lemma countByte_star_upper s : countByte "*" (mapBytes upperByte s) = countByte "*" s.
Proof. induction s as [|c s IH]; simpl; [done|]. by rewrite upperByte_star, IH. Qed.

Lemma prefix_empty s : String.prefix "" s = true.
Proof. by destruct s. Qed.

Lemma prefix_app a b : String.prefix a (a +:+ b) = true.
Proof. induction a as [|c a IH]; cbn -[ascii_dec]; [by destruct b|]. by destruct (ascii_dec c c). Qed.

Lemma replaceFirst_star kw rest new :
  countByte "*" kw = 0%nat →
  replaceFirst (kw +:+ String "*" rest) "*" new = kw +:+ new +:+ rest.
Proof.
  induction kw as [|c kw IH]; intros Hc.
  - cbn -[ascii_dec]. destruct (ascii_dec "*" "*"); [|done]. by rewrite prefix_empty.
  - simpl in Hc. destruct (Ascii.eqb_spec c "*") as [|Hne]; [done|].
    cbn -[ascii_dec]. destruct (ascii_dec "*" c) as [<-|_]; [done|]. by rewrite IH.
Qed.

Lemma replaceFirst_same s old : replaceFirst s old old = s.
Proof.
  assert (∀ old s, String.prefix old s = true →
                   old +:+ dropBytes (String.length old) s = s) as Hdrop.
  { clear. induction old as [|c old IH]; intros [|c' s]; cbn -[ascii_dec]; try done.
    destruct (ascii_dec c c') as [<-|]; [|done]. intros H. by rewrite IH. }
  induction s as [|c s IH]; cbn -[String.prefix].
  - destruct (String.prefix old "") eqn:E; [by apply Hdrop|done].
  - destruct (String.prefix old (String c s)) eqn:E; [by apply Hdrop|by rewrite IH].
Qed.

Lemma Replace1_replaceFirst s old new : Replace1 s old new = replaceFirst s old new.
Proof.
  unfold Replace1. destruct (String.eqb_spec old new) as [<-|]; [|done].
  by rewrite replaceFirst_same.
Qed.

(** X20: for a query that is ASCII and starts with [SELECT * ] in any letter
    case, [ReplaceStarSelect] with some field options puts the list of
    the qualified fields in place of that star and leaves the rest of the
    query, later stars included, as it is. *)
Theorem ReplaceStarSelect_replaces fieldOptions kw rest :
  selectKeyword kw →
  isASCII (kw +:+ "* " +:+ rest) = true →
  fieldOptions ≠ [] →
  ReplaceStarSelect fieldOptions (kw +:+ "* " +:+ rest) =
  kw +:+ Join (selectedFields fieldOptions) ", " +:+ " " +:+ rest.
Proof.
  intros Hkw Hascii Hne. unfold query.ReplaceStarSelect, query.ToUpper, HasPrefix.
  rewrite Hascii, mapBytes_app, Hkw.
  change ("SELECT " +:+ mapBytes upperByte ("* " +:+ rest))
    with ("SELECT * " +:+ mapBytes upperByte rest).
  rewrite prefix_app. cbn [negb].
  destruct fieldOptions as [|fo fos]; [done|].
  rewrite Replace1_replaceFirst.
  apply (replaceFirst_star kw (String " " rest)).
  rewrite <- countByte_star_upper, Hkw. done.
Qed.

Lemma countByte_dropBytes c old s :
  String.prefix old s = true →
  (countByte c old + countByte c (dropBytes (String.length old) s) = countByte c s)%nat.
Proof.
  revert s. induction old as [|a old IH]; intros [|b s]; cbn -[ascii_dec]; try done.
  destruct (ascii_dec a b) as [<-|]; [|done]. intros H. rewrite <- (IH s H). lia.
Qed.

Lemma countByte_replaceFirst c s old new :
  countByte c old = 0%nat → countByte c new = 0%nat →
  countByte c (replaceFirst s old new) = countByte c s.
Proof.
  intros Ho Hn. induction s as [|a s IH]; cbn -[String.prefix].
  - destruct (String.prefix old "") eqn:E; [|done].
    rewrite countByte_app, Hn. pose proof (countByte_dropBytes c old "" E) as H.
    rewrite Ho in H. done.
  - destruct (String.prefix old (String a s)) eqn:E.
    + rewrite countByte_app, Hn. pose proof (countByte_dropBytes c old _ E) as H.
      rewrite Ho in H. done.
    + simpl. by rewrite IH.
Qed.

Lemma countByte_selectedFields fieldOptions :
  Forall plainFields fieldOptions →
  sum_list (countByte "?" <$> selectedFields fieldOptions) = 0%nat.
Proof.
  unfold selectedFields. induction 1 as [|fo fos [Hr Hf] _ IH]; [done|].
  rewrite bind_cons, fmap_app, sum_list_with_app, IH.
  clear IH. induction Hf as [|f fs Hf0 _ IH]; [done|].
  rewrite !fmap_cons. cbn [sum_list_with]. rewrite !countByte_app, Hr, Hf0. simpl in *. lia.
Qed.

Lemma ReplaceStarSelect_placeholders fieldOptions q :
  Forall plainFields fieldOptions →
  countByte "?" (ReplaceStarSelect fieldOptions q) = countByte "?" q.
Proof.
  intros Hp. unfold query.ReplaceStarSelect.
  destruct (negb _); [done|]. destruct fieldOptions as [|fo fos]; [done|].
  rewrite Replace1_replaceFirst. apply countByte_replaceFirst; [done|].
  rewrite countByte_Join by done. by apply countByte_selectedFields.
Qed.

Lemma countByte_orderByValues sortOptions :
  Forall plainSort sortOptions →
  sum_list (countByte "?" <$> (orderByValue <$> sortOptions)) = 0%nat.
Proof.
  induction 1 as [|a l Ha _ IH]; [done|]. rewrite !fmap_cons. cbn [sum_list_with].
  unfold orderByValue at 1. rewrite !countByte_app, Ha, IH.
  by destruct (SortOption.IsASC a).
Qed.

Lemma addOrderBy_placeholders sortOptions q :
  Forall plainSort sortOptions →
  countByte "?" (addOrderBy sortOptions q) = countByte "?" q.
Proof.
  intros Hp. unfold addOrderBy. destruct sortOptions as [|so sos]; [done|].
  replace (0 <? length (orderByValue <$> so :: sos))%nat with true by done.
  rewrite !countByte_app, countByte_Join, countByte_orderByValues by done.
  simpl. lia.
Qed.

(** X21: the parameters [AppendOptionsToQuery] returns are the ones it was
    given, then the values of the filters that are no limit filters, in the
    order of the filters, then the limit and the offset of the pagination if
    there is one; [ConvertListOptionsToQuery] starts from none. *)
Theorem AppendOptionsToQuery_params o q params :
  snd (AppendOptionsToQuery o q params) =
    params ++ boundValues (ListOptions.Filters o) ++ pageValues (ListOptions.Pagination o) ∧
  snd (ConvertListOptionsToQuery o q) =
    boundValues (ListOptions.Filters o) ++ pageValues (ListOptions.Pagination o).
Proof.
  assert (∀ params, snd (AppendOptionsToQuery o q params) =
    params ++ boundValues (ListOptions.Filters o) ++ pageValues (ListOptions.Pagination o)) as H.
  { intros ps. unfold query.AppendOptionsToQuery.
    pose proof (addWhere_params (ListOptions.Filters o) q ps) as Hw.
    destruct (addWhere _ _ _) as [q1 p1]. simpl in Hw. subst p1.
    unfold addLimitOffset, pageValues. destruct (ListOptions.Pagination o); simpl.
    - by rewrite <- app_assoc.
    - by rewrite app_nil_r. }
  split; [apply H|]. unfold query.ConvertListOptionsToQuery. by rewrite H.
Qed.

(** X22: [AppendOptionsToQuery] adds as many placeholders to the query as it
    adds parameters, when no column, operator code, resource or field
    name holds a question mark: a query that came with one placeholder for
    each parameter leaves with one for each. *)
Theorem AppendOptionsToQuery_placeholders o q params :
  Forall plainFilter (ListOptions.Filters o) →
  Forall plainSort (ListOptions.Sorts o) →
  Forall plainFields (ListOptions.Fields o) →
  (countByte "?" (fst (AppendOptionsToQuery o q params)) + length params =
   countByte "?" q + length (snd (AppendOptionsToQuery o q params)))%nat.
Proof.
  intros Hf Hs Hfo. unfold query.AppendOptionsToQuery.
  pose proof (addWhere_placeholders (ListOptions.Filters o) q params Hf) as Hw.
  destruct (addWhere _ _ _) as [q1 p1]. simpl in Hw.
  unfold addLimitOffset. destruct (ListOptions.Pagination o); cbn [fst snd].
  - rewrite countByte_app, length_app, ReplaceStarSelect_placeholders, addOrderBy_placeholders by done.
    simpl. lia.
  - rewrite ReplaceStarSelect_placeholders, addOrderBy_placeholders by done. lia.
Qed.

End QueryProperties.

(** * Concrete runs *)

Ltac run := vm_compute; reflexivity.
Ltac decided :=
  match goal with |- ?P => apply (@bool_decide_unpack P _) end; vm_compute; exact I.


(** [c2] registers next to the connected [c1] and asks for a local port
    outside the allowed set. *)
Lemma StartClient_tunnel_failure_witness :
  let s' := setPortDistributor (setBusyPorts {[8080]} Ex.ports)
              (setHeap [Ex.client "c1" "auth1" None Ex.conn [Ex.tunnelA];
                        Ex.client "c2" "auth2" None Ex.conn []] Ex.sLive) in
  StartClient Ex.parseACL Ex.splitHostPort 0 "auth2" "c2" Ex.conn false
    (Ex.request [Ex.remoteForbidden]) 0 Ex.sLive
    = Some (Err (errPortNotAllowed 99), s') ∧
  repo s' = repo Ex.sLive ∧
  ∀ id', fst <$> GetByID id' s' = fst <$> GetByID id' Ex.sLive ∧ view s' id' = view Ex.sLive id'.
Proof.
  intros s'.
  assert (wf Ex.sLive) as Hwf by decided.
  assert (lookupOld "c2" (Ex.request [Ex.remoteForbidden]) Ex.sLive
          = Some (Ok (None, [Ex.remoteForbidden]), Ex.sLive)) as Hold by run.
  assert (checkAuthID false "auth2" "c2" Ex.sLive = Some (Ok tt, Ex.sLive)) as Hauth by run.
  assert (Ex.splitHostPort (clients.RemoteAddr Ex.conn) = Ok "10.0.0.7") as Hhost by run.
  assert (startClientTunnels Ex.parseACL (length (heap Ex.sLive)) [Ex.remoteForbidden]
            (setHeap (heap Ex.sLive ++
               [carryOver None (newClient 0 "auth2" "c2" Ex.conn (Ex.request [Ex.remoteForbidden]) 0 "10.0.0.7")])
               Ex.sLive)
          = Some (Err (errPortNotAllowed 99), s')) as Htun by run.
  exact (StartClient_tunnel_failure Ex.parseACL Ex.splitHostPort 0 "auth2" "c2" Ex.conn false
           (Ex.request [Ex.remoteForbidden]) 0 Ex.sLive None [Ex.remoteForbidden] "10.0.0.7"
           (errPortNotAllowed 99) s' Hwf Hold Hauth Hhost Htun).
Defined.

(** A second registration of the connected [c1], and a second registration
    right after a first one. *)
Lemma StartClient_id_in_use_witness :
  connected Ex.sLive "c1" ∧
  StartClient Ex.parseACL Ex.splitHostPort 0 "auth1" "c1" Ex.conn false (Ex.request []) 0 Ex.sLive
    = Some (Err (errClientIDInUse "c1"), Ex.sLive) ∧
  let s1 := Ex.state [Ex.client "c7" "auth7" None Ex.conn []] {["c7" := 0%nat]} (Some 3600) Ex.working in
  StartClient Ex.parseACL Ex.splitHostPort 0 "auth7" "c7" Ex.conn false (Ex.request []) 0 Ex.sEmpty
    = Some (Ok 0%nat, s1) ∧
  StartClient Ex.parseACL Ex.splitHostPort 0 "auth8" "c7" Ex.conn true (Ex.request [Ex.remoteB]) 0 s1
    = Some (Err (errClientIDInUse "c7"), s1).
Proof.
  assert (connected Ex.sLive "c1") as Hlive.
  { exists 0%nat, (Ex.client "c1" "auth1" None Ex.conn [Ex.tunnelA]).
    split; [run|]. split; run. }
  split; [exact Hlive|]. split.
  - exact (proj1 (StartClient_id_in_use Ex.parseACL Ex.splitHostPort 0 "auth1" "c1" Ex.conn false
                    (Ex.request []) 0 Ex.sLive) Hlive).
  - intros s1.
    assert (StartClient Ex.parseACL Ex.splitHostPort 0 "auth7" "c7" Ex.conn false (Ex.request []) 0
              Ex.sEmpty = Some (Ok 0%nat, s1)) as Hfirst by run.
    split; [exact Hfirst|].
    exact (proj2 (StartClient_id_in_use Ex.parseACL Ex.splitHostPort 0 "auth8" "c7" Ex.conn true
                    (Ex.request [Ex.remoteB]) 0 s1)
                 0%nat "auth7" Ex.conn false (Ex.request []) 0%nat Ex.sEmpty 0%nat Hfirst).
Defined.

(** The spec's reconnect scenario: [c1] had tunnel A on local port 8080, was
    disconnected, and comes back asking for remote B only. *)
Lemma StartClient_reestablishes_witness :
  ∃ c', view (Ex.state [Ex.client "c1" "auth1" (Some 100) Ex.conn [Ex.tunnelA];
                        Ex.client "c1" "auth1" None Ex.conn
                          [{| clients.Remote := Ex.remoteB; clients.ACL := None |}; Ex.tunnelA]]
                {["c1" := 1%nat]} (Some 3600) Ex.working) "c1" = Some c' ∧
        (∃ t, t ∈ clients.Tunnels c' ∧ chshare.target (clients.Remote t) = chshare.target Ex.remoteB) ∧
        (∃ t, t ∈ clients.Tunnels c' ∧ chshare.target (clients.Remote t) = chshare.target Ex.remoteA).
Proof.
  set (s' := Ex.state _ _ _ _).
  assert (StartClient Ex.parseACL Ex.splitHostPort 0 "auth1" "c1" Ex.conn false
            (Ex.request [Ex.remoteB]) 0 Ex.sLost = Some (Ok 1%nat, s')) as Hrun by run.
  assert (Clients (repo Ex.sLost) !! "c1" = Some 0%nat) as Hp by run.
  assert (heap Ex.sLost !! 0%nat = Some (Ex.client "c1" "auth1" (Some 100) Ex.conn [Ex.tunnelA]))
    as Hold by run.
  assert (is_Some (clients.DisconnectedAt (Ex.client "c1" "auth1" (Some 100) Ex.conn [Ex.tunnelA])))
    as Hdis by (exists 100; reflexivity).
  destruct (StartClient_reestablishes Ex.parseACL Ex.splitHostPort 0 "auth1" "c1" Ex.conn false
              (Ex.request [Ex.remoteB]) 0 Ex.sLost 0%nat _ 1%nat s' Hp Hold Hdis Hrun)
    as (c' & _ & Hview & Hnew & Hre).
  exists c'. split; [exact Hview|]. split.
  - destruct (Hnew Ex.remoteB) as (t & Ht & _ & Htarget); [left|]. exists t. split; assumption.
  - destruct (Hre Ex.remoteA) as (t & Ht & _ & Htarget); [left | run |]. exists t. split; assumption.
Defined.

(** Terminating [c1] without and with retention. *)
Lemma Terminate_retention_policy_witness :
  (∃ s', Terminate 0%nat 200 Ex.sNoKeep = Some (Ok tt, s') ∧
         GetByID "c1" s' = Some (Ok None, s')) ∧
  (∃ s' c', Terminate 0%nat 200 Ex.sLive = Some (Ok tt, s') ∧
            GetByID "c1" s' = Some (Ok (Some 0%nat), s') ∧
            heap s' !! 0%nat = Some c' ∧
            view s' "c1" = Some c' ∧
            clients.DisconnectedAt c' = Some 200).
Proof.
  split.
  - apply (proj1 (Terminate_retention_policy 0%nat 200 Ex.sNoKeep
                    (Ex.client "c1" "auth1" None Ex.conn [Ex.tunnelA])
                    ltac:(run) ltac:(intros op; reflexivity))).
    reflexivity.
  - apply (proj2 (Terminate_retention_policy 0%nat 200 Ex.sLive
                    (Ex.client "c1" "auth1" None Ex.conn [Ex.tunnelA])
                    ltac:(run) ltac:(intros op; reflexivity)) 3600).
    + reflexivity.
    + exists 0%nat. run.
Defined.

(** Terminating [c1] after its record was deleted, and right after a
    [ForceDelete]. *)
Lemma Terminate_after_removal_witness :
  (∃ s', Terminate 0%nat 200 Ex.sGone = Some (Ok tt, s') ∧
         repo s' = repo Ex.sGone ∧
         GetByID "c1" s' = Some (Ok None, s')) ∧
  let s1 := Ex.state [Ex.client "c1" "auth1" None (clients.closeConn Ex.conn) [Ex.tunnelA]]
              ∅ (Some 3600) Ex.working in
  ForceDelete 0%nat Ex.sLive = Some (Ok tt, s1) ∧
  ∃ s', Terminate 0%nat 200 s1 = Some (Ok tt, s') ∧
        repo s' = repo s1 ∧
        GetByID "c1" s' = Some (Ok None, s').
Proof.
  split.
  - apply (proj1 (Terminate_after_removal 0%nat 200 Ex.sGone
                    (Ex.client "c1" "auth1" None Ex.conn [Ex.tunnelA]) 3600
                    ltac:(run) ltac:(run))).
    run.
  - intros s1.
    assert (ForceDelete 0%nat Ex.sLive = Some (Ok tt, s1)) as Hfd by run.
    split; [exact Hfd|].
    apply (proj2 (Terminate_after_removal 0%nat 200 Ex.sLive
                    (Ex.client "c1" "auth1" None Ex.conn [Ex.tunnelA]) 3600
                    ltac:(run) ltac:(run)) s1).
    + reflexivity.
    + exact Hfd.
Defined.

(** [ForceDelete] of a disconnected client, of a connected client, of a
    connected client whose connection does not close, and of both kinds of
    client on a repository that cannot delete. *)
Lemma ForceDelete_closes_then_deletes_witness :
  let c := Ex.client "c1" "auth1" None Ex.conn [Ex.tunnelA] in
  ForceDelete 0%nat Ex.sLost = Some (Ok tt, withoutRecord "c1" Ex.sLost) ∧
  ForceDelete 0%nat Ex.sLive = Some (Ok tt, withoutRecord "c1" (markClosed 0%nat c Ex.sLive)) ∧
  ForceDelete 0%nat Ex.sBroken = Some (Err Ex.closeFailure, Ex.sBroken) ∧
  ForceDelete 0%nat Ex2.sLostDeleteFails = Some (Err Ex.ioFailure, Ex2.sLostDeleteFails) ∧
  ForceDelete 0%nat Ex2.sLiveDeleteFails
    = Some (Err Ex.ioFailure, markClosed 0%nat c Ex2.sLiveDeleteFails).
Proof.
  intros c.
  destruct (ForceDelete_closes_then_deletes 0%nat Ex.sLost
              (Ex.client "c1" "auth1" (Some 100) Ex.conn [Ex.tunnelA]) eq_refl)
    as (Hlost & _ & _).
  destruct (ForceDelete_closes_then_deletes 0%nat Ex.sLive c eq_refl) as (_ & Hlive & _).
  destruct (ForceDelete_closes_then_deletes 0%nat Ex.sBroken
              (Ex.client "c1" "auth1" None Ex.brokenConn [Ex.tunnelA]) eq_refl)
    as (_ & _ & Hbroken).
  destruct (ForceDelete_closes_then_deletes 0%nat Ex2.sLostDeleteFails
              (Ex.client "c1" "auth1" (Some 100) Ex.conn [Ex.tunnelA]) eq_refl)
    as (Hlost' & _ & _).
  destruct (ForceDelete_closes_then_deletes 0%nat Ex2.sLiveDeleteFails c eq_refl)
    as (_ & Hlive' & _).
  split; [|split; [|split; [|split]]].
  - exact (proj1 (proj1 (Hlost (mk_is_Some _ _ eq_refl)) eq_refl)).
  - exact (proj1 (proj1 (Hlive eq_refl eq_refl) eq_refl)).
  - exact (Hbroken Ex.closeFailure eq_refl eq_refl).
  - exact (proj2 (Hlost' (mk_is_Some _ _ eq_refl)) Ex.ioFailure eq_refl).
  - exact (proj1 (proj2 (Hlive' eq_refl eq_refl) Ex.ioFailure eq_refl)).
Defined.

(** C7 as stated fails: [c1] registers over a connection that will not
    close; the storage works, [c1] is connected, and after [ForceDelete] the
    record is still there.  Nor is the record of the disconnected [c1]
    deleted by a repository that cannot delete. *)
Lemma ForceDelete_close_failure_keeps_record :
  StartClient Ex.parseACL Ex.splitHostPort 0 "auth1" "c1" Ex.brokenConn false
    (Ex.request [Ex.remoteA]) 0 Ex.sEmpty = Some (Ok 0%nat, Ex.sBroken) ∧
  healthy Ex.sBroken ∧
  clients.DisconnectedAt <$> view Ex.sBroken "c1" = Some None ∧
  ForceDelete 0%nat Ex.sBroken = Some (Err Ex.closeFailure, Ex.sBroken) ∧
  GetByID "c1" Ex.sBroken = Some (Ok (Some 0%nat), Ex.sBroken) ∧
  clients.DisconnectedAt <$> view Ex2.sLostDeleteFails "c1" = Some (Some 100) ∧
  ForceDelete 0%nat Ex2.sLostDeleteFails = Some (Err Ex.ioFailure, Ex2.sLostDeleteFails) ∧
  GetByID "c1" Ex2.sLostDeleteFails = Some (Ok (Some 0%nat), Ex2.sLostDeleteFails).
Proof.
  split; [run|]. split; [intros op; reflexivity|]. repeat (split; [run|]). run.
Qed.


(** Errors on their way out: a repository that cannot save, delete, look
    up or count; a port distributor with no free port; a client that holds
    the local port already; a connection that does not close; and the
    repository that cannot list the operator's clients. *)
Lemma collaborator_errors_witness :
  let c := Ex.client "c1" "auth1" None Ex.conn [Ex.tunnelA] in
  SetACL "c1" ["staff"] Ex2.sSaveFails
    = Some (Err Ex.ioFailure, assigned 0%nat (setAllowedUserGroups ["staff"] c) Ex2.sSaveFails) ∧
  StartClientTunnels Ex.parseACL 0%nat [Ex.remoteB] Ex2.sSaveFails
    = Some (Err Ex.ioFailure,
            setPortDistributor (setBusyPorts {[8080]} Ex.ports)
              (assigned 0%nat
                 (clients.setTunnels
                    [Ex.tunnelA; {| clients.Remote := Ex.remoteB; clients.ACL := None |}] c)
                 Ex2.sSaveFails)) ∧
  ForceDelete 0%nat Ex2.sLostDeleteFails = Some (Err Ex.ioFailure, Ex2.sLostDeleteFails) ∧
  DeleteOffline "c1" Ex2.sLostDeleteFails = Some (Err Ex.ioFailure, Ex2.sLostDeleteFails) ∧
  DeleteOffline "c1" Ex2.sLookupFails
    = Some (Err (errFindClient "c1" Ex.ioFailure), Ex2.sLookupFails) ∧
  startClientTunnels Ex.parseACL 0%nat [Ex2.remoteAny] Ex2.sFull
    = Some (Err (ErrorString "no ports available"),
            setPortDistributor (setBusyPorts {[8080]} (portDistributor Ex2.sFull)) Ex2.sFull) ∧
  startClientTunnels Ex.parseACL 0%nat [Ex.remoteA] Ex.sGone
    = Some (Err (cantCreateTunnel (ErrorString "conflicting local port")), Ex.sGone) ∧
  ForceDelete 0%nat Ex.sBroken = Some (Err Ex.closeFailure, Ex.sBroken) ∧
  Count Ex2.noCount Ex.sLive = Some (Err Ex.ioFailure, Ex.sLive) ∧
  PopulateGroupsWithUserClients Ex.belongsTo [Ex.linuxGroup] Ex.operator Ex.sUsersFail
    = Some (Ok [cgroups.setClientIDs ["c3"; "c9"] Ex.linuxGroup], Ex.sUsersFail).
Proof.
  intros c.
  pose (at_ := collaborator_errors Ex.parseACL Ex.splitHostPort Ex.belongsTo
                 Ex2.noCount Ex2.noCount Ex2.noCount Ex2.noActive Ex2.noClients
                 Ex2.noUserClients).
  split; [|split; [|split; [|split; [|split; [|split; [|split; [|split; [|split]]]]]]]].
  - destruct (at_ Ex2.sSaveFails)
      as (_ & _ & _ & _ & _ & _ & _ & _ & _ & _ & _ & Hacl & _).
    apply (proj2 (Hacl "c1" ["staff"]) 0%nat c); run.
  - destruct (at_ Ex2.sSaveFails) as (_ & _ & _ & _ & _ & Htun & _).
    eapply (proj2 (Htun 0%nat [Ex.remoteB])); run.
  - destruct (at_ Ex2.sLostDeleteFails)
      as (_ & _ & _ & _ & _ & _ & _ & _ & Hforce & _).
    apply (proj1 (Hforce 0%nat (Ex.client "c1" "auth1" (Some 100) Ex.conn [Ex.tunnelA]) eq_refl));
      [by eexists | run].
  - destruct (at_ Ex2.sLostDeleteFails)
      as (_ & _ & _ & _ & _ & _ & _ & _ & _ & _ & Hoff & _).
    apply (proj2 (Hoff "c1") 0%nat (Ex.client "c1" "auth1" (Some 100) Ex.conn [Ex.tunnelA]));
      [run | run | by eexists | run].
  - destruct (at_ Ex2.sLookupFails)
      as (_ & _ & _ & _ & _ & _ & _ & _ & _ & Hget & Hoff & _).
    apply (proj1 (Hoff "c1")). apply (Hget "c1"); [discriminate | run].
  - destruct (at_ Ex2.sFull) as (_ & _ & Hloop & _).
    eapply (proj1 (Hloop 0%nat [] Ex2.remoteAny [] _ [] _ ltac:(run) ltac:(run)));
      [reflexivity | run].
  - destruct (at_ Ex.sGone) as (_ & _ & Hloop & _).
    eapply (proj2 (proj2 (proj2 (Hloop 0%nat [] Ex.remoteA [] _ [] _ ltac:(run) ltac:(run)))));
      run.
  - destruct (at_ Ex.sBroken) as (_ & _ & _ & _ & _ & _ & _ & _ & Hforce & _).
    apply (proj1 (proj2 (Hforce 0%nat (Ex.client "c1" "auth1" None Ex.brokenConn [Ex.tunnelA])
                           eq_refl) eq_refl)).
    run.
  - destruct (at_ Ex.sLive)
      as (_ & _ & _ & _ & _ & _ & _ & _ & _ & _ & _ & _ & _ & _ & (Hcount & _) & _).
    rewrite Hcount. reflexivity.
  - destruct (at_ Ex.sUsersFail)
      as (_ & _ & _ & _ & _ & _ & _ & _ & _ & _ & _ & _ & _ & _ & _ & Hpop & _).
    apply (Hpop [Ex.linuxGroup] Ex.operator Ex.ioFailure). run.
Defined.

(** C9 as stated fails: [GetUserClients] fails, and
    [PopulateGroupsWithUserClients] ends without an error, having only
    sorted the member list. *)
Lemma PopulateGroupsWithUserClients_ignores_error :
  repo_GetUserClients Ex.operator Ex.sUsersFail = Some (Err Ex.ioFailure, Ex.sUsersFail) ∧
  PopulateGroupsWithUserClients Ex.belongsTo [Ex.linuxGroup] Ex.operator Ex.sUsersFail
    = Some (Ok [cgroups.setClientIDs ["c3"; "c9"] Ex.linuxGroup], Ex.sUsersFail).
Proof. split; run. Qed.

(** Terminating the object of [c1] when no record is stored for it. *)
Lemma Terminate_marks_absent_client_witness :
  ∃ s', Terminate 0%nat 200 Ex.sGone = Some (Ok tt, s') ∧
        heap s' !! 0%nat
          = Some (clients.setDisconnectedAt (Some 200)
                    (Ex.client "c1" "auth1" None Ex.conn [Ex.tunnelA])) ∧
        clients.DisconnectedAt <$> heap s' !! 0%nat = Some (Some 200) ∧
        (∀ p, p ≠ 0%nat → heap s' !! p = heap Ex.sGone !! p) ∧
        repo s' = repo Ex.sGone ∧
        portDistributor s' = portDistributor Ex.sGone ∧
        (∀ id, view s' id = view Ex.sGone id).
Proof.
  apply (Terminate_marks_absent_client 0%nat 200 Ex.sGone
           (Ex.client "c1" "auth1" None Ex.conn [Ex.tunnelA]) 3600).
  - decided.
  - run.
  - run.
  - run.
Defined.

(** * Concrete runs of the rest of the service *)

(** An unknown id on a working repository, and any id on a repository that
    cannot look ids up. *)
Lemma getExistingByID_outcomes_witness :
  getExistingByID "c1" Ex.sLive = Some (Ok 0%nat, Ex.sLive) ∧
  getExistingByID "c2" Ex.sLive = Some (Err (errClientNotFound "c2"), Ex.sLive) ∧
  getExistingByID "c1" Ex2.sLookupFails
    = Some (Err (errFindClient "c1" Ex.ioFailure), Ex2.sLookupFails).
Proof.
  split; [|split].
  - apply (proj1 (proj2 (proj2 (getExistingByID_outcomes "c1" Ex.sLive)))).
    split; [discriminate|]. split; [reflexivity|]. split; reflexivity.
  - apply (proj2 (proj2 (proj2 (proj2 (getExistingByID_outcomes "c2" Ex.sLive)))));
      [discriminate | reflexivity | reflexivity].
  - apply (proj1 (proj2 (proj2 (proj2 (getExistingByID_outcomes "c1" Ex2.sLookupFails)))));
      [discriminate | reflexivity].
Defined.

(** [c1] gets a group list, then an update status. *)
Lemma SetACL_effect_witness :
  let s' := Ex.state [setAllowedUserGroups ["staff"] (Ex.client "c1" "auth1" None Ex.conn [Ex.tunnelA])]
              {["c1" := 0%nat]} (Some 3600) Ex.working in
  wf Ex.sLive ∧
  SetACL "c1" ["staff"] Ex.sLive = Some (Ok tt, s') ∧
  view s' "c1" = Some (setAllowedUserGroups ["staff"] (Ex.client "c1" "auth1" None Ex.conn [Ex.tunnelA])).
Proof.
  intros s'.
  assert (wf Ex.sLive) as Hwf by decided.
  assert (SetACL "c1" ["staff"] Ex.sLive = Some (Ok tt, s')) as Hrun by run.
  split; [exact Hwf|]. split; [exact Hrun|].
  destruct (SetACL_effect "c1" ["staff"] Ex.sLive (Ok tt) s' Hwf Hrun)
    as [(e & _ & He & _)|(c & Hc & Hc' & _)]; [discriminate He|].
  rewrite Hc'. f_equal. f_equal. vm_compute in Hc. by inversion Hc.
Defined.

Lemma SetUpdatesStatus_effect_witness :
  let c := Ex.client "c1" "auth1" None Ex.conn [Ex.tunnelA] in
  let s' := Ex.state [clients.setUpdatesStatus (Some "pending") c]
              {["c1" := 0%nat]} (Some 3600) Ex.working in
  wf Ex.sLive ∧
  SetUpdatesStatus "c1" (Some "pending") Ex.sLive = Some (Ok tt, s') ∧
  view s' "c1" = Some (clients.setUpdatesStatus (Some "pending") c).
Proof.
  intros c s'.
  assert (wf Ex.sLive) as Hwf by decided.
  assert (SetUpdatesStatus "c1" (Some "pending") Ex.sLive = Some (Ok tt, s')) as Hrun by run.
  split; [exact Hwf|]. split; [exact Hrun|].
  destruct (SetUpdatesStatus_effect "c1" (Some "pending") Ex.sLive (Ok tt) s' Hwf Hrun)
    as [(e & _ & He & _)|(c0 & Hc & Hc' & _)]; [discriminate He|].
  rewrite Hc'. f_equal. f_equal. vm_compute in Hc. by inversion Hc.
Defined.

(** The auditor asks for [c1], which is open to [staff] only; the operator
    is an admin. *)
Lemma CheckClientsAccess_outcome_witness :
  CheckClientsAccess [0%nat] Ex.operator Ex2.sRestricted = Some (Ok tt, Ex2.sRestricted) ∧
  CheckClientsAccess [0%nat] Ex2.auditor Ex2.sRestricted
    = Some (Err (errAccessDenied ["c1"]), Ex2.sRestricted).
Proof.
  destruct (CheckClientsAccess_outcome [0%nat] [Ex2.restricted] Ex.operator Ex2.sRestricted)
    as [Hadmin _].
  destruct (CheckClientsAccess_outcome [0%nat] [Ex2.restricted] Ex2.auditor Ex2.sRestricted)
    as [_ Hother].
  split; [exact (Hadmin eq_refl)|].
  assert (pointTo Ex2.sRestricted [0%nat] [Ex2.restricted]) as Hpt by (by repeat constructor).
  apply (proj2 (Hother eq_refl Hpt)). discriminate.
Defined.

Lemma CheckClientAccess_outcome_witness :
  wf Ex2.sRestricted ∧
  CheckClientAccess "c1" Ex2.auditor Ex2.sRestricted
    = Some (Err (errAccessDenied ["c1"]), Ex2.sRestricted) ∧
  CheckClientAccess "c2" Ex.operator Ex2.sRestricted
    = Some (Err (errClientNotFound "c2"), Ex2.sRestricted).
Proof.
  assert (wf Ex2.sRestricted) as Hwf by decided.
  split; [exact Hwf|]. split.
  - exact (proj2 (CheckClientAccess_outcome "c1" Ex2.auditor Ex2.sRestricted)
             Ex2.restricted Hwf ltac:(discriminate) eq_refl eq_refl).
  - apply (proj1 (CheckClientAccess_outcome "c2" Ex.operator Ex2.sRestricted)). run.
Defined.

(** A drawn port of the allowed range, and one outside it. *)
Lemma checkLocalPort_of_drawn_port_witness :
  checkLocalPort (chshare.LocalPort (chshare.withRandomPort 20000 Ex.remoteA)) Ex.sLive
    = Some (Ok tt, Ex.sLive) ∧
  checkLocalPort (chshare.LocalPort (chshare.withRandomPort 7 Ex.remoteA)) Ex.sLive
    = Some (Err (errPortNotAllowed 7), Ex.sLive).
Proof.
  split.
  - exact (checkLocalPort_of_drawn_port 20000 Ex.remoteA Ex.sLive ltac:(lia)).
  - exact (checkLocalPort_of_drawn_port 7 Ex.remoteA Ex.sLive ltac:(lia)).
Defined.

(** The operator's clients are sorted into the group [Linux]. *)
Lemma PopulateGroupsWithUserClients_members_witness :
  ∃ gs, PopulateGroupsWithUserClients Ex.belongsTo [Ex.linuxGroup] Ex.operator Ex.sLive
          = Some (Ok gs, Ex.sLive) ∧
        Forall2 (fun g g' =>
                   cgroups.ID g' = cgroups.ID g ∧
                   ascending (cgroups.ClientIDs g') ∧
                   cgroups.ClientIDs g' ≡ₚ
                     cgroups.ClientIDs g ++
                     memberIDs Ex.belongsTo [Ex.client "c1" "auth1" None Ex.conn [Ex.tunnelA]] g)
                [Ex.linuxGroup] gs.
Proof.
  apply (PopulateGroupsWithUserClients_members Ex.belongsTo [Ex.linuxGroup] Ex.operator [0%nat]).
  - intros c g ids. reflexivity.
  - run.
  - by repeat constructor.
Defined.

(** [c1], lost and open to [staff] only, registers again. *)
Lemma StartClient_new_record_witness :
  ∃ s' c',
    StartClient Ex.parseACL Ex.splitHostPort 0 "auth1" "c1" Ex.conn false (Ex.request []) 0
      Ex2.sRestricted = Some (Ok 1%nat, s') ∧
    clients.AllowedUserGroups Ex2.restricted = ["staff"] ∧
    view Ex2.sRestricted "c1" = Some Ex2.restricted ∧
    view s' "c1" = Some c' ∧
    clients.AllowedUserGroups c' = [] ∧
    clients.UpdatesStatus c' = clients.UpdatesStatus Ex2.restricted.
Proof.
  eexists.
  assert (StartClient Ex.parseACL Ex.splitHostPort 0 "auth1" "c1" Ex.conn false (Ex.request []) 0
            Ex2.sRestricted = Some (Ok 1%nat, _)) as Hrun by run.
  destruct (StartClient_new_record Ex.parseACL Ex.splitHostPort _ _ _ _ _ _ _ _ _ _ Hrun)
    as (c' & host & _ & Hview & _ & _ & _ & _ & _ & _ & _ & _ & _ & _ & Hacl & Hupd).
  exists c'. split; [exact Hrun|]. split; [reflexivity|]. split; [reflexivity|].
  split; [exact Hview|]. split; [exact Hacl|]. exact Hupd.
Defined.

(** [c2] registers next to the connected [c1] and asks for a port that is
    not allowed. *)
Lemma StartClient_failure_stores_nothing_witness :
  ∃ s',
    wf Ex.sLive ∧
    StartClient Ex.parseACL Ex.splitHostPort 0 "auth2" "c2" Ex.conn false
      (Ex.request [Ex.remoteForbidden]) 0 Ex.sLive = Some (Err (errPortNotAllowed 99), s') ∧
    heap s' ≠ heap Ex.sLive ∧
    repo s' = repo Ex.sLive ∧ ∀ id', view s' id' = view Ex.sLive id'.
Proof.
  eexists.
  assert (wf Ex.sLive) as Hwf by decided.
  assert (StartClient Ex.parseACL Ex.splitHostPort 0 "auth2" "c2" Ex.conn false
            (Ex.request [Ex.remoteForbidden]) 0 Ex.sLive
          = Some (Err (errPortNotAllowed 99), _)) as Hrun by run.
  split; [exact Hwf|]. split; [exact Hrun|]. split; [discriminate|].
  exact (StartClient_failure_stores_nothing Ex.parseACL Ex.splitHostPort _ _ _ _ _ _ _ _ _ _
           Hwf Hrun).
Defined.


Lemma StartClientTunnels_failure_witness :
  ∃ s',
    StartClientTunnels Ex.parseACL 0%nat [Ex.remoteForbidden] Ex.sLive
      = Some (Err (errPortNotAllowed 99), s') ∧
    repo s' = repo Ex.sLive.
Proof.
  eexists.
  assert (StartClientTunnels Ex.parseACL 0%nat [Ex.remoteForbidden] Ex.sLive
          = Some (Err (errPortNotAllowed 99), _)) as Hrun by run.
  split; [exact Hrun|].
  exact (proj1 (StartClientTunnels_failure Ex.parseACL 0%nat [Ex.remoteForbidden] Ex.sLive _ _ Hrun)).
Defined.

(** The connected [c1] cannot be deleted offline. *)
Lemma DeleteOffline_refuses_connected_witness :
  connected Ex.sLive "c1" ∧
  DeleteOffline "c1" Ex.sLive = Some (Err errClientActive, Ex.sLive).
Proof.
  assert (connected Ex.sLive "c1") as Hc.
  { exists 0%nat, (Ex.client "c1" "auth1" None Ex.conn [Ex.tunnelA]).
    split; [run|]. split; reflexivity. }
  split; [exact Hc|].
  exact (proj1 (DeleteOffline_refuses_connected Ex.parseACL Ex.splitHostPort "c1" Ex.sLive
                  ltac:(discriminate)) Hc).
Defined.

(** [c1] is terminated at time 100 and then deleted offline. *)
Lemma Terminate_then_DeleteOffline_witness :
  ∃ s1 s2, Terminate 0%nat 100 Ex.sLive = Some (Ok tt, s1) ∧
           DeleteOffline "c1" s1 = Some (Ok tt, s2) ∧
           view s2 "c1" = None ∧
           heap s2 !! 0%nat
             = Some (clients.setDisconnectedAt (Some 100)
                       (Ex.client "c1" "auth1" None Ex.conn [Ex.tunnelA])).
Proof.
  apply (Terminate_then_DeleteOffline 0%nat 100 Ex.sLive
           (Ex.client "c1" "auth1" None Ex.conn [Ex.tunnelA]) 3600).
  - reflexivity.
  - intros op. reflexivity.
  - reflexivity.
  - by eexists.
  - discriminate.
Defined.

(** The invariant holds before and after the termination of [c1]. *)
Lemma service_keeps_registry_invariant_witness :
  wf Ex.sLive ∧ Terminate 0%nat 100 Ex.sLive = Some (Ok tt, Ex.sLost) ∧ wf Ex.sLost.
Proof.
  assert (wf Ex.sLive) as Hwf by decided.
  assert (Terminate 0%nat 100 Ex.sLive = Some (Ok tt, Ex.sLost)) as Hrun by run.
  split; [exact Hwf|]. split; [exact Hrun|].
  destruct (service_keeps_registry_invariant Ex.parseACL Ex.splitHostPort Ex.sLive Ex.sLost Hwf)
    as (_ & _ & Hterm & _).
  exact (Hterm _ _ _ Hrun).
Defined.

(** A filter column is a field. *)
Lemma supported_options_are_fields_witness :
  index clientsSupportedFilters "os_version" = true ∧
  ∃ fields, clientsSupportedFields !! "clients" = Some fields ∧ index fields "os_version" = true.
Proof.
  assert (index clientsSupportedFilters "os_version" = true) as H by run.
  split; [exact H|]. apply supported_options_are_fields. by left.
Defined.

(** * Concrete runs of the query builder *)

(** Two lists of filters that differ in their values only. *)
Lemma addWhere_text_ignores_values_witness :
  let fs := [Ex2.filterOn "os" ["linux"; "bsd"]; Ex2.filterOn "name" ["edge"]] in
  let fs' := [Ex2.filterOn "os" ["1 OR 1=1"; "x"]; Ex2.filterOn "name" ["'; DROP TABLE clients"]] in
  Forall2 (query.sameShape Ex2.isLimitFilter) fs fs' ∧
  fst (query.addWhere Ex2.isLimitFilter Ex2.unicodeToUpper fs "SELECT * FROM clients" [])
    = "SELECT * FROM clients WHERE (os = ? OR os = ?) AND name = ?" ∧
  fst (query.addWhere Ex2.isLimitFilter Ex2.unicodeToUpper fs' "SELECT * FROM clients" [])
    = "SELECT * FROM clients WHERE (os = ? OR os = ?) AND name = ?".
Proof.
  intros fs fs'.
  assert (Forall2 (query.sameShape Ex2.isLimitFilter) fs fs') as Hs
    by (by repeat constructor).
  split; [exact Hs|]. split; [run|].
  rewrite <- (addWhere_text_ignores_values Ex2.isLimitFilter Ex2.unicodeToUpper
                fs fs' "SELECT * FROM clients" [] [] Hs).
  run.
Defined.

(** A limit filter alone, and a filter without values. *)
Lemma addWhere_without_conditions_witness :
  query.addWhere Ex2.isLimitFilter Ex2.unicodeToUpper [Ex2.filterOn "limit" ["5"]]
    "SELECT * FROM clients" [] = ("SELECT * FROM clients WHERE ", []) ∧
  query.addWhere Ex2.isLimitFilter Ex2.unicodeToUpper [Ex2.filterOn "os" []]
    "SELECT * FROM clients" [] = ("SELECT * FROM clients WHERE ()", []).
Proof.
  split.
  - apply (addWhere_without_conditions Ex2.isLimitFilter Ex2.unicodeToUpper
             [Ex2.filterOn "limit" ["5"]] "SELECT * FROM clients" []); [discriminate|].
    constructor; [by left | constructor].
  - apply (addWhere_without_conditions Ex2.isLimitFilter Ex2.unicodeToUpper
             [Ex2.filterOn "os" []] "SELECT * FROM clients" []); [discriminate|].
    constructor; [by right | constructor].
Defined.

(** A lower-case query with a second star further on. *)
Lemma ReplaceStarSelect_replaces_witness :
  query.ReplaceStarSelect Ex2.unicodeToUpper (query.ListOptions.Fields Ex2.options)
    "select * from clients where n = 2 * 3"
  = "select clients.id, clients.name from clients where n = 2 * 3".
Proof.
  apply (ReplaceStarSelect_replaces Ex2.unicodeToUpper (query.ListOptions.Fields Ex2.options)
           "select " "from clients where n = 2 * 3"); [reflexivity | reflexivity | discriminate].
Defined.

(** The whole conversion of [Ex2.options]. *)
Lemma AppendOptionsToQuery_placeholders_witness :
  query.ConvertListOptionsToQuery Ex2.isLimitFilter Ex2.unicodeToUpper Ex2.options
    "SELECT * FROM clients"
  = ("SELECT clients.id, clients.name FROM clients WHERE (os = ? OR os = ?) AND name = ? ORDER BY name DESC LIMIT ? OFFSET ?",
     [query.AnyString "linux"; query.AnyString "bsd"; query.AnyString "edge";
      query.AnyString "10"; query.AnyString "20"]) ∧
  (countByte "?" (fst (query.AppendOptionsToQuery Ex2.isLimitFilter Ex2.unicodeToUpper Ex2.options
                         "SELECT * FROM clients" [])) + length (@nil query.any) =
   countByte "?" "SELECT * FROM clients" +
   length (snd (query.AppendOptionsToQuery Ex2.isLimitFilter Ex2.unicodeToUpper Ex2.options
                  "SELECT * FROM clients" [])))%nat.
Proof.
  split; [run|].
  apply (AppendOptionsToQuery_placeholders Ex2.isLimitFilter Ex2.unicodeToUpper Ex2.options
           "SELECT * FROM clients" []).
  - repeat constructor.
  - repeat constructor.
  - repeat constructor.
Defined.

(** The retained record of the disconnected [c1] is deleted offline. *)
Lemma DeleteOffline_removes_witness :
  wf Ex.sLost ∧
  DeleteOffline "c1" Ex.sLost = Some (Ok tt, withoutRecord "c1" Ex.sLost) ∧
  view (withoutRecord "c1" Ex.sLost) "c1" = None.
Proof.
  assert (wf Ex.sLost) as Hwf by decided.
  assert (DeleteOffline "c1" Ex.sLost = Some (Ok tt, withoutRecord "c1" Ex.sLost)) as Hrun by run.
  split; [exact Hwf|]. split; [exact Hrun|].
  exact (proj1 (proj2 (proj2 (DeleteOffline_removes "c1" Ex.sLost _ Hwf Hrun)))).
Defined.
